(** * BrightMode (bright.js): masked-text renderer

    A shallow embedding of [src/bright.js] and the properties of its
    line wrapper, mask builder and orchestrator, followed by the text
    decoder of [src/encrypt.js].

    Conventions of the embedding:
    - a JavaScript string is the list of its UTF-16 code units ([list N]);
    - a JavaScript number is a rational ([Q]); NaN, infinities and the
      rounding of doubles are outside the model, and a value that the
      code tests with [||] is falsy exactly when it is zero (or absent);
    - what the browser supplies (text measurement, computed style, layout,
      number printing, the percent-encoding of well-formed text) is a
      parameter of the development; the page is an HTML document with a
      working 2D canvas;
    - for [bright.js] the DOM is an explicit store of the elements that
      [apply] looks up, threaded through [apply], which ends by returning or
      by throwing; the store records what [apply] reads and writes of the
      container and the content element, and nothing is stated of the nodes
      below the content element, which an assignment of [textContent]
      removes;
    - for [encrypt.js] the document is a tree of text nodes and elements,
      and the assignment of [textContent] replaces the children of the
      element. *)

From Stdlib Require Import String Ascii DecimalString.
From Stdlib Require Import List NArith ZArith QArith Qround Bool Lia Lqa.
Import ListNotations.

(** ** JavaScript strings *)

Module JsString.

Abbreviation jsstring := (list N).

(** A literal, for readable examples: one code unit per ASCII character. *)
Definition js (s : string) : jsstring :=
  map N_of_ascii (list_ascii_of_string s).

Definition dquote : jsstring := [34%N].
Definition newline : jsstring := [10%N].

(** The class [\s] of a JavaScript regular expression, which is also the
    set that [trim], [trimStart] and [trimEnd] strip: WhiteSpace and
    LineTerminator of ECMA-262. *)
Definition isSpace (c : N) : bool :=
  ((9 <=? c) && (c <=? 13)          (* TAB LF VT FF CR *)
   || (c =? 32) || (c =? 160)       (* SP NBSP *)
   || (c =? 5760)                   (* U+1680 *)
   || ((8192 <=? c) && (c <=? 8202))(* U+2000 .. U+200A *)
   || (c =? 8232) || (c =? 8233)    (* LS PS *)
   || (c =? 8239) || (c =? 8287)    (* U+202F U+205F *)
   || (c =? 12288) || (c =? 65279)  (* U+3000 U+FEFF *))%N.

Fixpoint trimStart (s : jsstring) : jsstring :=
  match s with
  | [] => []
  | c :: s' => if isSpace c then trimStart s' else s
  end.

Definition trimEnd (s : jsstring) : jsstring := rev (trimStart (rev s)).

Definition trim (s : jsstring) : jsstring := trimEnd (trimStart s).

(** [Boolean(s)] for a string: the empty string is the only falsy one. *)
Definition truthy (s : jsstring) : bool :=
  match s with [] => false | _ :: _ => true end.

(** [a || b] on strings. *)
Definition orElse (a b : jsstring) : jsstring := if truthy a then a else b.

(** [/\s/.test(s)] *)
Definition hasSpace (s : jsstring) : bool := existsb isSpace s.

(** [s.replace(/c/g, by)] for a one-character pattern. *)
Definition replaceChar (c : N) (by_ : jsstring) (s : jsstring) : jsstring :=
  flat_map (fun d => if (d =? c)%N then by_ else [d]) s.

(** [lines.join(sep)] *)
Fixpoint join (sep : jsstring) (ls : list jsstring) : jsstring :=
  match ls with
  | [] => []
  | [l] => l
  | l :: ls' => l ++ sep ++ join sep ls'
  end.

(** [arr.includes('')] *)
Definition includesEmpty (ls : list jsstring) : bool :=
  existsb (fun l => negb (truthy l)) ls.

(** [s.split(/\r?\n/)]: cut at every LF, swallowing a CR right before it.
    [acc] is the piece being read. *)
Fixpoint splitNewlinesFrom (acc : jsstring) (s : jsstring) : list jsstring :=
  match s with
  | [] => [acc]
  | c :: s' =>
      if (c =? 10)%N then acc :: splitNewlinesFrom [] s'
      else if (c =? 13)%N then
        match s' with
        | d :: s'' =>
            if (d =? 10)%N then acc :: splitNewlinesFrom [] s''
            else splitNewlinesFrom (acc ++ [c]) s'
        | [] => splitNewlinesFrom (acc ++ [c]) s'
        end
      else splitNewlinesFrom (acc ++ [c]) s'
  end.

Definition splitNewlines (s : jsstring) : list jsstring :=
  splitNewlinesFrom [] s.

(** [s.split(/\r?\n|\|/)]: as above, and a pipe also separates. *)
Fixpoint splitLinesOrPipeFrom (acc : jsstring) (s : jsstring) : list jsstring :=
  match s with
  | [] => [acc]
  | c :: s' =>
      if ((c =? 10) || (c =? 124))%N then acc :: splitLinesOrPipeFrom [] s'
      else if (c =? 13)%N then
        match s' with
        | d :: s'' =>
            if (d =? 10)%N then acc :: splitLinesOrPipeFrom [] s''
            else splitLinesOrPipeFrom (acc ++ [c]) s'
        | [] => splitLinesOrPipeFrom (acc ++ [c]) s'
        end
      else splitLinesOrPipeFrom (acc ++ [c]) s'
  end.

Definition splitLinesOrPipe (s : jsstring) : list jsstring :=
  splitLinesOrPipeFrom [] s.

(** [s.split(/(\s+)/)]: the pieces between whitespace runs, with the runs
    themselves kept (the capture group), so words and runs alternate and
    the list starts and ends with a (possibly empty) word.  [inRun] tells
    whether [acc] is a whitespace run or a word. *)
Fixpoint splitKeepSpacesFrom (inRun : bool) (acc : jsstring) (s : jsstring)
  : list jsstring :=
  match s with
  | [] => if inRun then [acc; []] else [acc]
  | c :: s' =>
      if isSpace c then
        if inRun then splitKeepSpacesFrom true (acc ++ [c]) s'
        else acc :: splitKeepSpacesFrom true [c] s'
      else
        if inRun then acc :: splitKeepSpacesFrom false [c] s'
        else splitKeepSpacesFrom false (acc ++ [c]) s'
  end.

Definition splitKeepSpaces (s : jsstring) : list jsstring :=
  splitKeepSpacesFrom false [] s.

Definition isHighSurrogate (c : N) : bool := ((55296 <=? c) && (c <=? 56319))%N.
Definition isLowSurrogate (c : N) : bool := ((56320 <=? c) && (c <=? 57343))%N.

(** [Array.from(s)]: one string per code point, a surrogate pair staying
    together. *)
Fixpoint arrayFrom (s : jsstring) : list jsstring :=
  match s with
  | [] => []
  | c :: s' =>
      match s' with
      | d :: s'' =>
          if isHighSurrogate c && isLowSurrogate d
          then [c; d] :: arrayFrom s''
          else [c] :: arrayFrom s'
      | [] => [[c]]
      end
  end.

(** [s.isWellFormed()]: no surrogate stands without its partner. *)
Fixpoint wellFormed (s : jsstring) : bool :=
  match s with
  | [] => true
  | c :: s' =>
      if isHighSurrogate c then
        match s' with
        | d :: s'' => isLowSurrogate d && wellFormed s''
        | [] => false
        end
      else negb (isLowSurrogate c) && wellFormed s'
  end.

End JsString.
Import JsString.

(** ** JavaScript numbers *)

Module JsNum.

Open Scope Q_scope.

(** [Math.max(a, b)] *)
Definition max (a b : Q) : Q := if Qle_bool a b then b else a.

(** [Boolean(x)] for a number: zero is the only falsy rational. *)
Definition truthy (x : Q) : bool := negb (Qeq_bool x 0).

(** [a || b] *)
Definition orElse (a b : Q) : Q := if truthy a then a else b.

(** [a || b] where [a] may be absent ([undefined]) or NaN. *)
Definition orElseOpt (a : option Q) (b : Q) : Q :=
  match a with
  | Some x => orElse x b
  | None => b
  end.

(** [Boolean(a)] where [a] may be absent. *)
Definition truthyOpt (a : option Q) : bool :=
  match a with
  | Some x => truthy x
  | None => false
  end.

Definition ofNat (n : nat) : Q := inject_Z (Z.of_nat n).

End JsNum.

(** ** escapeXml and normalizeLines *)

Definition escapeXml (str : jsstring) : jsstring :=
  replaceChar 39 (js "&#39;")
    (replaceChar 34 (js "&quot;")
       (replaceChar 62 (js "&gt;")
          (replaceChar 60 (js "&lt;")
             (replaceChar 38 (js "&amp;") str)))).

(** What a caller may hand over as [textLines]: nothing, a string, or an
    array whose members are strings ([String(line)] is then the identity). *)
Inductive TextLines :=
| TLUndefined
| TLString (s : jsstring)
| TLArray (l : list jsstring).

Definition normalizeLines (source : TextLines) : list jsstring :=
  match source with
  | TLUndefined | TLString [] => []                   (* [!source] *)
  | TLArray l => filter JsString.truthy (map trim l)
  | TLString s => filter JsString.truthy (map trim (splitLinesOrPipe s))
  end.

(** ** Font metrics, the mask image and the DOM *)

Record Metrics := {
  fontSize : Q;
  lineHeight : Q;
  fontFamily : jsstring;
  fontWeight : jsstring;
  width : Q;
  height : option Q            (* [None]: the property is not set *)
}.

Record MaskImage := {
  dataUrl : jsstring;
  maskWidth : Q;
  maskHeight : Q
}.

(** One [<tspan>] of the image before it is printed: where it is placed and
    what it holds. *)
Record Tspan := {
  tspanX : Q;
  tspanY : Q;
  tspanBody : jsstring
}.

(** The mask properties that [apply] assigns on [content.style]. *)
Record Style := {
  mask : jsstring;
  webkitMask : jsstring;
  maskSize : jsstring;
  webkitMaskSize : jsstring;
  maskRepeat : jsstring;
  webkitMaskRepeat : jsstring;
  maskPosition : jsstring;
  webkitMaskPosition : jsstring
}.

(** An element as [apply] sees it.  [nodeKey] stands for everything else the
    browser knows about the node (tag, classes, place in the tree). *)
Record Element := {
  nodeKey : N;
  brightText : option jsstring;  (* [dataset.brightText] *)
  textContent : jsstring;
  style : Style
}.

(** [computed.lineHeight] is the keyword [normal] or a length in pixels. *)
Inductive LineHeightValue :=
| LhNormal
| LhPx (px : Q).

Record ComputedStyle := {
  csFontSize : option Q;         (* [parseFloat(computed.fontSize)], [None] for NaN *)
  csLineHeight : LineHeightValue;
  csFontFamily : jsstring;
  csFontWeight : jsstring
}.

Record Box := {
  rectWidth : Q;
  rectHeight : Q;
  offsetWidth : Q;
  offsetHeight : Q
}.

(** The document maps ids to elements, in document order: [getElementById]
    answers with the first element that carries the id.  The store holds
    the elements that [apply] looks up, with what it reads and writes of
    them; their descendants are not part of it. *)
Definition Document := list (jsstring * Element).

Record World := {
  document : Document;
  console : list jsstring;       (* what [console.warn] printed, oldest first *)
  measureCanvas : bool           (* is [measureContext.canvas] created yet *)
}.

Inductive JsError := TypeError | URIError.

Inductive Completion (A : Type) :=
| Normal (a : A)
| Throw (e : JsError).
Arguments Normal {A} a.
Arguments Throw {A} e.

Record Options := {
  containerId : option jsstring;
  contentId : option jsstring;
  textLines : TextLines
}.

(** The argument of [apply(options = {})]. *)
Inductive Argument :=
| ArgUndefined
| ArgNull
| ArgObject (o : Options).

Fixpoint strEqb (a b : jsstring) : bool :=
  match a, b with
  | [], [] => true
  | c :: a', d :: b' => (c =? d)%N && strEqb a' b'
  | _, _ => false
  end.

Fixpoint getElementById (id : jsstring) (doc : Document) : option Element :=
  match doc with
  | [] => None
  | (i, e) :: doc' => if strEqb i id then Some e else getElementById id doc'
  end.

(** Writing through the reference that [getElementById id] returned. *)
Fixpoint storeElement (id : jsstring) (e' : Element) (doc : Document) : Document :=
  match doc with
  | [] => []
  | (i, e) :: doc' =>
      if strEqb i id then (i, e') :: doc' else (i, e) :: storeElement id e' doc'
  end.

Definition warn (msg : jsstring) (w : World) : World :=
  {| document := document w;
     console := console w ++ [msg];
     measureCanvas := measureCanvas w |}.

(** [lines.map((line, idx) => f line idx)] *)
Fixpoint mapIndexFrom {A B : Type} (f : A -> nat -> B) (idx : nat) (l : list A)
  : list B :=
  match l with
  | [] => []
  | x :: l' => f x idx :: mapIndexFrom f (S idx) l'
  end.

Definition mapIndex {A B : Type} (f : A -> nat -> B) (l : list A) : list B :=
  mapIndexFrom f 0 l.

(** ** The program, over what the browser supplies *)

Section Program.

Open Scope Q_scope.

(** [String(x)] of a number, as template literals print it. *)
Variable numberToString : Q -> jsstring.
(** What [encodeURIComponent] returns for a well-formed string. *)
Variable percentEncode : jsstring -> jsstring.
(** [ctx.measureText(text).width] once [ctx.font] is set to the font. *)
Variable measureText : jsstring -> jsstring -> Q.
Variable getComputedStyle : Element -> ComputedStyle.
(** [getBoundingClientRect] together with the offset box. *)
Variable getBoundingClientRect : Element -> Box.

(** [encodeURIComponent] throws a URIError on an unpaired surrogate. *)
Definition encodeURIComponent (s : jsstring) : Completion jsstring :=
  if wellFormed s then Normal (percentEncode s) else Throw URIError.

(** *** buildMask *)

Definition maskWidthOf (metrics : Metrics) : Q :=
  JsNum.max (width metrics) 1.

Definition lineHeightOf (metrics : Metrics) : Q :=
  JsNum.orElse (lineHeight metrics) (fontSize metrics * 1.4).

Definition maskHeightOf (lines : list jsstring) (metrics : Metrics) : Q :=
  let lineHeight := lineHeightOf metrics in
  JsNum.orElseOpt (height metrics)
    (JsNum.max (lineHeight * JsNum.ofNat (length lines)) lineHeight).

Definition startYOf (lines : list jsstring) (metrics : Metrics) : Q :=
  let lineHeight := lineHeightOf metrics in
  let height := maskHeightOf lines metrics in
  JsNum.max ((height - lineHeight * (JsNum.ofNat (length lines) - 1)) / 2)
            (lineHeight * 0.6).

(** The placement that the callback of [lines.map] computes. *)
Definition tspanLayout (lines : list jsstring) (metrics : Metrics)
  : list Tspan :=
  let width := maskWidthOf metrics in
  let lineHeight := lineHeightOf metrics in
  let startY := startYOf lines metrics in
  mapIndex (fun line idx =>
              let y := startY + JsNum.ofNat idx * lineHeight in
              {| tspanX := width / 2; tspanY := y;
                 tspanBody := escapeXml line |})
           lines.

(** ... and the markup it returns for it. *)
Definition tspanMarkup (t : Tspan) : jsstring :=
  js "<tspan x=" ++ dquote ++ numberToString (tspanX t) ++ dquote
     ++ js " y=" ++ dquote ++ numberToString (tspanY t) ++ dquote ++ js ">"
     ++ tspanBody t ++ js "</tspan>".

Definition indent (n : nat) : jsstring := repeat 32%N n.

Definition svgMarkup (lines : list jsstring) (metrics : Metrics) : jsstring :=
  let width := maskWidthOf metrics in
  let height := maskHeightOf lines metrics in
  let tspans := concat (map tspanMarkup (tspanLayout lines metrics)) in
  newline ++ indent 12
    ++ js "<svg xmlns=" ++ dquote ++ js "http://www.w3.org/2000/svg" ++ dquote
    ++ js " viewBox=" ++ dquote ++ js "0 0 " ++ numberToString width
    ++ js " " ++ numberToString height ++ dquote ++ js ">"
    ++ newline ++ indent 16 ++ js "<style>"
    ++ newline ++ indent 20 ++ js "text {"
    ++ newline ++ indent 24 ++ js "font-family: " ++ fontFamily metrics ++ js ";"
    ++ newline ++ indent 24 ++ js "font-size: "
    ++ numberToString (fontSize metrics) ++ js "px;"
    ++ newline ++ indent 24 ++ js "font-weight: " ++ fontWeight metrics ++ js ";"
    ++ newline ++ indent 24 ++ js "fill: white;"
    ++ newline ++ indent 20 ++ js "}"
    ++ newline ++ indent 16 ++ js "</style>"
    ++ newline ++ indent 16 ++ js "<text text-anchor=" ++ dquote ++ js "middle"
    ++ dquote ++ js ">" ++ tspans ++ js "</text>"
    ++ newline ++ indent 12 ++ js "</svg>"
    ++ newline ++ indent 8.

Definition buildMask (lines : list jsstring) (metrics : Metrics)
  : Completion MaskImage :=
  match encodeURIComponent (svgMarkup lines metrics) with
  | Normal encoded =>
      Normal {| dataUrl := js "data:image/svg+xml;charset=utf-8," ++ encoded;
                maskWidth := maskWidthOf metrics;
                maskHeight := maskHeightOf lines metrics |}
  | Throw e => Throw e
  end.

(** *** getMetrics *)

Definition getMetrics (element : Element) : Metrics :=
  let computed := getComputedStyle element in
  let fontSize := JsNum.orElseOpt (csFontSize computed) 16 in
  let lineHeight :=
    match csLineHeight computed with
    | LhNormal => fontSize * 1.4
    | LhPx px => px
    end in
  let rect := getBoundingClientRect element in
  {| fontSize := fontSize;
     lineHeight := lineHeight;
     fontFamily := JsString.orElse (csFontFamily computed)
                                   (js "'Arial Black', sans-serif");
     fontWeight := JsString.orElse (csFontWeight computed) (js "600");
     width := JsNum.orElse (rectWidth rect)
                (JsNum.orElse (offsetWidth rect) 800);
     height := Some (JsNum.orElse (rectHeight rect)
                       (JsNum.orElse (offsetHeight rect) (lineHeight * 2))) |}.

(** *** wrapLines *)

Definition maxWidthOf (metrics : Metrics) : Q :=
  JsNum.max (width metrics - 4) 1.

(** The font that [wrapLines] hands to [measureContext]. *)
Definition fontOf (metrics : Metrics) : jsstring :=
  fontWeight metrics ++ js " " ++ numberToString (fontSize metrics)
    ++ js "px " ++ fontFamily metrics.

Definition tokensOf (rawLine : jsstring) : list jsstring :=
  if hasSpace rawLine then splitKeepSpaces rawLine else arrayFrom rawLine.

(** [ctx.measureText(tentative).width > maxWidth] *)
Definition tooWide (metrics : Metrics) (tentative : jsstring) : bool :=
  negb (Qle_bool (measureText (fontOf metrics) tentative) (maxWidthOf metrics)).

(** [current.trim().length > 0] *)
Definition nonBlank (current : jsstring) : bool :=
  (0 <? length (trim current))%nat.

(** One round of [tokens.forEach] on the pair of [result] and [current]. *)
Definition wrapToken (metrics : Metrics)
           (st : list jsstring * jsstring) (token : jsstring)
  : list jsstring * jsstring :=
  let (result, current) := st in
  if negb (JsString.truthy token) then st
  else
    let tentative := current ++ token in
    if tooWide metrics tentative && nonBlank current
    then (result ++ [current], trimStart token)
    else (result, tentative).

(** One round of [rawLines.forEach] on [result]. *)
Definition wrapRawLine (metrics : Metrics)
           (result : list jsstring) (rawLine : jsstring) : list jsstring :=
  match rawLine with
  | [] => result ++ [[]]
  | _ :: _ =>
      let (result', current) :=
        fold_left (wrapToken metrics) (tokensOf rawLine) (result, []) in
      result' ++ [current]
  end.

(** The lines that one segment contributes: a round of [rawLines.forEach]
    seen from an empty [result]. *)
Definition wrapSegment (metrics : Metrics) (rawLine : jsstring)
  : list jsstring :=
  wrapRawLine metrics [] rawLine.

Definition wrapLines (text : jsstring) (metrics : Metrics) : list jsstring :=
  let rawLines := splitNewlines text in
  let result := fold_left (wrapRawLine metrics) rawLines [] in
  filter (fun line => (0 <? length line)%nat || includesEmpty rawLines) result.

(** [measureContext] leaves its canvas behind for the next call. *)
Definition measureContext (w : World) : World :=
  {| document := document w;
     console := console w;
     measureCanvas := true |}.

(** *** apply *)

Definition orDefault (id : option jsstring) (default : jsstring) : jsstring :=
  match id with
  | Some s => JsString.orElse s default
  | None => default
  end.

Definition withText (e : Element) (text : jsstring) : Element :=
  {| nodeKey := nodeKey e; brightText := brightText e;
     textContent := text; style := style e |}.

Definition withStyle (e : Element) (s : Style) : Element :=
  {| nodeKey := nodeKey e; brightText := brightText e;
     textContent := textContent e; style := s |}.

Definition maskStyle (image : MaskImage) : Style :=
  let url := js "url(" ++ dquote ++ dataUrl image ++ dquote ++ js ")" in
  let size := numberToString (maskWidth image) ++ js "px "
                ++ numberToString (maskHeight image) ++ js "px" in
  {| mask := url; webkitMask := url;
     maskSize := size; webkitMaskSize := size;
     maskRepeat := js "no-repeat"; webkitMaskRepeat := js "no-repeat";
     maskPosition := js "center"; webkitMaskPosition := js "center" |}.

(** The metrics that [apply] passes to [buildMask]:
    [{...metrics, height: metrics.height || lineHeight * n + lineHeight}]. *)
Definition maskMetrics (metrics : Metrics) (lines : list jsstring) : Metrics :=
  {| fontSize := fontSize metrics;
     lineHeight := lineHeight metrics;
     fontFamily := fontFamily metrics;
     fontWeight := fontWeight metrics;
     width := width metrics;
     height := Some (JsNum.orElseOpt (height metrics)
                       (lineHeight metrics * JsNum.ofNat (length lines)
                        + lineHeight metrics)) |}.

Definition setDocument (doc : Document) (w : World) : World :=
  {| document := doc; console := console w; measureCanvas := measureCanvas w |}.

(** [content.textContent = text], [content] being the element that
    [getElementById id] returned; the element as it is afterwards comes
    back with the world. *)
Definition writeText (id : jsstring) (content : Element) (text : jsstring)
           (w : World) : Element * World :=
  let shown := withText content text in
  (shown, setDocument (storeElement id shown (document w)) w).

(** From [const metrics = getMetrics(content)] to the end of [apply];
    [content] already shows the final lines.  A throw of [buildMask] leaves
    the style alone. *)
Definition paintMask (id : jsstring) (content : Element)
           (lines : list jsstring) (w : World) : Completion unit * World :=
  let metrics := getMetrics content in
  match buildMask lines (maskMetrics metrics lines) with
  | Normal image =>
      (Normal tt,
       setDocument (storeElement id (withStyle content (maskStyle image))
                                 (document w)) w)
  | Throw e => (Throw e, w)
  end.

(** The source text of the fallback path, before it is trimmed. *)
Definition lookupText (container content : Element) : jsstring :=
  match brightText content with
  | Some (c :: t) => c :: t
  | _ =>
      match brightText container with
      | Some (c :: t) => c :: t
      | _ => JsString.orElse (textContent content) []
      end
  end.

Definition applyOptions (options : Options) (w : World)
  : Completion unit * World :=
  let containerId := orDefault (containerId options) (js "bright-container") in
  let contentId := orDefault (contentId options) (js "bright-content") in
  match getElementById containerId (document w),
        getElementById contentId (document w) with
  | Some container, Some content =>
      let manualLines := normalizeLines (textLines options) in
      match manualLines with
      | [] =>
          let sourceText := trim (lookupText container content) in
          match sourceText with
          | [] => (Normal tt, warn (js "[BrightMode] no text provided") w)
          | _ :: _ =>
              let metrics := getMetrics content in
              let lines := wrapLines sourceText metrics in
              let (shown, w') :=
                writeText contentId content (join newline lines)
                          (measureContext w) in
              paintMask contentId shown lines w'
          end
      | _ :: _ =>
          let (shown, w') :=
            writeText contentId content (join newline manualLines) w in
          paintMask contentId shown manualLines w'
      end
  | _, _ =>
      (Normal tt, warn (js "[BrightMode] container or content not found") w)
  end.

(** [apply(options = {})]: the default stands in for [undefined] only, so
    [options.containerId] on [null] is a TypeError. *)
Definition apply (options : Argument) (w : World) : Completion unit * World :=
  match options with
  | ArgUndefined =>
      applyOptions {| containerId := None; contentId := None;
                      textLines := TLUndefined |} w
  | ArgNull => (Throw TypeError, w)
  | ArgObject o => applyOptions o w
  end.

(** *** Notions used in the statements *)

(** A measurer under which a string is never narrower than a part it
    starts or ends with. *)
Definition monotoneMeasure (font : jsstring) : Prop :=
  forall s t : jsstring,
    measureText font s <= measureText font (s ++ t)
    /\ measureText font t <= measureText font (s ++ t).

(** The options that [apply] works with. *)
Definition optionsOf (arg : Argument) : Options :=
  match arg with
  | ArgObject o => o
  | _ => {| containerId := None; contentId := None;
            textLines := TLUndefined |}
  end.

Definition containerOf (o : Options) (w : World) : option Element :=
  getElementById (orDefault (containerId o) (js "bright-container"))
                 (document w).

Definition contentOf (o : Options) (w : World) : option Element :=
  getElementById (orDefault (contentId o) (js "bright-content"))
                 (document w).

End Program.

(** The characters of a string that are not whitespace, in order. *)
Definition visible (s : jsstring) : jsstring :=
  filter (fun c => negb (isSpace c)) s.

(** The entity of a markup-significant character, any other character being
    left alone: what the specification asks of the escaping. *)
Definition escapeChar (c : N) : jsstring :=
  if (c =? 38)%N then js "&amp;"
  else if (c =? 60)%N then js "&lt;"
  else if (c =? 62)%N then js "&gt;"
  else if (c =? 34)%N then js "&quot;"
  else if (c =? 39)%N then js "&#39;"
  else [c].

Definition entities : list jsstring :=
  [js "&amp;"; js "&lt;"; js "&gt;"; js "&quot;"; js "&#39;"].

(** [<], [>], the double and the single quote. *)
Definition isRawMarkup (c : N) : bool :=
  ((c =? 60) || (c =? 62) || (c =? 34) || (c =? 39))%N.

Fixpoint startsWith (p s : jsstring) : bool :=
  match p, s with
  | [], _ => true
  | c :: p', d :: s' => (c =? d)%N && startsWith p' s'
  | _ :: _, [] => false
  end.

(** Every ampersand of [s] opens one of the five entities. *)
Fixpoint ampersandsOpenEntities (s : jsstring) : bool :=
  match s with
  | [] => true
  | c :: s' =>
      (if (c =? 38)%N then existsb (fun e => startsWith e s) entities else true)
      && ampersandsOpenEntities s'
  end.

(** A source has no text when it is absent or blank. *)
Definition blankSource (source : option jsstring) : Prop :=
  match source with
  | Some s => trim s = []
  | None => True
  end.

(** ** encrypt.js *)

(** [atob], the forgiving-base64 decoding of the HTML standard: ASCII
    whitespace is dropped, one or two closing [=] are dropped from data
    whose length is a multiple of four, a length that leaves a remainder of
    one and any character outside the alphabet are refused, and every four
    characters give three bytes.  [None] stands for the
    InvalidCharacterError that [atob] throws. *)
Module Base64.

Definition isAsciiSpace (c : N) : bool :=
  ((c =? 9) || (c =? 10) || (c =? 12) || (c =? 13) || (c =? 32))%N.

Definition sextet (c : N) : option N :=
  if ((65 <=? c) && (c <=? 90))%N then Some (c - 65)%N
  else if ((97 <=? c) && (c <=? 122))%N then Some (c - 71)%N
  else if ((48 <=? c) && (c <=? 57))%N then Some (c + 4)%N
  else if (c =? 43)%N then Some 62%N
  else if (c =? 47)%N then Some 63%N
  else None.

Fixpoint sextets (data : jsstring) : option (list N) :=
  match data with
  | [] => Some []
  | c :: data' =>
      match sextet c, sextets data' with
      | Some v, Some vs => Some (v :: vs)
      | _, _ => None
      end
  end.

Fixpoint bytes (vs : list N) : jsstring :=
  (match vs with
   | a :: b :: c :: d :: rest =>
       (a * 4 + b / 16) :: ((b mod 16) * 16 + c / 4) :: ((c mod 4) * 64 + d)
         :: bytes rest
   | [a; b; c] => [a * 4 + b / 16; (b mod 16) * 16 + c / 4]
   | [a; b] => [a * 4 + b / 16]
   | _ => []
   end)%N.

Definition stripPadding (data : jsstring) : jsstring :=
  match rev data with
  | 61%N :: 61%N :: r => rev r
  | 61%N :: r => rev r
  | _ => data
  end.

Definition atob (s : jsstring) : option jsstring :=
  let data := filter (fun c => negb (isAsciiSpace c)) s in
  let data := if (length data mod 4 =? 0)%nat then stripPadding data else data in
  if (length data mod 4 =? 1)%nat then None
  else option_map bytes (sextets data).

End Base64.

(** The table of [encrypt.js], as [Object.entries] lists it. *)
Definition encodedTextMap : list (jsstring * jsstring) :=
  [(js "text-1",
    js "Q29uZmlybSBQdXJjaGFzZQ==");
   (js "text-11",
    js "MS4gT3BlcmF0aW9uYWwgQ29udHJvbHM=");
   (js "text-12",
    js "Mi4gUHJlLVN0YXJ0IFNhZmV0eSBDaGVja3MgKEFsbCBib3hlcyBtdXN0IGJlIGNoZWNrZWQgYmVmb3JlIHByb2NlZWRpbmcp");
   (js "text-13",
    js "TG9ja291dC9UYWdvdXQgZGV2aWNlcyByZW1vdmVk");
   (js "text-14",
    js "VmVyaWZ5IGFsbCBtYWludGVuYW5jZSBsb2NrcyBhcmUgY2xlYXJlZCBhbmQgdGhlIGxvZ2Jvb2sgaXMgc2lnbmVkIG9mZi4=");
   (js "text-15",
    js "R3VhcmRpbmcgYW5kIGJhcnJpZXJzIGluIHBsYWNl");
   (js "text-16",
    js "SW5zcGVjdCBjYWdlIGRvb3JzLCBsYXNlciBjdXJ0YWlucywgYW5kIGludGVybG9ja3MgZm9yIHRhbXBlcmluZyBvciBkYW1hZ2Uu");
   (js "text-17",
    js "RW1lcmdlbmN5IHN0b3AgYnV0dG9ucyB0ZXN0ZWQ=");
   (js "text-18",
    js "RW5zdXJlIGFsbCBlLXN0b3AgYnV0dG9ucyBsYXRjaCBhbmQgcmVzZXQgY29ycmVjdGx5IGFsb25nIHRoZSBjb252ZXlvci4=");
   (js "text-19",
    js "Q29tcHJlc3NlZCBhaXIgbGluZXMgaW5zcGVjdGVk");
   (js "text-20",
    js "Q2hlY2sgZm9yIGxlYWtzLCB0cmlwIGhhemFyZHMsIGFuZCB0aGF0IHJlZ3VsYXRvcnMgYXJlIHNldCB0byBhcHByb3ZlZCBQU0ku")].

(** The document of [encrypt.js] is a tree: assigning [textContent] to an
    element removes everything below it, elements included. *)
Module Dom.

(** A text node, or an element with its id attribute ([[]] when it has
    none) and its children. *)
Inductive Node :=
| Text (data : jsstring)
| Element (id : jsstring) (children : list Node).

(** The first answer that [f] gives along a list. *)
Definition findFirst {A B : Type} (f : A -> option B) : list A -> option B :=
  fix go (l : list A) : option B :=
    match l with
    | [] => None
    | x :: l' => match f x with Some y => Some y | None => go l' end
    end.

(** The list with the first item that [f] changes replaced by what [f]
    makes of it; [None] when [f] changes no item. *)
Definition updateFirst {A : Type} (f : A -> option A)
  : list A -> option (list A) :=
  fix go (l : list A) : option (list A) :=
    match l with
    | [] => None
    | x :: l' =>
        match f x with
        | Some x' => Some (x' :: l')
        | None => option_map (cons x) (go l')
        end
    end.

(** An element has the ID [id] when its id attribute is not empty and
    equals [id]. *)
Definition hasId (i id : jsstring) : bool := JsString.truthy i && strEqb i id.

(** The first element with the ID, in tree order, in the subtree of [n]. *)
Fixpoint findIn (id : jsstring) (n : Node) : option Node :=
  match n with
  | Text _ => None
  | Element i children =>
      if hasId i id then Some n else findFirst (findIn id) children
  end.

(** [document.getElementById(id)]: the first element with the ID, in tree
    order; none for the empty string. *)
Definition getElementById (id : jsstring) (body : list Node) : option Node :=
  findFirst (findIn id) body.

(** Reading [textContent]: the text of the descendants, in tree order. *)
Fixpoint textContent (n : Node) : jsstring :=
  match n with
  | Text data => data
  | Element _ children => flat_map textContent children
  end.

(** What an element holds after [textContent = s]: one text node, or nothing
    for the empty string. *)
Definition textChildren (s : jsstring) : list Node :=
  match s with
  | [] => []
  | _ :: _ => [Text s]
  end.

(** [el.textContent = s] on the first element with the ID in the subtree of
    [n]; [None] when there is none. *)
Fixpoint setTextIn (id s : jsstring) (n : Node) : option Node :=
  match n with
  | Text _ => None
  | Element i children =>
      if hasId i id then Some (Element i (textChildren s))
      else option_map (Element i) (updateFirst (setTextIn id s) children)
  end.

(** [el.textContent = s] for the element [el] that [getElementById id]
    returned. *)
Definition setTextContent (id s : jsstring) (body : list Node) : list Node :=
  match updateFirst (setTextIn id s) body with
  | Some body' => body'
  | None => body
  end.

(** How many elements of the subtree have the ID. *)
Fixpoint countId (id : jsstring) (n : Node) : nat :=
  match n with
  | Text _ => 0
  | Element i children =>
      (if hasId i id then 1 else 0) + list_sum (map (countId id) children)
  end.

(** A property of every element of a subtree, given its id attribute and
    its children. *)
Inductive EveryElement (P : jsstring -> list Node -> Prop) : Node -> Prop :=
| EveryText (data : jsstring) : EveryElement P (Text data)
| EveryElem (i : jsstring) (children : list Node) :
    P i children ->
    Forall (EveryElement P) children ->
    EveryElement P (Element i children).

(** Every element with the ID holds the text [s] and nothing else. *)
Definition settled (id s : jsstring) (n : Node) : Prop :=
  EveryElement (fun i children => hasId i id = true ->
                                  children = textChildren s) n.

(** How many elements of a list of trees have the ID. *)
Definition countIn (id : jsstring) (nodes : list Node) : nat :=
  list_sum (map (countId id) nodes).

(** No element with one of the IDs [keys] lies inside another. *)
Definition apart (keys : list jsstring) (n : Node) : Prop :=
  EveryElement (fun i children =>
                  (exists k, In k keys /\ hasId i k = true) ->
                  forall k', In k' keys -> countIn k' children = 0%nat)
               n.

(** What assignments of [textContent] to elements with one of the IDs
    [keys] can make of a tree: a text node stays; an element keeps its id
    attribute, and either its children are rewritten in place or, when its
    ID is one of the keys, they have given way to a text. *)
Inductive Rewritten (keys : list jsstring) : Node -> Node -> Prop :=
| RewText (data : jsstring) : Rewritten keys (Text data) (Text data)
| RewInside (i : jsstring) (children children' : list Node) :
    Forall2 (Rewritten keys) children children' ->
    Rewritten keys (Element i children) (Element i children')
| RewSet (i : jsstring) (children : list Node) (s k : jsstring) :
    In k keys -> hasId i k = true ->
    Rewritten keys (Element i children) (Element i (textChildren s)).

End Dom.

(** The page of [encrypt.js]: the tree, and what [console.error] printed. *)
Record Page := {
  body : list Dom.Node;
  errorLog : list jsstring
}.

Section Encrypt.

Variable atob : jsstring -> option jsstring.

(** [decodeText]: what [atob] throws is caught, logged and turned into the
    empty string. *)
Definition decodeText (encoded : jsstring) (p : Page) : jsstring * Page :=
  match atob encoded with
  | Some decoded => (decoded, p)
  | None =>
      ([], {| body := body p;
              errorLog := errorLog p ++ [js "Failed to decode text:"] |})
  end.

(** One round of [Object.entries(map).forEach]. *)
Definition applyEntry (p : Page) (entry : jsstring * jsstring) : Page :=
  let (id, encodedText) := entry in
  match Dom.getElementById id (body p) with
  | Some el =>
      let (decodedText, p') := decodeText encodedText p in
      {| body := Dom.setTextContent id decodedText (body p');
         errorLog := errorLog p' |}
  | None => p
  end.

(** [applyEncryptedText(map = encodedTextMap)]; [None] is the call without
    an argument.  The map is an object with strings as values, given by its
    entries in the order of [Object.entries]; an object has each key
    once. *)
Definition applyEncryptedText (map : option (list (jsstring * jsstring)))
           (p : Page) : Page :=
  let entries := match map with Some m => m | None => encodedTextMap end in
  fold_left applyEntry entries p.

(** The text that an entry leaves in its element. *)
Definition decodedOf (encoded : jsstring) : jsstring :=
  match atob encoded with Some t => t | None => [] end.

(** An entry that logs an error on the page: its element is there and its
    value does not decode. *)
Definition failsOn (nodes : list Dom.Node) (entry : jsstring * jsstring)
  : bool :=
  match Dom.getElementById (fst entry) nodes, atob (snd entry) with
  | Some _, None => true
  | _, _ => false
  end.

Definition undecodable (entry : jsstring * jsstring) : bool :=
  match atob (snd entry) with Some _ => false | None => true end.

End Encrypt.

(** ** The listeners for DOMContentLoaded *)

(** The listener of [bright.js]: [apply()] if both default elements are
    there, nothing otherwise. *)
Definition brightOnLoad
           (numberToString : Q -> jsstring)
           (percentEncode : jsstring -> jsstring)
           (measureText : jsstring -> jsstring -> Q)
           (getComputedStyle : Element -> ComputedStyle)
           (getBoundingClientRect : Element -> Box)
           (w : World) : Completion unit * World :=
  match getElementById (js "bright-container") (document w),
        getElementById (js "bright-content") (document w) with
  | Some _, Some _ =>
      apply numberToString percentEncode measureText
            getComputedStyle getBoundingClientRect ArgUndefined w
  | _, _ => (Normal tt, w)
  end.

(** The listener of [encrypt.js]. *)
Definition encryptOnLoad (atob : jsstring -> option jsstring) (p : Page)
  : Page :=
  applyEncryptedText atob None p.

(** ** More notions used in the statements *)

(** A line made of one token, whole or left-trimmed, after whitespace only. *)
Definition loneToken (tokens : list jsstring) (line : jsstring) : Prop :=
  exists lead tok : jsstring,
    line = lead ++ tok
    /\ forallb isSpace lead = true
    /\ (tok = []
        \/ exists t, In t tokens /\ (tok = t \/ tok = trimStart t)).

(** What a run can have done to the world: nothing but a warning, or the
    text of the content element and perhaps its style. *)
Definition touched (id : jsstring) (w w' : World) : Prop :=
  (exists msg, w' = warn msg w)
  \/ exists (content : Element) (text : jsstring),
      getElementById id (document w) = Some content
      /\ console w' = console w
      /\ (measureCanvas w' = measureCanvas w \/ measureCanvas w' = true)
      /\ (document w'
          = storeElement id (withText content text) (document w)
          \/ exists sty : Style,
              document w'
              = storeElement id (withStyle (withText content text) sty)
                  (storeElement id (withText content text) (document w))).

(** One run of the text element, as the markup spells it: the two
    attribute values and the body. *)
Record Run := {
  runX : jsstring;
  runY : jsstring;
  runBody : jsstring
}.

(** The markup of a run, after the template of [buildMask]. *)
Definition runMarkup (r : Run) : jsstring :=
  js "<tspan x=" ++ dquote ++ runX r ++ dquote
     ++ js " y=" ++ dquote ++ runY r ++ dquote ++ js ">"
     ++ runBody r ++ js "</tspan>".

(** How the template spells a placed tspan. *)
Definition runOf (numberToString : Q -> jsstring) (t : Tspan) : Run :=
  {| runX := numberToString (tspanX t);
     runY := numberToString (tspanY t);
     runBody := tspanBody t |}.

(** The markup around the runs: everything up to the text element, its
    opening tag, its closing tag, and the rest. *)
Definition svgHead (numberToString : Q -> jsstring) (w h : Q)
           (metrics : Metrics) : jsstring :=
  newline ++ indent 12
    ++ js "<svg xmlns=" ++ dquote ++ js "http://www.w3.org/2000/svg" ++ dquote
    ++ js " viewBox=" ++ dquote ++ js "0 0 " ++ numberToString w
    ++ js " " ++ numberToString h ++ dquote ++ js ">"
    ++ newline ++ indent 16 ++ js "<style>"
    ++ newline ++ indent 20 ++ js "text {"
    ++ newline ++ indent 24 ++ js "font-family: " ++ fontFamily metrics ++ js ";"
    ++ newline ++ indent 24 ++ js "font-size: "
    ++ numberToString (fontSize metrics) ++ js "px;"
    ++ newline ++ indent 24 ++ js "font-weight: " ++ fontWeight metrics ++ js ";"
    ++ newline ++ indent 24 ++ js "fill: white;"
    ++ newline ++ indent 20 ++ js "}"
    ++ newline ++ indent 16 ++ js "</style>"
    ++ newline ++ indent 16.

Definition textOpen : jsstring :=
  js "<text text-anchor=" ++ dquote ++ js "middle" ++ dquote ++ js ">".

Definition textEnd : jsstring := js "</text>".

Definition svgEnd : jsstring :=
  newline ++ indent 12 ++ js "</svg>" ++ newline ++ indent 8.

(** The scheme and media type in front of the encoded markup. *)
Definition dataPrefix : jsstring := js "data:image/svg+xml;charset=utf-8,".

(** Reading markup: a literal, ... *)
Fixpoint expect (literal s : jsstring) : option jsstring :=
  match literal, s with
  | [], _ => Some s
  | c :: literal', d :: s' => if (c =? d)%N then expect literal' s' else None
  | _ :: _, [] => None
  end.

(** ... the characters up to a delimiter, which is consumed, ... *)
Fixpoint readUntil (stop : N) (s : jsstring) : option (jsstring * jsstring) :=
  match s with
  | [] => None
  | c :: s' =>
      if (c =? stop)%N then Some ([], s')
      else match readUntil stop s' with
           | Some (read, rest) => Some (c :: read, rest)
           | None => None
           end
  end.

(** ... one run: the opening tag with its two quoted attributes, the body up
    to the next [<], and the closing tag, ... *)
Definition readRun (s : jsstring) : option (Run * jsstring) :=
  match expect (js "<tspan x=" ++ dquote) s with
  | None => None
  | Some s1 =>
  match readUntil 34 s1 with
  | None => None
  | Some (x, s2) =>
  match expect (js " y=" ++ dquote) s2 with
  | None => None
  | Some s3 =>
  match readUntil 34 s3 with
  | None => None
  | Some (y, s4) =>
  match expect (js ">") s4 with
  | None => None
  | Some s5 =>
  match readUntil 60 s5 with
  | None => None
  | Some (content, s6) =>
  match expect (js "/tspan>") s6 with
  | None => None
  | Some s7 => Some ({| runX := x; runY := y; runBody := content |}, s7)
  end end end end end end end.

(** ... and run after run up to the closing tag of the text element; what
    follows that tag is returned with the runs. *)
Fixpoint readRuns (fuel : nat) (s : jsstring)
  : option (list Run * jsstring) :=
  match fuel with
  | O => None
  | S fuel' =>
      match expect textEnd s with
      | Some rest => Some ([], rest)
      | None =>
          match readRun s with
          | Some (r, s') =>
              match readRuns fuel' s' with
              | Some (runs, rest) => Some (r :: runs, rest)
              | None => None
              end
          | None => None
          end
      end
  end.

(** A token is a run of whitespace or holds none. *)
Definition pureToken (t : jsstring) : Prop :=
  forallb isSpace t = true \/ hasSpace t = false.

(** What follows a run of whitespace: a word, empty only at the very end. *)
Definition nextIsWord (tokens : list jsstring) : Prop :=
  match tokens with
  | [] => True
  | t :: ts => hasSpace t = false /\ (t = [] -> ts = [])
  end.

(** The make of a token list: pure tokens, a word after every run. *)
Fixpoint tokenShape (tokens : list jsstring) : Prop :=
  match tokens with
  | [] => True
  | t :: ts =>
      pureToken t
      /\ (t <> [] -> forallb isSpace t = true -> nextIsWord ts)
      /\ tokenShape ts
  end.

(** A string that holds none of the given characters. *)
Definition freeOf (seps : list N) (s : jsstring) : Prop :=
  forall c, In c seps -> ~ In c s.

(** A line either fits or holds one token. *)
Definition fitsOrLone
           (numberToString : Q -> jsstring)
           (measureText : jsstring -> jsstring -> Q)
           (metrics : Metrics) (tokens : list jsstring) (line : jsstring)
  : Prop :=
  tooWide numberToString measureText metrics line = false
  \/ loneToken tokens line.

(** One of the five characters that [escapeXml] replaces. *)
Definition isMarkupSignificant (c : N) : bool :=
  ((c =? 38) || (c =? 60) || (c =? 62) || (c =? 34) || (c =? 39))%N.

(** ** A sample browser

    A fixed-pitch measurer (ten pixels a code unit, whatever the font), bare
    computed styles and a layout box that is eight hundred by one hundred
    pixels.  It serves the concrete examples further down. *)

Module SampleHost.

Open Scope Q_scope.

Definition measureText (font text : jsstring) : Q :=
  10 * JsNum.ofNat (length text).

(** Prints the integer part; enough for the examples. *)
Definition numberToString (x : Q) : jsstring :=
  js (NilZero.string_of_int (Z.to_int (Qfloor x))).

Definition percentEncode (s : jsstring) : jsstring := s.

Definition getComputedStyle (e : Element) : ComputedStyle :=
  {| csFontSize := Some 20; csLineHeight := LhNormal;
     csFontFamily := js "serif"; csFontWeight := js "400" |}.

Definition getBoundingClientRect (e : Element) : Box :=
  {| rectWidth := 800; rectHeight := 100;
     offsetWidth := 800; offsetHeight := 100 |}.

Definition metricsOfWidth (w : Q) : Metrics :=
  {| fontSize := 20; lineHeight := 28; fontFamily := js "serif";
     fontWeight := js "400"; width := w; height := None |}.

Definition wrap (text : jsstring) (w : Q) : list jsstring :=
  wrapLines numberToString measureText text (metricsOfWidth w).

Definition noStyle : Style :=
  {| mask := []; webkitMask := []; maskSize := []; webkitMaskSize := [];
     maskRepeat := []; webkitMaskRepeat := [];
     maskPosition := []; webkitMaskPosition := [] |}.

Definition element (key : N) (data : option jsstring) (text : jsstring)
  : Element :=
  {| nodeKey := key; brightText := data; textContent := text;
     style := noStyle |}.

(** A page with the two default elements, the content holding [text]. *)
Definition page (text : jsstring) : World :=
  {| document := [(js "bright-container", element 1 None []);
                  (js "bright-content", element 2 None text)];
     console := [];
     measureCanvas := false |}.

Definition run (options : Argument) (w : World) : Completion unit * World :=
  apply numberToString percentEncode measureText
        getComputedStyle getBoundingClientRect options w.

End SampleHost.

(** * Properties *)

(** ** Strings *)

Section StringFacts.

Lemma trimStart_fixed (c : N) (s : jsstring) :
  isSpace c = false -> trimStart (c :: s) = c :: s.
Proof. intros H; simpl; now rewrite H. Qed.

Lemma trimStart_snoc (s : jsstring) (c : N) :
  isSpace c = false -> trimStart (s ++ [c]) = trimStart s ++ [c].
Proof.
  intros H; induction s as [|d s IH]; simpl.
  - now rewrite H.
  - destruct (isSpace d); [exact IH | reflexivity].
Qed.

Lemma trimStart_idempotent (s : jsstring) :
  trimStart (trimStart s) = trimStart s.
Proof.
  induction s as [|c s IH]; simpl; [reflexivity|].
  destruct (isSpace c) eqn:E; [exact IH | now apply trimStart_fixed].
Qed.

Lemma trimEnd_idempotent (s : jsstring) : trimEnd (trimEnd s) = trimEnd s.
Proof.
  unfold trimEnd; now rewrite rev_involutive, trimStart_idempotent.
Qed.

Lemma trimEnd_cons (c : N) (s : jsstring) :
  isSpace c = false -> trimEnd (c :: s) = c :: trimEnd s.
Proof.
  intros H; unfold trimEnd; simpl.
  now rewrite trimStart_snoc, rev_app_distr by exact H.
Qed.

Lemma trimStart_trimEnd (s : jsstring) :
  trimStart (trimEnd (trimStart s)) = trimEnd (trimStart s).
Proof.
  induction s as [|c s IH]; simpl; [reflexivity|].
  destruct (isSpace c) eqn:E; [exact IH|].
  rewrite trimEnd_cons by exact E. now apply trimStart_fixed.
Qed.

Lemma trim_idempotent (s : jsstring) : trim (trim s) = trim s.
Proof.
  unfold trim. now rewrite trimStart_trimEnd, trimEnd_idempotent.
Qed.

Lemma trimStart_blank (s : jsstring) :
  forallb isSpace s = true -> trimStart s = [].
Proof.
  induction s as [|c s IH]; simpl; [reflexivity|].
  destruct (isSpace c); [exact IH | discriminate].
Qed.

Lemma trimStart_nil_blank (s : jsstring) :
  trimStart s = [] -> forallb isSpace s = true.
Proof.
  induction s as [|c s IH]; simpl; [reflexivity|].
  destruct (isSpace c); [exact IH | discriminate].
Qed.

Lemma trim_nil_blank (s : jsstring) : trim s = [] -> forallb isSpace s = true.
Proof.
  unfold trim, trimEnd; intros H.
  apply trimStart_nil_blank.
  destruct (trimStart s) as [|c t] eqn:E; [reflexivity|].
  assert (Hc : isSpace c = false).
  { destruct s as [|d s]; [discriminate|]. simpl in E.
    clear H. revert d E. induction s as [|e s IH]; intros d E; simpl in E.
    - destruct (isSpace d) eqn:Ed; [discriminate|]. now injection E as -> _.
    - destruct (isSpace d) eqn:Ed.
      + apply (IH e). exact E.
      + now injection E as -> _. }
  exfalso.
  change (rev (c :: t)) with (rev t ++ [c]) in H.
  rewrite trimStart_snoc in H by exact Hc.
  apply (f_equal (@length N)) in H.
  rewrite length_rev, length_app in H. simpl in H. lia.
Qed.

Lemma visible_app (s t : jsstring) : visible (s ++ t) = visible s ++ visible t.
Proof. apply filter_app. Qed.

Lemma visible_trimStart (s : jsstring) : visible (trimStart s) = visible s.
Proof.
  induction s as [|c s IH]; simpl; [reflexivity|].
  destruct (isSpace c) eqn:E; simpl; [exact IH | now rewrite E].
Qed.

Lemma visible_blank (s : jsstring) : forallb isSpace s = true -> visible s = [].
Proof.
  induction s as [|c s IH]; simpl; [reflexivity|].
  destruct (isSpace c); simpl; [exact IH | discriminate].
Qed.

Lemma replaceChar_app (c : N) (e s t : jsstring) :
  replaceChar c e (s ++ t) = replaceChar c e s ++ replaceChar c e t.
Proof. apply flat_map_app. Qed.

End StringFacts.

(** ** escapeXml *)

Section EscapeXml.

(** The five passes over one character of the input come to its entity. *)
Lemma escapeXml_char (c : N) : escapeXml [c] = escapeChar c.
Proof.
  unfold escapeXml, escapeChar, replaceChar; simpl.
  destruct (c =? 38)%N eqn:E38; [reflexivity|]; simpl.
  destruct (c =? 60)%N eqn:E60; [reflexivity|]; simpl.
  destruct (c =? 62)%N eqn:E62; [reflexivity|]; simpl.
  destruct (c =? 34)%N eqn:E34; [reflexivity|]; simpl.
  destruct (c =? 39)%N eqn:E39; reflexivity.
Qed.

Lemma escapeXml_app (s t : jsstring) :
  escapeXml (s ++ t) = escapeXml s ++ escapeXml t.
Proof. unfold escapeXml. now rewrite !replaceChar_app. Qed.

Lemma escapeXml_flat_map (s : jsstring) : escapeXml s = flat_map escapeChar s.
Proof.
  induction s as [|c s IH]; [reflexivity|].
  change (c :: s) with ([c] ++ s).
  now rewrite escapeXml_app, escapeXml_char, IH.
Qed.

Lemma escapeChar_no_raw (c : N) :
  forallb (fun d => negb (isRawMarkup d)) (escapeChar c) = true.
Proof.
  unfold escapeChar.
  destruct (c =? 38)%N; [reflexivity|].
  destruct (c =? 60)%N eqn:E60; [reflexivity|].
  destruct (c =? 62)%N eqn:E62; [reflexivity|].
  destruct (c =? 34)%N eqn:E34; [reflexivity|].
  destruct (c =? 39)%N eqn:E39; [reflexivity|].
  simpl. unfold isRawMarkup. now rewrite E60, E62, E34, E39.
Qed.

Lemma escapeChar_ampersands (c : N) (rest : jsstring) :
  ampersandsOpenEntities rest = true ->
  ampersandsOpenEntities (escapeChar c ++ rest) = true.
Proof.
  intros H. unfold escapeChar.
  destruct (c =? 38)%N eqn:E38; [simpl; exact H|].
  destruct (c =? 60)%N; [simpl; exact H|].
  destruct (c =? 62)%N; [simpl; exact H|].
  destruct (c =? 34)%N; [simpl; exact H|].
  destruct (c =? 39)%N; [simpl; exact H|].
  simpl. now rewrite E38, H.
Qed.

Lemma startsWith_prefix (p s : jsstring) :
  startsWith p s = true -> exists rest, s = p ++ rest.
Proof.
  revert s; induction p as [|c p IH]; intros s H.
  - now exists s.
  - destruct s as [|d s]; [discriminate|]. simpl in H.
    apply andb_true_iff in H as [Hc Hp]. apply N.eqb_eq in Hc; subst d.
    destruct (IH _ Hp) as [rest ->]. now exists rest.
Qed.

Lemma ampersands_at (s pre post : jsstring) :
  ampersandsOpenEntities s = true -> s = pre ++ 38%N :: post ->
  exists e rest, In e entities /\ 38%N :: post = e ++ rest.
Proof.
  revert s; induction pre as [|c pre IH]; intros s H ->.
  - simpl app in H. cbn [ampersandsOpenEntities] in H.
    rewrite N.eqb_refl in H. apply andb_true_iff in H as [H _].
    apply existsb_exists in H as [e [He Hs]].
    destruct (startsWith_prefix _ _ Hs) as [rest Hr].
    now exists e, rest.
  - simpl in H. apply andb_true_iff in H as [_ H]. now apply (IH _ H).
Qed.

End EscapeXml.

(** ** normalizeLines *)

Section NormalizeLines.

Lemma kept_lines_trimmed (l : list jsstring) :
  Forall (fun line => trim line = line /\ line <> [])
         (filter JsString.truthy (map trim l)).
Proof.
  induction l as [|x l IH]; simpl; [constructor|].
  destruct (JsString.truthy (trim x)) eqn:E; [|exact IH].
  constructor; [|exact IH]. split; [apply trim_idempotent|].
  intros H; rewrite H in E; discriminate.
Qed.

Lemma trimmed_lines_kept (l : list jsstring) :
  Forall (fun line => trim line = line /\ line <> []) l ->
  filter JsString.truthy (map trim l) = l.
Proof.
  induction 1 as [|x l [Ht Hn] _ IH]; simpl; [reflexivity|].
  rewrite Ht, IH. destruct x; [contradiction | reflexivity].
Qed.

Lemma normalizeLines_trimmed (source : TextLines) :
  Forall (fun line => trim line = line /\ line <> []) (normalizeLines source).
Proof.
  destruct source as [|s|l]; simpl.
  - constructor.
  - destruct s; [constructor | apply kept_lines_trimmed].
  - apply kept_lines_trimmed.
Qed.

End NormalizeLines.

(** C10: every line that [normalizeLines] returns is trimmed and not empty,
    so that normalizing the returned list again gives the same list. *)
Theorem normalizeLines_idempotent (source : TextLines) :
  Forall (fun line => trim line = line /\ line <> []) (normalizeLines source)
  /\ normalizeLines (TLArray (normalizeLines source)) = normalizeLines source.
Proof.
  split; [apply normalizeLines_trimmed|].
  apply trimmed_lines_kept, normalizeLines_trimmed.
Qed.

(** ** buildMask *)

Section BuildMask.

Open Scope Q_scope.

Lemma max_ge_left (a b : Q) : a <= JsNum.max a b.
Proof.
  unfold JsNum.max. destruct (Qle_bool a b) eqn:E.
  - now apply Qle_bool_iff.
  - apply Qle_refl.
Qed.

Lemma max_ge_right (a b : Q) : b <= JsNum.max a b.
Proof.
  unfold JsNum.max. destruct (Qle_bool a b) eqn:E.
  - apply Qle_refl.
  - apply Qlt_le_weak, Qnot_le_lt. intros H.
    apply Qle_bool_iff in H. congruence.
Qed.

Lemma max_right (a b : Q) : a <= b -> JsNum.max a b = b.
Proof.
  intros H. unfold JsNum.max. apply Qle_bool_iff in H. now rewrite H.
Qed.

Lemma orElseOpt_falsy (a : option Q) (b : Q) :
  JsNum.truthyOpt a = false -> JsNum.orElseOpt a b = b.
Proof.
  destruct a as [x|]; simpl; [|reflexivity].
  unfold JsNum.orElse. now intros ->.
Qed.

Lemma nth_error_mapIndexFrom {A B : Type} (f : A -> nat -> B)
      (l : list A) (start i : nat) (x : A) :
  nth_error l i = Some x ->
  nth_error (mapIndexFrom f start l) i = Some (f x (start + i)%nat).
Proof.
  revert start i; induction l as [|y l IH]; intros start i H.
  - destruct i; discriminate.
  - destruct i as [|i]; simpl in *.
    + injection H as ->. now rewrite Nat.add_0_r.
    + rewrite (IH (S start) i H). do 2 f_equal. lia.
Qed.

Lemma length_mapIndexFrom {A B : Type} (f : A -> nat -> B)
      (l : list A) (start : nat) :
  length (mapIndexFrom f start l) = length l.
Proof.
  revert start; induction l as [|y l IH]; intros start; simpl;
    [reflexivity | now rewrite IH].
Qed.

End BuildMask.

Lemma buildMask_returns
      (numberToString : Q -> jsstring) (percentEncode : jsstring -> jsstring)
      (lines : list jsstring) (metrics : Metrics) :
  wellFormed (svgMarkup numberToString lines metrics) = true ->
  exists image : MaskImage,
    buildMask numberToString percentEncode lines metrics = Normal image.
Proof.
  intros H. unfold buildMask, encodeURIComponent. rewrite H. now eexists.
Qed.

Lemma buildMask_size
      (numberToString : Q -> jsstring) (percentEncode : jsstring -> jsstring)
      (lines : list jsstring) (metrics : Metrics) (image : MaskImage) :
  buildMask numberToString percentEncode lines metrics = Normal image ->
  maskWidth image = maskWidthOf metrics
  /\ maskHeight image = maskHeightOf lines metrics.
Proof.
  unfold buildMask. destruct (encodeURIComponent _ _); [|discriminate].
  intros H. injection H as <-. now split.
Qed.

(** C6: without a truthy explicit height, the image that [buildMask] returns
    (and it returns one unless the markup holds an unpaired surrogate) is at
    least one line height tall and at least as tall as the stacked lines; for
    no line at all (and a line height that is not negative, as font metrics
    have it) its height is exactly one line height. *)
Theorem buildMask_height
        (numberToString : Q -> jsstring)
        (percentEncode : jsstring -> jsstring)
        (lines : list jsstring) (metrics : Metrics) :
  JsNum.truthyOpt (height metrics) = false ->
  let lineHeight := lineHeightOf metrics in
  (wellFormed (svgMarkup numberToString lines metrics) = true ->
   exists image : MaskImage,
     buildMask numberToString percentEncode lines metrics = Normal image)
  /\ forall image : MaskImage,
      buildMask numberToString percentEncode lines metrics = Normal image ->
      (lineHeight <= maskHeight image
       /\ lineHeight * JsNum.ofNat (length lines) <= maskHeight image
       /\ (lines = [] -> 0 <= lineHeight -> maskHeight image = lineHeight))%Q.
Proof.
  intros Hfalsy lh. split; [apply buildMask_returns|].
  intros image Himage.
  destruct (buildMask_size _ _ _ _ _ Himage) as [_ ->].
  unfold maskHeightOf. rewrite orElseOpt_falsy by exact Hfalsy.
  fold lh. repeat split.
  - apply max_ge_right.
  - apply max_ge_left.
  - intros -> Hlh. apply max_right.
    simpl length. unfold JsNum.ofNat. simpl inject_Z.
    rewrite Qmult_0_r. exact Hlh.
Qed.

Lemma buildMask_height_witness :
  exists image : MaskImage,
    buildMask SampleHost.numberToString SampleHost.percentEncode
              [] (SampleHost.metricsOfWidth 32) = Normal image
    /\ maskHeight image = 28%Q.
Proof.
  destruct (buildMask_height SampleHost.numberToString SampleHost.percentEncode
              [] (SampleHost.metricsOfWidth 32) eq_refl) as [Hret Hsize].
  destruct (Hret eq_refl) as [image Himage].
  exists image. split; [exact Himage|].
  apply (Hsize image Himage).
  - reflexivity.
  - vm_compute. discriminate.
Defined.

(** ** The markup of the image *)

Section Markup.

Variable numberToString : Q -> jsstring.
Variable percentEncode : jsstring -> jsstring.

Lemma map_mapIndexFrom {A B C : Type} (f : A -> nat -> B) (g : B -> C)
      (h : A -> C) (l : list A) (start : nat) :
  (forall x i, g (f x i) = h x) ->
  map g (mapIndexFrom f start l) = map h l.
Proof.
  intros H. revert start; induction l as [|y l IH]; intros start; simpl;
    [reflexivity | now rewrite H, IH].
Qed.

Lemma expect_app (literal s : jsstring) :
  expect literal (literal ++ s) = Some s.
Proof.
  induction literal as [|c l IH]; simpl; [now destruct s|].
  now rewrite N.eqb_refl.
Qed.

Lemma readUntil_app (stop : N) (read rest : jsstring) :
  ~ In stop read ->
  readUntil stop (read ++ stop :: rest) = Some (read, rest).
Proof.
  induction read as [|c r IH]; simpl; intros H.
  - now rewrite N.eqb_refl.
  - destruct (c =? stop)%N eqn:E.
    + apply N.eqb_eq in E. tauto.
    + rewrite IH; tauto.
Qed.

Lemma runMarkup_spelled (r : Run) (rest : jsstring) :
  runMarkup r ++ rest
  = (js "<tspan x=" ++ dquote) ++ runX r ++ 34%N
      :: (js " y=" ++ dquote) ++ runY r ++ 34%N
      :: js ">" ++ runBody r ++ 60%N :: js "/tspan>" ++ rest.
Proof.
  unfold runMarkup, dquote. repeat rewrite <- app_assoc. reflexivity.
Qed.

Lemma readRun_markup (r : Run) (rest : jsstring) :
  ~ In 34%N (runX r) -> ~ In 34%N (runY r) -> ~ In 60%N (runBody r) ->
  readRun (runMarkup r ++ rest) = Some (r, rest).
Proof.
  intros Hx Hy Hb. rewrite runMarkup_spelled. unfold readRun.
  rewrite expect_app, (readUntil_app _ _ _ Hx).
  rewrite expect_app, (readUntil_app _ _ _ Hy).
  rewrite expect_app, (readUntil_app _ _ _ Hb).
  rewrite expect_app. now destruct r.
Qed.

Lemma readRuns_markup (runs : list Run) (rest : jsstring) :
  Forall (fun r => ~ In 34%N (runX r) /\ ~ In 34%N (runY r)
                   /\ ~ In 60%N (runBody r)) runs ->
  readRuns (S (length runs)) (concat (map runMarkup runs) ++ textEnd ++ rest)
  = Some (runs, rest).
Proof.
  induction 1 as [|r runs (Hx & Hy & Hb) _ IH].
  - simpl. reflexivity.
  - change (concat (map runMarkup (r :: runs)))
      with (runMarkup r ++ concat (map runMarkup runs)).
    rewrite <- app_assoc.
    change (readRuns (S (length (r :: runs))) ?s)
      with (match expect textEnd s with
            | Some rest' => Some ([], rest')
            | None =>
                match readRun s with
                | Some (r', s') =>
                    match readRuns (S (length runs)) s' with
                    | Some (rs, rest') => Some (r' :: rs, rest')
                    | None => None
                    end
                | None => None
                end
            end).
    rewrite (readRun_markup r _ Hx Hy Hb), IH.
    reflexivity.
Qed.

Lemma escapeXml_no_raw (str : jsstring) :
  forallb (fun c => negb (isRawMarkup c)) (escapeXml str) = true.
Proof.
  rewrite escapeXml_flat_map.
  induction str as [|c s IH]; [reflexivity|].
  simpl flat_map. now rewrite forallb_app, escapeChar_no_raw.
Qed.

Lemma escapeXml_no_lt (str : jsstring) : ~ In 60%N (escapeXml str).
Proof.
  intros H. pose proof (escapeXml_no_raw str) as Hraw.
  rewrite forallb_forall in Hraw. specialize (Hraw _ H). discriminate.
Qed.

Lemma svgMarkup_parts (lines : list jsstring) (metrics : Metrics) :
  svgMarkup numberToString lines metrics
  = svgHead numberToString (maskWidthOf metrics) (maskHeightOf lines metrics)
            metrics
      ++ textOpen
      ++ concat (map runMarkup
                     (map (runOf numberToString) (tspanLayout lines metrics)))
      ++ textEnd ++ svgEnd.
Proof.
  unfold svgMarkup, svgHead, textOpen, textEnd, svgEnd. cbv zeta.
  rewrite map_map. repeat rewrite <- app_assoc. reflexivity.
Qed.

Lemma buildMask_dataUrl (lines : list jsstring) (metrics : Metrics)
      (image : MaskImage) :
  buildMask numberToString percentEncode lines metrics = Normal image ->
  dataUrl image
  = dataPrefix ++ percentEncode (svgMarkup numberToString lines metrics).
Proof.
  unfold buildMask, encodeURIComponent.
  destruct (wellFormed _); [|discriminate].
  now intros [= <-].
Qed.

Lemma buildMask_outcome (lines : list jsstring) (metrics : Metrics)
      (e : JsError) :
  buildMask numberToString percentEncode lines metrics = Throw e ->
  e = URIError /\ wellFormed (svgMarkup numberToString lines metrics) = false.
Proof.
  unfold buildMask, encodeURIComponent.
  destruct (wellFormed _); [discriminate|].
  now intros [= <-].
Qed.

Lemma wellFormed_app (a b : jsstring) :
  wellFormed a = true -> wellFormed (a ++ b) = wellFormed b.
Proof.
  remember (length a) as n eqn:Hn. revert a Hn.
  induction n as [n IH] using lt_wf_ind. intros a Hn Ha.
  destruct a as [|c a]; [reflexivity|].
  simpl in Ha |- *. destruct (isHighSurrogate c).
  - destruct a as [|d a]; [discriminate|]. simpl.
    apply andb_true_iff in Ha as [Hd Ha]. rewrite Hd. simpl.
    apply (IH (length a)); simpl in Hn; [lia | reflexivity | assumption].
  - apply andb_true_iff in Ha as [Hc Ha]. rewrite Hc. simpl.
    apply (IH (length a)); simpl in Hn; [lia | reflexivity | assumption].
Qed.

(** In front of a character that is no low surrogate, a string is well
    formed or not on its own. *)
Lemma wellFormed_before (s : jsstring) (p : N) (post : jsstring) :
  isLowSurrogate p = false ->
  wellFormed (s ++ p :: post) = wellFormed s && wellFormed (p :: post).
Proof.
  intros Hp. remember (length s) as n eqn:Hn. revert s Hn.
  induction n as [n IH] using lt_wf_ind. intros s Hn.
  destruct s as [|c s]; [reflexivity|].
  change ((c :: s) ++ p :: post) with (c :: (s ++ p :: post)).
  change (wellFormed (c :: ?t))
    with (if isHighSurrogate c then
            match t with
            | d :: t' => isLowSurrogate d && wellFormed t'
            | [] => false
            end
          else negb (isLowSurrogate c) && wellFormed t).
  destruct (isHighSurrogate c).
  - destruct s as [|d s].
    + change ([] ++ p :: post) with (p :: post). cbv iota beta.
      now rewrite Hp.
    + change ((d :: s) ++ p :: post) with (d :: (s ++ p :: post)).
      cbv iota beta.
      rewrite (IH (length s)) by (simpl in Hn; lia || reflexivity).
      now rewrite andb_assoc.
  - rewrite (IH (length s)) by (simpl in Hn; lia || reflexivity).
    now rewrite andb_assoc.
Qed.

Lemma surrogate_escapeChar (c : N) :
  isHighSurrogate c || isLowSurrogate c = true -> escapeChar c = [c].
Proof.
  intros H. unfold escapeChar.
  destruct (N.eqb_spec c 38); [subst; discriminate|].
  destruct (N.eqb_spec c 60); [subst; discriminate|].
  destruct (N.eqb_spec c 62); [subst; discriminate|].
  destruct (N.eqb_spec c 34); [subst; discriminate|].
  destruct (N.eqb_spec c 39); [subst; discriminate|].
  reflexivity.
Qed.

Lemma escapeChar_wellFormed (c : N) :
  isHighSurrogate c = false -> isLowSurrogate c = false ->
  wellFormed (escapeChar c) = true.
Proof.
  intros Hh Hl. unfold escapeChar.
  destruct (c =? 38)%N; [reflexivity|].
  destruct (c =? 60)%N; [reflexivity|].
  destruct (c =? 62)%N; [reflexivity|].
  destruct (c =? 34)%N; [reflexivity|].
  destruct (c =? 39)%N; [reflexivity|].
  simpl. now rewrite Hh, Hl.
Qed.

(** What an escaped character starts with is a low surrogate only if the
    character is one. *)
Lemma escapeChar_head (d : N) (rest : jsstring) :
  isLowSurrogate d = false ->
  exists p post, escapeChar d ++ rest = p :: post /\ isLowSurrogate p = false.
Proof.
  intros Hd. unfold escapeChar.
  destruct (d =? 38)%N; [now eexists; eexists|].
  destruct (d =? 60)%N; [now eexists; eexists|].
  destruct (d =? 62)%N; [now eexists; eexists|].
  destruct (d =? 34)%N; [now eexists; eexists|].
  destruct (d =? 39)%N; [now eexists; eexists|].
  now exists d, rest.
Qed.

(** Escaping neither mends nor breaks a surrogate pair. *)
Lemma escapeXml_wellFormed (str : jsstring) :
  wellFormed (escapeXml str) = wellFormed str.
Proof.
  rewrite escapeXml_flat_map.
  remember (length str) as n eqn:Hn. revert str Hn.
  induction n as [n IH] using lt_wf_ind. intros str Hn.
  destruct str as [|c s]; [reflexivity|].
  simpl flat_map.
  change (wellFormed (c :: s))
    with (if isHighSurrogate c then
            match s with
            | d :: t' => isLowSurrogate d && wellFormed t'
            | [] => false
            end
          else negb (isLowSurrogate c) && wellFormed s).
  destruct (isHighSurrogate c) eqn:Hh.
  - rewrite (surrogate_escapeChar c) by now rewrite Hh.
    destruct s as [|d s]; [simpl; now rewrite Hh|].
    simpl flat_map. destruct (isLowSurrogate d) eqn:Hd.
    + rewrite (surrogate_escapeChar d) by (rewrite Hd; apply orb_true_r).
      simpl. rewrite Hh, Hd. simpl.
      apply (IH (length s)); simpl in Hn; [lia | reflexivity].
    + destruct (escapeChar_head d (flat_map escapeChar s) Hd)
        as (p & post & -> & Hp).
      simpl. now rewrite Hh, Hp.
  - destruct (isLowSurrogate c) eqn:Hl.
    + rewrite (surrogate_escapeChar c) by (rewrite Hl; apply orb_true_r).
      simpl. now rewrite Hh, Hl.
    + rewrite wellFormed_app by now apply escapeChar_wellFormed.
      apply (IH (length s)); simpl in Hn; [lia | reflexivity].
Qed.

Lemma tspanMarkup_wellFormed (t : Tspan) (rest : jsstring) :
  (forall x : Q, wellFormed (numberToString x) = true) ->
  wellFormed (tspanMarkup numberToString t ++ rest)
  = wellFormed (tspanBody t) && wellFormed rest.
Proof.
  intros Hnum. unfold tspanMarkup. repeat rewrite <- app_assoc.
  repeat (rewrite wellFormed_app by first [reflexivity | apply Hnum]).
  change (js "</tspan>" ++ rest) with (60%N :: js "/tspan>" ++ rest).
  rewrite wellFormed_before by reflexivity.
  reflexivity.
Qed.

(** With a number printer and style strings that hold no unpaired surrogate,
    the markup is well formed exactly when every line is. *)
Lemma svgMarkup_wellFormed (lines : list jsstring) (metrics : Metrics) :
  (forall x : Q, wellFormed (numberToString x) = true) ->
  wellFormed (fontFamily metrics) = true ->
  wellFormed (fontWeight metrics) = true ->
  wellFormed (svgMarkup numberToString lines metrics)
  = forallb wellFormed lines.
Proof.
  intros Hnum Hfamily Hweight.
  assert (Hruns : forall rest,
             wellFormed rest = true ->
             wellFormed (concat (map (tspanMarkup numberToString)
                                     (tspanLayout lines metrics)) ++ rest)
             = forallb wellFormed lines).
  { intros rest Hrest. unfold tspanLayout, mapIndex. generalize 0%nat.
    generalize (startYOf lines metrics). intros y.
    induction lines as [|line l IH]; intros start; [exact Hrest|].
    cbn [mapIndexFrom map concat forallb].
    rewrite <- app_assoc, (tspanMarkup_wellFormed _ _ Hnum), IH.
    cbn [tspanBody]. now rewrite escapeXml_wellFormed. }
  unfold svgMarkup. cbv zeta.
  repeat (rewrite wellFormed_app by first [reflexivity | apply Hnum | assumption]).
  now apply Hruns.
Qed.

Lemma buildMask_by_lines (lines : list jsstring) (metrics : Metrics) :
  (forall x : Q, wellFormed (numberToString x) = true) ->
  wellFormed (fontFamily metrics) = true ->
  wellFormed (fontWeight metrics) = true ->
  (forallb wellFormed lines = true ->
   exists image : MaskImage,
     buildMask numberToString percentEncode lines metrics = Normal image)
  /\ (forallb wellFormed lines = false ->
      buildMask numberToString percentEncode lines metrics = Throw URIError).
Proof.
  intros Hnum Hfamily Hweight.
  unfold buildMask, encodeURIComponent.
  rewrite (svgMarkup_wellFormed _ _ Hnum Hfamily Hweight).
  split; intros ->; [now eexists | reflexivity].
Qed.

Lemma runs_of_lines (lines : list jsstring) (metrics : Metrics) :
  map (runOf numberToString) (tspanLayout lines metrics)
  = mapIndex (fun line idx =>
                {| runX := numberToString (maskWidthOf metrics / 2)%Q;
                   runY := numberToString
                             (startYOf lines metrics
                              + JsNum.ofNat idx * lineHeightOf metrics)%Q;
                   runBody := escapeXml line |})
             lines.
Proof.
  unfold tspanLayout, mapIndex. generalize 0%nat.
  generalize (startYOf lines metrics).
  induction lines as [|line lines IH]; intros y start; simpl;
    [reflexivity | now rewrite IH].
Qed.

Lemma buildMask_runs (lines : list jsstring) (metrics : Metrics)
      (image : MaskImage) :
  buildMask numberToString percentEncode lines metrics = Normal image ->
  let runs := map (runOf numberToString) (tspanLayout lines metrics) in
  dataUrl image
  = dataPrefix
      ++ percentEncode
           (svgHead numberToString (maskWidth image) (maskHeight image) metrics
              ++ textOpen ++ concat (map runMarkup runs) ++ textEnd ++ svgEnd)
  /\ ((forall x : Q, ~ In 34%N (numberToString x)) ->
      readRuns (S (length lines))
               (concat (map runMarkup runs) ++ textEnd ++ svgEnd)
      = Some (runs, svgEnd)).
Proof.
  intros Himage runs. split.
  - rewrite (buildMask_dataUrl _ _ _ Himage), svgMarkup_parts.
    now destruct (buildMask_size _ _ _ _ _ Himage) as [-> ->].
  - intros Hquote.
    replace (length lines) with (length runs)
      by (unfold runs, tspanLayout, mapIndex;
          now rewrite length_map, length_mapIndexFrom).
    apply readRuns_markup. unfold runs. rewrite runs_of_lines.
    unfold mapIndex. generalize 0%nat. generalize (startYOf lines metrics).
    clear Himage runs. intros y.
    induction lines as [|line l IH]; intros start; simpl; constructor.
    + simpl. repeat split; [apply Hquote | apply Hquote | apply escapeXml_no_lt].
    + apply IH.
Qed.

End Markup.

(** The sample printer writes digits and a sign. *)
Lemma sample_number_unquoted (x : Q) :
  ~ In 34%N (SampleHost.numberToString x).
Proof.
  unfold SampleHost.numberToString.
  assert (Huint : forall d, ~ In 34%N (js (NilZero.string_of_uint d))).
  { assert (H : forall d, ~ In 34%N (js (NilEmpty.string_of_uint d))).
    { induction d; simpl; intros E; [exact E|..];
        (destruct E as [E|E]; [discriminate | auto]). }
    intros d. unfold NilZero.string_of_uint. destruct d; try apply H.
    simpl. intros [E|[]]. discriminate. }
  unfold NilZero.string_of_int.
  destruct (Z.to_int (Qfloor x)) as [d|d]; [apply Huint|].
  simpl. intros [E|E]; [discriminate | now apply (Huint d)].
Qed.

Lemma sample_number_wellFormed (x : Q) :
  wellFormed (SampleHost.numberToString x) = true.
Proof.
  unfold SampleHost.numberToString.
  assert (H : forall d, wellFormed (js (NilEmpty.string_of_uint d)) = true).
  { induction d; simpl; auto. }
  assert (Huint : forall d, wellFormed (js (NilZero.string_of_uint d)) = true).
  { intros d. unfold NilZero.string_of_uint. destruct d; try apply H.
    reflexivity. }
  unfold NilZero.string_of_int.
  destruct (Z.to_int (Qfloor x)) as [d|d]; [apply Huint|].
  simpl. apply Huint.
Qed.

(** C8: escaping replaces each of the five characters ampersand, less-than,
    greater-than, double quote and single quote with its entity; the result
    holds none of the last four and each ampersand left in it opens one of
    the five entities.  [buildMask] returns an image exactly when the markup
    holds no unpaired surrogate and throws a URIError otherwise; with a
    number printer and style strings that hold none, that is exactly when no
    line holds one.  The address of a returned image is the prefix followed
    by the encoded markup, whose text element holds one run per line with
    the escaped line as its body; with a number printer that writes no
    double quote, reading the markup of the text element back gives these
    runs again, whatever the lines are. *)
Theorem escapeXml_entities
        (numberToString : Q -> jsstring)
        (percentEncode : jsstring -> jsstring)
        (str : jsstring) (lines : list jsstring) (metrics : Metrics) :
  (escapeXml str = flat_map escapeChar str
   /\ forallb (fun c => negb (isRawMarkup c)) (escapeXml str) = true
   /\ ampersandsOpenEntities (escapeXml str) = true
   /\ (forall pre post : jsstring,
          escapeXml str = pre ++ 38%N :: post ->
          exists e rest, In e entities /\ 38%N :: post = e ++ rest))
  /\ (wellFormed (svgMarkup numberToString lines metrics) = true ->
      exists image : MaskImage,
        buildMask numberToString percentEncode lines metrics = Normal image)
  /\ (forall e : JsError,
         buildMask numberToString percentEncode lines metrics = Throw e ->
         e = URIError
         /\ wellFormed (svgMarkup numberToString lines metrics) = false)
  /\ ((forall x : Q, wellFormed (numberToString x) = true) ->
      wellFormed (fontFamily metrics) = true ->
      wellFormed (fontWeight metrics) = true ->
      (forallb wellFormed lines = true ->
       exists image : MaskImage,
         buildMask numberToString percentEncode lines metrics = Normal image)
      /\ (forallb wellFormed lines = false ->
          buildMask numberToString percentEncode lines metrics
          = Throw URIError))
  /\ forall image : MaskImage,
      buildMask numberToString percentEncode lines metrics = Normal image ->
      exists runs : list Run,
        dataUrl image
        = dataPrefix
            ++ percentEncode
                 (svgHead numberToString (maskWidth image) (maskHeight image)
                          metrics
                    ++ textOpen ++ concat (map runMarkup runs)
                    ++ textEnd ++ svgEnd)
        /\ map runBody runs = map escapeXml lines
        /\ ((forall x : Q, ~ In 34%N (numberToString x)) ->
            readRuns (S (length lines))
                     (concat (map runMarkup runs) ++ textEnd ++ svgEnd)
            = Some (runs, svgEnd)).
Proof.
  assert (Hamp : ampersandsOpenEntities (escapeXml str) = true).
  { rewrite escapeXml_flat_map.
    induction str as [|c s IH]; [reflexivity|].
    simpl flat_map. now apply escapeChar_ampersands. }
  split; [|split; [|split; [|split]]].
  - split; [apply escapeXml_flat_map|].
    split; [apply escapeXml_no_raw|].
    split; [exact Hamp|].
    intros pre post. now apply ampersands_at.
  - apply buildMask_returns.
  - apply buildMask_outcome.
  - apply buildMask_by_lines.
  - intros image Himage.
    destruct (buildMask_runs _ _ _ _ _ Himage) as [Hurl Hread].
    eexists. split; [exact Hurl|]. split; [|exact Hread].
    rewrite map_map. unfold tspanLayout, mapIndex.
    now apply map_mapIndexFrom.
Qed.

Lemma escapeXml_entities_witness :
  exists (image : MaskImage) (runs : list Run),
    buildMask SampleHost.numberToString SampleHost.percentEncode
              [js "a<b"; js "R&D"] (SampleHost.metricsOfWidth 32)
    = Normal image
    /\ map runBody runs = [js "a&lt;b"; js "R&amp;D"]
    /\ readRuns 3 (concat (map runMarkup runs) ++ textEnd ++ svgEnd)
       = Some (runs, svgEnd).
Proof.
  destruct (escapeXml_entities
              SampleHost.numberToString SampleHost.percentEncode
              [] [js "a<b"; js "R&D"] (SampleHost.metricsOfWidth 32))
    as (_ & _ & _ & Hlines & Himage).
  destruct (Hlines sample_number_wellFormed eq_refl eq_refl) as [Hret _].
  destruct (Hret eq_refl) as [image Hbuilt].
  destruct (Himage image Hbuilt) as (runs & _ & Hbodies & Hread).
  exists image, runs. split; [exact Hbuilt|]. split; [exact Hbodies|].
  exact (Hread sample_number_unquoted).
Defined.

(** A line with an unpaired surrogate: no image, a URIError. *)
Lemma escapeXml_entities_counterexample :
  (exists image : MaskImage,
      buildMask SampleHost.numberToString SampleHost.percentEncode
                [js "a<b"] (SampleHost.metricsOfWidth 32) = Normal image)
  /\ buildMask SampleHost.numberToString SampleHost.percentEncode
               [[55296%N]] (SampleHost.metricsOfWidth 32) = Throw URIError
  /\ ~ (forall lines : list jsstring,
           exists image : MaskImage,
             buildMask SampleHost.numberToString SampleHost.percentEncode
                       lines (SampleHost.metricsOfWidth 32) = Normal image).
Proof.
  split; [now eexists|]. split; [reflexivity|].
  intros H. destruct (H [[55296%N]]) as [image Himage]. discriminate.
Qed.

(** C9: [buildMask] makes the image [max(metrics.width, 1)] wide, puts the
    first baseline at
    [startY = max((height - lineHeight * (lineCount - 1)) / 2, lineHeight * 0.6)],
    which is never less than 60% of a line height, and the markup behind the
    address of the image has the view box [0 0 width height] and renders line
    [i] as the run [i] of its text element, anchored in the middle, with
    [x = width / 2], [y = startY + i * lineHeight] and the escaped line as
    its body; with a number printer that writes no double quote, reading the
    text element back gives exactly these runs. *)
Theorem buildMask_layout
        (numberToString : Q -> jsstring)
        (percentEncode : jsstring -> jsstring)
        (lines : list jsstring) (metrics : Metrics) :
  let lineHeight := lineHeightOf metrics in
  let startY := startYOf lines metrics in
  (wellFormed (svgMarkup numberToString lines metrics) = true ->
   exists image : MaskImage,
     buildMask numberToString percentEncode lines metrics = Normal image)
  /\ forall image : MaskImage,
      buildMask numberToString percentEncode lines metrics = Normal image ->
      (maskWidth image = JsNum.max (width metrics) 1
       /\ startY = JsNum.max ((maskHeight image
                               - lineHeight * (JsNum.ofNat (length lines) - 1))
                              / 2)
                             (lineHeight * 0.6)
       /\ lineHeight * 0.6 <= startY
       /\ exists runs : list Run,
           dataUrl image
           = dataPrefix
               ++ percentEncode
                    (svgHead numberToString (maskWidth image)
                             (maskHeight image) metrics
                       ++ textOpen ++ concat (map runMarkup runs)
                       ++ textEnd ++ svgEnd)
           /\ length runs = length lines
           /\ (forall (i : nat) (line : jsstring),
                  nth_error lines i = Some line ->
                  nth_error runs i
                  = Some {| runX := numberToString (maskWidth image / 2);
                            runY := numberToString
                                      (startY + JsNum.ofNat i * lineHeight);
                            runBody := escapeXml line |})
           /\ ((forall x : Q, ~ In 34%N (numberToString x)) ->
               readRuns (S (length lines))
                        (concat (map runMarkup runs) ++ textEnd ++ svgEnd)
               = Some (runs, svgEnd)))%Q.
Proof.
  intros lh startY. split; [apply buildMask_returns|].
  intros image Himage.
  destruct (buildMask_runs _ _ _ _ _ Himage) as [Hurl Hread].
  destruct (buildMask_size _ _ _ _ _ Himage) as [Hw Hh].
  split; [exact Hw|]. split; [now rewrite Hh|].
  split; [apply max_ge_right|].
  eexists. split; [exact Hurl|].
  split; [|split; [|exact Hread]].
  - unfold tspanLayout, mapIndex.
    now rewrite length_map, length_mapIndexFrom.
  - intros i line H. rewrite runs_of_lines, Hw. unfold mapIndex.
    now rewrite (nth_error_mapIndexFrom _ _ 0%nat _ _ H).
Qed.

Lemma buildMask_layout_witness :
  exists (image : MaskImage) (runs : list Run),
    buildMask SampleHost.numberToString SampleHost.percentEncode
              [js "Line one"; js "Line two"] (SampleHost.metricsOfWidth 800)
    = Normal image
    /\ nth_error runs 1
       = Some {| runX := js "400"; runY := js "44";
                 runBody := js "Line two" |}
    /\ readRuns 3 (concat (map runMarkup runs) ++ textEnd ++ svgEnd)
       = Some (runs, svgEnd).
Proof.
  destruct (buildMask_layout SampleHost.numberToString SampleHost.percentEncode
              [js "Line one"; js "Line two"] (SampleHost.metricsOfWidth 800))
    as [Hret Hlayout].
  destruct (Hret eq_refl) as [image Himage].
  destruct (Hlayout image Himage) as (Hw & _ & _ & runs & _ & _ & Hnth & Hread).
  exists image, runs. split; [exact Himage|].
  split; [|exact (Hread sample_number_unquoted)].
  rewrite (Hnth 1%nat (js "Line two") eq_refl), Hw.
  reflexivity.
Defined.

(** ** Splitting *)

Section Splitting.

Lemma concat_splitKeepSpacesFrom (s : jsstring) (inRun : bool) (acc : jsstring) :
  concat (splitKeepSpacesFrom inRun acc s) = acc ++ s.
Proof.
  revert inRun acc; induction s as [|c s IH]; intros inRun acc; simpl.
  - destruct inRun; simpl; now rewrite ?app_nil_r.
  - destruct (isSpace c), inRun; simpl; rewrite IH, <- ?app_assoc; reflexivity.
Qed.

(** [arrayFrom] and the newline splitters look two characters ahead, so
    their facts go by induction on a bound of the length. *)
Lemma concat_arrayFrom_bounded (n : nat) (s : jsstring) :
  (length s <= n)%nat -> concat (arrayFrom s) = s.
Proof.
  revert s; induction n as [|n IH]; intros s H.
  - destruct s; [reflexivity | simpl in H; lia].
  - destruct s as [|c [|d s]]; [reflexivity | reflexivity |].
    change (arrayFrom (c :: d :: s))
      with (if isHighSurrogate c && isLowSurrogate d
            then [c; d] :: arrayFrom s else [c] :: arrayFrom (d :: s)).
    destruct (isHighSurrogate c && isLowSurrogate d);
      change (concat (?x :: ?l)) with (x ++ concat l).
    + rewrite IH; [reflexivity | simpl in H; lia].
    + rewrite IH; [reflexivity | simpl in H |- *; lia].
Qed.

Lemma concat_arrayFrom (s : jsstring) : concat (arrayFrom s) = s.
Proof. now apply (concat_arrayFrom_bounded (length s)). Qed.

Lemma splitNewlines_single (s acc : jsstring) :
  ~ In 10%N s -> splitNewlinesFrom acc s = [acc ++ s].
Proof.
  revert acc; induction s as [|c s IH]; intros acc H; simpl.
  - now rewrite app_nil_r.
  - assert (Hc : (c =? 10)%N = false).
    { apply N.eqb_neq. intros ->. apply H. now left. }
    assert (Hs : ~ In 10%N s) by (intros Hi; apply H; now right).
    rewrite Hc.
    assert (Hgo : splitNewlinesFrom (acc ++ [c]) s = [acc ++ c :: s]).
    { rewrite (IH _ Hs), <- app_assoc. reflexivity. }
    destruct (c =? 13)%N; [|exact Hgo].
    destruct s as [|d s']; [exact Hgo|].
    assert (Hd : (d =? 10)%N = false).
    { apply N.eqb_neq. intros ->. apply Hs. now left. }
    now rewrite Hd.
Qed.

Lemma visible_splitNewlines_bounded (n : nat) (s acc : jsstring) :
  (length s <= n)%nat ->
  visible (concat (splitNewlinesFrom acc s)) = visible (acc ++ s).
Proof.
  revert s acc; induction n as [|n IH]; intros s acc H.
  - destruct s; [simpl; now rewrite app_nil_r | simpl in H; lia].
  - destruct s as [|c s]; [simpl; now rewrite app_nil_r|].
    assert (Hgo : visible (concat (splitNewlinesFrom (acc ++ [c]) s))
                  = visible (acc ++ c :: s)).
    { rewrite IH by (simpl in H; lia). now rewrite <- app_assoc. }
    cbn [splitNewlinesFrom].
    destruct (c =? 10)%N eqn:E10.
    { apply N.eqb_eq in E10; subst c. simpl concat.
      rewrite !visible_app, IH by (simpl in H; lia). reflexivity. }
    destruct (c =? 13)%N eqn:E13; [|exact Hgo].
    destruct s as [|d s']; [exact Hgo|].
    destruct (d =? 10)%N eqn:Ed; [|exact Hgo].
    apply N.eqb_eq in E13, Ed; subst c d. simpl concat.
    rewrite !visible_app, IH by (simpl in H; lia). reflexivity.
Qed.

Lemma visible_splitNewlines (s : jsstring) :
  visible (concat (splitNewlines s)) = visible s.
Proof. apply (visible_splitNewlines_bounded (length s)). lia. Qed.

Lemma concat_tokensOf (rawLine : jsstring) : concat (tokensOf rawLine) = rawLine.
Proof.
  unfold tokensOf. destruct (hasSpace rawLine).
  - apply concat_splitKeepSpacesFrom.
  - apply concat_arrayFrom.
Qed.

Lemma includesEmpty_middle (pre post : list jsstring) :
  includesEmpty (pre ++ [] :: post) = true.
Proof.
  unfold includesEmpty. rewrite existsb_app. simpl. apply orb_true_r.
Qed.

Lemma visible_join (sep : jsstring) (ls : list jsstring) :
  visible sep = [] -> visible (join sep ls) = visible (concat ls).
Proof.
  intros Hsep; induction ls as [|l ls IH]; [reflexivity|].
  destruct ls as [|l' ls].
  - simpl. now rewrite app_nil_r.
  - change (join sep (l :: l' :: ls)) with (l ++ sep ++ join sep (l' :: ls)).
    change (concat (l :: l' :: ls)) with (l ++ concat (l' :: ls)).
    now rewrite !visible_app, Hsep, IH.
Qed.

Lemma visible_concat_filter (keep : jsstring -> bool) (ls : list jsstring) :
  (forall l, keep l = false -> l = []) ->
  visible (concat (filter keep ls)) = visible (concat ls).
Proof.
  intros Hkeep; induction ls as [|l ls IH]; [reflexivity|]. simpl.
  destruct (keep l) eqn:E; simpl.
  - now rewrite !visible_app, IH.
  - now rewrite (Hkeep _ E), IH.
Qed.

Lemma filter_all {A : Type} (keep : A -> bool) (l : list A) :
  (forall x, keep x = true) -> filter keep l = l.
Proof.
  intros H; induction l as [|x l IH]; simpl; [reflexivity|].
  now rewrite H, IH.
Qed.

End Splitting.

(** ** wrapLines *)

Section WrapLines.

Open Scope Q_scope.

Variable numberToString : Q -> jsstring.
Variable measureText : jsstring -> jsstring -> Q.
Variable metrics : Metrics.

Abbreviation step := (wrapToken numberToString measureText metrics).
Abbreviation wrapRaw := (wrapRawLine numberToString measureText metrics).
Abbreviation wrapSeg := (wrapSegment numberToString measureText metrics).
Abbreviation wide := (tooWide numberToString measureText metrics).

(** The loop over the tokens does not look at the lines already committed. *)
Lemma wrapToken_frame (r : list jsstring) (c t : jsstring) :
  step (r, c) t
  = (r ++ fst (step ([], c) t), snd (step ([], c) t)).
Proof.
  unfold wrapToken.
  destruct (negb (JsString.truthy t)); [simpl; now rewrite app_nil_r|].
  destruct (wide (c ++ t) && nonBlank c); simpl;
    now rewrite ?app_nil_r.
Qed.

Lemma wrapTokens_frame (toks : list jsstring) (r : list jsstring) (c : jsstring) :
  fold_left step toks (r, c)
  = (r ++ fst (fold_left step toks ([], c)),
     snd (fold_left step toks ([], c))).
Proof.
  revert r c; induction toks as [|t toks IH]; intros r c.
  - simpl. now rewrite app_nil_r.
  - cbn [fold_left]. rewrite (wrapToken_frame r).
    destruct (step ([], c) t) as [x c'] eqn:E. cbn [fst snd].
    rewrite (IH (r ++ x)), (IH x). cbn [fst snd]. now rewrite app_assoc.
Qed.

Lemma wrapRawLine_frame (r : list jsstring) (rawLine : jsstring) :
  wrapRaw r rawLine = r ++ wrapSeg rawLine.
Proof.
  unfold wrapSegment, wrapRawLine.
  destruct rawLine as [|c s]; [reflexivity|].
  rewrite (wrapTokens_frame _ r).
  match goal with |- context [fst ?p] => destruct p as [x cur] end.
  cbn [fst snd]. now rewrite <- app_assoc.
Qed.

Lemma wrapRawLines_flat_map (rawLines : list jsstring) (r : list jsstring) :
  fold_left wrapRaw rawLines r = r ++ flat_map wrapSeg rawLines.
Proof.
  revert r; induction rawLines as [|x l IH]; intros r; simpl.
  - now rewrite app_nil_r.
  - now rewrite IH, wrapRawLine_frame, app_assoc.
Qed.

Lemma wrapLines_flat_map (text : jsstring) :
  wrapLines numberToString measureText text metrics
  = filter (fun line => (0 <? length line)%nat
                        || includesEmpty (splitNewlines text))
           (flat_map wrapSeg (splitNewlines text)).
Proof. unfold wrapLines. now rewrite wrapRawLines_flat_map. Qed.

(** No round of the loop loses or repeats a character that shows. *)
Lemma wrapToken_visible (r : list jsstring) (c t : jsstring) :
  visible (concat (fst (step (r, c) t)) ++ snd (step (r, c) t))
  = visible (concat r ++ c ++ t).
Proof.
  unfold wrapToken.
  destruct t as [|d t]; [simpl; now rewrite app_nil_r|]. cbn [JsString.truthy negb].
  destruct (wide (c ++ d :: t) && nonBlank c); cbn [fst snd].
  - rewrite concat_app. simpl concat. rewrite app_nil_r, <- app_assoc.
    now rewrite !visible_app, visible_trimStart.
  - reflexivity.
Qed.

Lemma wrapTokens_visible (toks : list jsstring) (r : list jsstring) (c : jsstring) :
  visible (concat (fst (fold_left step toks (r, c)))
           ++ snd (fold_left step toks (r, c)))
  = visible (concat r ++ c ++ concat toks).
Proof.
  revert r c; induction toks as [|t toks IH]; intros r c.
  - simpl. now rewrite app_nil_r.
  - cbn [fold_left]. destruct (step (r, c) t) as [r' c'] eqn:E.
    rewrite IH. pose proof (wrapToken_visible r c t) as H.
    rewrite E in H. cbn [fst snd] in H. simpl concat.
    rewrite !app_assoc, visible_app, <- app_assoc, H.
    now rewrite <- visible_app, <- !app_assoc.
Qed.

Lemma wrapSegment_visible (rawLine : jsstring) :
  visible (concat (wrapSeg rawLine)) = visible rawLine.
Proof.
  unfold wrapSegment, wrapRawLine.
  destruct rawLine as [|c s]; [reflexivity|].
  pose proof (wrapTokens_visible (tokensOf (c :: s)) [] []) as H.
    match goal with |- context [let (_, _) := ?p in _] =>
    destruct p as [x cur] end.
  cbn [fst snd] in H. simpl app at 1. rewrite concat_app. simpl concat at 2.
  rewrite app_nil_r, H. simpl. now rewrite concat_tokensOf.
Qed.

Lemma wrapSegments_visible (rawLines : list jsstring) :
  visible (concat (flat_map wrapSeg rawLines)) = visible (concat rawLines).
Proof.
  induction rawLines as [|x l IH]; [reflexivity|]. simpl.
  now rewrite concat_app, !visible_app, wrapSegment_visible, IH.
Qed.

End WrapLines.

(** C2: joining the lines of [wrapLines] with spaces gives back the input up
    to whitespace: the characters that are not whitespace are those of the
    input, in the same order, none dropped and none repeated. *)
Theorem wrapLines_keeps_visible
        (numberToString : Q -> jsstring)
        (measureText : jsstring -> jsstring -> Q)
        (text : jsstring) (metrics : Metrics) :
  visible (join (js " ") (wrapLines numberToString measureText text metrics))
  = visible text.
Proof.
  rewrite visible_join by reflexivity.
  rewrite wrapLines_flat_map, visible_concat_filter.
  - now rewrite wrapSegments_visible, visible_splitNewlines.
  - intros l H. apply orb_false_iff in H as [H _].
    destruct l; [reflexivity | discriminate].
Qed.

(** C3: [wrapLines] wraps the newline-separated segments one by one; an empty
    segment gives exactly one empty line, which stands between the wrapped
    lines of the segments before it and those of the segments after it. *)
Theorem wrapLines_blank_segments
        (numberToString : Q -> jsstring)
        (measureText : jsstring -> jsstring -> Q)
        (text : jsstring) (metrics : Metrics) :
  let wrapSegment := wrapSegment numberToString measureText metrics in
  let lines := wrapLines numberToString measureText text metrics in
  wrapSegment [] = [[]]
  /\ lines = filter (fun line => (0 <? length line)%nat
                                 || includesEmpty (splitNewlines text))
                    (flat_map wrapSegment (splitNewlines text))
  /\ forall before after : list jsstring,
      splitNewlines text = before ++ [] :: after ->
      lines = flat_map wrapSegment before ++ [] :: flat_map wrapSegment after.
Proof.
  intros wrapSegment lines. split; [reflexivity|].
  split; [apply wrapLines_flat_map|].
  intros before after H. subst lines. rewrite wrapLines_flat_map, H.
  rewrite filter_all.
  - now rewrite flat_map_app.
  - intros x. rewrite includesEmpty_middle. apply orb_true_r.
Qed.

Lemma wrapLines_blank_segments_witness :
  SampleHost.wrap [97; 10; 10; 98]%N 800 = [[97%N]] ++ [] :: [[98%N]].
Proof.
  apply (proj2 (proj2 (wrapLines_blank_segments SampleHost.numberToString
                         SampleHost.measureText [97; 10; 10; 98]%N
                         (SampleHost.metricsOfWidth 800)))
           [[97%N]] [[98%N]]).
  reflexivity.
Defined.

(** ** Lines that fit and tokens that do not *)

Section Widths.

Open Scope Q_scope.

Variable numberToString : Q -> jsstring.
Variable measureText : jsstring -> jsstring -> Q.
Variable metrics : Metrics.

Abbreviation step := (wrapToken numberToString measureText metrics).
Abbreviation wrapSeg := (wrapSegment numberToString measureText metrics).
Abbreviation wide := (tooWide numberToString measureText metrics).
Abbreviation measure := (measureText (fontOf numberToString metrics)).

Lemma wide_false (s : jsstring) :
  measure s <= maxWidthOf metrics -> wide s = false.
Proof.
  intros H. unfold tooWide. apply Qle_bool_iff in H. now rewrite H.
Qed.

Lemma wide_true (s : jsstring) :
  maxWidthOf metrics < measure s -> wide s = true.
Proof.
  intros H. unfold tooWide. destruct (Qle_bool _ _) eqn:E; [|reflexivity].
  apply Qle_bool_iff in E. exfalso. exact (Qlt_not_le _ _ H E).
Qed.

(** While every tentative line fits, the loop only appends. *)
Lemma wrapTokens_fit (toks : list jsstring) (r : list jsstring) (c : jsstring) :
  (forall k, wide (firstn k (c ++ concat toks)) = false) ->
  fold_left step toks (r, c) = (r, c ++ concat toks).
Proof.
  revert c; induction toks as [|t toks IH]; intros c H.
  - simpl. now rewrite app_nil_r.
  - cbn [fold_left]. simpl concat in *.
    assert (Hstep : step (r, c) t = (r, c ++ t)).
    { unfold wrapToken. destruct t as [|d t]; [now rewrite app_nil_r|].
      cbn [JsString.truthy negb].
      specialize (H (length (c ++ d :: t))).
      rewrite app_assoc, firstn_app, firstn_all, Nat.sub_diag in H.
      simpl firstn in H. rewrite app_nil_r in H. now rewrite H. }
    rewrite Hstep, IH, <- app_assoc; [reflexivity|].
    intros k. rewrite <- app_assoc. apply H.
Qed.

Lemma nonBlank_false (s : jsstring) :
  nonBlank s = false -> forallb isSpace s = true.
Proof.
  unfold nonBlank. intros H. apply trim_nil_blank.
  destruct (trim s); [reflexivity | discriminate].
Qed.

Lemma nonBlank_word (lead w : jsstring) :
  w <> [] -> hasSpace w = false -> nonBlank (lead ++ w) = true.
Proof.
  intros Hw Hs. destruct (nonBlank (lead ++ w)) eqn:E; [reflexivity|].
  apply nonBlank_false in E. rewrite forallb_app in E.
  apply andb_true_iff in E as [_ E].
  destruct w as [|c w]; [contradiction|].
  unfold hasSpace in Hs. simpl in Hs, E.
  destruct (isSpace c); discriminate.
Qed.

Lemma trimStart_word (w : jsstring) : hasSpace w = false -> trimStart w = w.
Proof.
  destruct w as [|c w]; [reflexivity|]. unfold hasSpace. simpl.
  now destruct (isSpace c).
Qed.

Hypothesis measure_monotone :
  monotoneMeasure measureText (fontOf numberToString metrics).

Lemma wide_prefix (s t : jsstring) : wide s = true -> wide (s ++ t) = true.
Proof.
  intros H. apply wide_true. unfold tooWide in H.
  apply negb_true_iff in H.
  apply Qlt_le_trans with (measure s); [|apply measure_monotone].
  apply Qnot_le_lt. intros Hle. apply Qle_bool_iff in Hle. congruence.
Qed.

Lemma wide_suffix (s t : jsstring) : wide t = true -> wide (s ++ t) = true.
Proof.
  intros H. apply wide_true. unfold tooWide in H.
  apply negb_true_iff in H.
  apply Qlt_le_trans with (measure t); [|apply measure_monotone].
  apply Qnot_le_lt. intros Hle. apply Qle_bool_iff in Hle. congruence.
Qed.

(** The round that meets a word wider than the line: whatever shows in
    [current] is committed, and the word opens the next line. *)
Lemma wrapToken_wide_word (r : list jsstring) (c w : jsstring) :
  w <> [] -> hasSpace w = false -> wide w = true ->
  step (r, c) w
  = (r ++ (if nonBlank c then [c] else []),
     (if nonBlank c then [] else c) ++ w).
Proof.
  intros Hw Hs Hwide. unfold wrapToken.
  destruct w as [|d w]; [contradiction|]. cbn [JsString.truthy negb].
  rewrite (wide_suffix c _ Hwide). cbn [andb].
  destruct (nonBlank c).
  - now rewrite trimStart_word.
  - now rewrite app_nil_r.
Qed.

(** A line that shows something and is too wide already is committed as it
    stands by the first token that follows. *)
Lemma wrapTokens_after_wide (post : list jsstring) (r : list jsstring)
      (cw : jsstring) :
  nonBlank cw = true -> wide cw = true ->
  exists after,
    fst (fold_left step post (r, cw)) ++ [snd (fold_left step post (r, cw))]
    = r ++ cw :: after.
Proof.
  intros Hshow Hwide. revert r; induction post as [|t post IH]; intros r.
  - now exists [].
  - cbn [fold_left]. destruct t as [|d t].
    + apply IH.
    + unfold wrapToken at 2 4. cbn [JsString.truthy negb].
      rewrite (wide_prefix _ (d :: t) Hwide), Hshow. cbn [andb].
      rewrite (wrapTokens_frame numberToString measureText metrics
                 post (r ++ [cw])).
      cbn [fst snd]. eexists. rewrite <- !app_assoc. reflexivity.
Qed.

End Widths.

Lemma wrapSegment_tokens
      (numberToString : Q -> jsstring)
      (measureText : jsstring -> jsstring -> Q)
      (metrics : Metrics) (rawLine : jsstring) :
  rawLine <> [] ->
  wrapSegment numberToString measureText metrics rawLine
  = fst (fold_left (wrapToken numberToString measureText metrics)
                   (tokensOf rawLine) ([], []))
    ++ [snd (fold_left (wrapToken numberToString measureText metrics)
                       (tokensOf rawLine) ([], []))].
Proof.
  intros H. unfold wrapSegment, wrapRawLine.
  destruct rawLine as [|c s]; [contradiction|].
 
  match goal with |- context [let (_, _) := ?p in _] => now destruct p end.
Qed.

(** C1, amended: a text that is not empty, holds no newline and fits, in
    that none of its prefixes measures more than
    [maxWidth = max(width - 4, 1)], is wrapped into exactly one line, which is
    the text as it was passed. *)
Theorem wrapLines_single_line
        (numberToString : Q -> jsstring)
        (measureText : jsstring -> jsstring -> Q)
        (text : jsstring) (metrics : Metrics) :
  text <> [] ->
  ~ In 10%N text ->
  (forall k : nat,
      measureText (fontOf numberToString metrics) (firstn k text)
      <= maxWidthOf metrics)%Q ->
  wrapLines numberToString measureText text metrics = [text].
Proof.
  intros Hne Hnl Hfit.
  rewrite wrapLines_flat_map. unfold splitNewlines.
  rewrite (splitNewlines_single text [] Hnl). cbn [app flat_map].
  rewrite app_nil_r, (wrapSegment_tokens _ _ _ _ Hne).
  rewrite wrapTokens_fit.
  - cbn [fst snd app]. rewrite concat_tokensOf.
    destruct text; [contradiction | reflexivity].
  - intros k. apply wide_false. cbn [app]. rewrite concat_tokensOf. apply Hfit.
Qed.

Lemma wrapLines_single_line_witness :
  SampleHost.wrap (js "Hello World") 800 = [js "Hello World"].
Proof.
  apply (wrapLines_single_line SampleHost.numberToString SampleHost.measureText
           (js "Hello World") (SampleHost.metricsOfWidth 800)).
  - discriminate.
  - vm_compute. intuition discriminate.
  - intros k.
    do 12 (destruct k as [|k]; [vm_compute; discriminate|]).
    vm_compute; discriminate.
Defined.

(** C1 as it was stated fails: under the fixed-pitch measurer the text
    ["a b"] is 30 pixels wide, narrower than a container of 32, yet it is
    over the 28 pixels left by the margin and comes out as two lines. *)
Lemma wrapLines_single_line_counterexample :
  ~ (forall (numberToString : Q -> jsstring)
            (measureText : jsstring -> jsstring -> Q)
            (text : jsstring) (metrics : Metrics),
        text <> [] ->
        ~ In 10%N text ->
        (measureText (fontOf numberToString metrics) text < width metrics)%Q ->
        wrapLines numberToString measureText text metrics = [trim text]).
Proof.
  intros H.
  specialize (H SampleHost.numberToString SampleHost.measureText
                (js "a b") (SampleHost.metricsOfWidth 32)).
  assert (Hlines : wrapLines SampleHost.numberToString SampleHost.measureText
                     (js "a b") (SampleHost.metricsOfWidth 32)
                   = [js "a "; js "b"]) by (vm_compute; reflexivity).
  rewrite Hlines in H.
  assert (Habs : [js "a "; js "b"] = [trim (js "a b")]); [|discriminate Habs].
  apply H.
  - discriminate.
  - vm_compute. intuition discriminate.
  - vm_compute. reflexivity.
Qed.

(** C5, amended: tentative lines are measured against
    [maxWidth = max(width - 4, 1)], which is at least 1; and, for a measurer
    under which a string is never narrower than a part it starts or ends
    with, a token that is not whitespace and measures more than [maxWidth] is
    not split: it ends a line that holds nothing else but, at most, the
    whitespace opening its segment, the lines before and after holding what
    shows of the tokens before and after it.  That line is in the output of
    [wrapLines] for every text with this segment. *)
Theorem wrapSegment_wide_token
        (numberToString : Q -> jsstring)
        (measureText : jsstring -> jsstring -> Q)
        (metrics : Metrics) (rawLine : jsstring)
        (pre : list jsstring) (w : jsstring) (post : list jsstring) :
  monotoneMeasure measureText (fontOf numberToString metrics) ->
  tokensOf rawLine = pre ++ w :: post ->
  w <> [] ->
  hasSpace w = false ->
  (maxWidthOf metrics < measureText (fontOf numberToString metrics) w)%Q ->
  (maxWidthOf metrics = JsNum.max (width metrics - 4) 1
   /\ 1 <= maxWidthOf metrics)%Q
  /\ exists (before : list jsstring) (lead : jsstring) (after : list jsstring),
      wrapSegment numberToString measureText metrics rawLine
      = before ++ (lead ++ w) :: after
      /\ forallb isSpace lead = true
      /\ visible (concat before) = visible (concat pre)
      /\ visible (concat after) = visible (concat post)
      /\ forall (text : jsstring) (segsBefore segsAfter : list jsstring),
          splitNewlines text = segsBefore ++ rawLine :: segsAfter ->
          In (lead ++ w) (wrapLines numberToString measureText text metrics).
Proof.
  intros Hmono Htok Hw Hs Hwidth.
  split; [split; [reflexivity | apply max_ge_right]|].
  assert (Hraw : rawLine <> []).
  { intros ->. destruct pre; discriminate Htok. }
  pose proof (wide_true numberToString measureText metrics w Hwidth) as Hwide.
  pose proof (wrapTokens_visible numberToString measureText metrics pre [] [])
    as Hpre.
  pose proof (wrapSegment_visible numberToString measureText metrics rawLine)
    as Hall.
  pose proof (wrapSegment_tokens numberToString measureText metrics
                rawLine Hraw) as Hseg.
  rewrite Htok, fold_left_app in Hseg.
  match type of Hpre with context [fst ?p] => destruct p as [r1 c1] end.
  cbn [fst snd app concat] in Hpre. cbn [fold_left] in Hseg.
  rewrite (wrapToken_wide_word _ _ _ Hmono r1 c1 w Hw Hs Hwide) in Hseg.
  set (before := r1 ++ (if nonBlank c1 then [c1] else [])) in *.
  set (lead := if nonBlank c1 then [] else c1) in *.
  assert (Hlead : forallb isSpace lead = true).
  { subst lead. destruct (nonBlank c1) eqn:E;
      [reflexivity | now apply nonBlank_false]. }
  assert (Hbefore : visible (concat before) = visible (concat pre)).
  { rewrite <- Hpre. subst before. rewrite concat_app, !visible_app.
    f_equal. destruct (nonBlank c1) eqn:E.
    - simpl. now rewrite app_nil_r.
    - simpl. symmetry. now apply visible_blank, nonBlank_false. }
  destruct (wrapTokens_after_wide numberToString measureText metrics Hmono
              post before (lead ++ w)) as [after Hafter].
  { now apply nonBlank_word. }
  { now apply wide_suffix. }
  rewrite Hafter in Hseg. rewrite Hseg in Hall.
  exists before, lead, after. repeat split; try assumption.
  - rewrite <- (concat_tokensOf rawLine), Htok in Hall.
    rewrite !concat_app in Hall. simpl concat in Hall.
    rewrite !visible_app, Hbefore, (visible_blank lead Hlead) in Hall.
    simpl app in Hall. now apply app_inv_head, app_inv_head in Hall.
  - intros text segsBefore segsAfter Hsplit.
    rewrite wrapLines_flat_map, Hsplit. apply filter_In. split.
    + rewrite flat_map_app. apply in_or_app. right. simpl.
      apply in_or_app. left. rewrite Hseg.
      apply in_or_app. right. now left.
    + destruct w; [contradiction|].
      destruct lead; simpl; rewrite ?length_app; reflexivity.
Qed.

Lemma fixed_pitch_monotone (font : jsstring) :
  monotoneMeasure SampleHost.measureText font.
Proof.
  intros s t. unfold SampleHost.measureText, JsNum.ofNat.
  rewrite length_app, Nat2Z.inj_add, inject_Z_plus.
  assert (H0 : forall n : nat, (0 <= inject_Z (Z.of_nat n))%Q).
  { intros n. change 0%Q with (inject_Z 0). rewrite <- Zle_Qle. lia. }
  pose proof (H0 (length s)). pose proof (H0 (length t)).
  split; apply Qmult_le_l; try reflexivity.
  - rewrite <- (Qplus_0_r (inject_Z (Z.of_nat (length s)))) at 1.
    now apply Qplus_le_r.
  - rewrite <- (Qplus_0_l (inject_Z (Z.of_nat (length t)))) at 1.
    now apply Qplus_le_l.
Qed.

Lemma wrapSegment_wide_token_witness :
  exists (before : list jsstring) (lead : jsstring) (after : list jsstring),
    wrapSegment SampleHost.numberToString SampleHost.measureText
                (SampleHost.metricsOfWidth 34) (js "a wider b")
    = before ++ (lead ++ js "wider") :: after.
Proof.
  destruct (wrapSegment_wide_token
              SampleHost.numberToString SampleHost.measureText
              (SampleHost.metricsOfWidth 34) (js "a wider b")
              [js "a"; js " "] (js "wider") [js " "; js "b"])
    as [_ [before [lead [after [H _]]]]].
  - apply fixed_pitch_monotone.
  - reflexivity.
  - discriminate.
  - reflexivity.
  - reflexivity.
  - now exists before, lead, after.
Defined.

(** C5 as it was stated fails: a run of whitespace is a token as well, and
    one that is wider than the line, here five spaces of 50 pixels against
    28, gets no line of its own; the break strips it. *)
Lemma wrapSegment_wide_token_counterexample :
  ~ (forall (numberToString : Q -> jsstring)
            (measureText : jsstring -> jsstring -> Q)
            (metrics : Metrics) (rawLine : jsstring)
            (pre : list jsstring) (w : jsstring) (post : list jsstring),
        tokensOf rawLine = pre ++ w :: post ->
        w <> [] ->
        (maxWidthOf metrics < measureText (fontOf numberToString metrics) w)%Q ->
        In w (wrapSegment numberToString measureText metrics rawLine)).
Proof.
  intros H.
  specialize (H SampleHost.numberToString SampleHost.measureText
                (SampleHost.metricsOfWidth 32) (js "a     b")
                [js "a"] (js "     ") [js "b"]).
  assert (Hlines : wrapSegment SampleHost.numberToString SampleHost.measureText
                     (SampleHost.metricsOfWidth 32) (js "a     b")
                   = [js "a"; js "b"]) by (vm_compute; reflexivity).
  rewrite Hlines in H.
  assert (Habs : In (js "     ") [js "a"; js "b"]).
  { apply H.
    - reflexivity.
    - discriminate.
    - vm_compute. reflexivity. }
  destruct Habs as [Habs | [Habs | []]]; discriminate Habs.
Qed.

(** ** The wrapper on small inputs *)

(** A text without whitespace is cut between characters. *)
Example wrap_unspaced :
  SampleHost.wrap (js "AAAAAAAAAA") 34
  = [js "AAA"; js "AAA"; js "AAA"; js "A"].
Proof. vm_compute. reflexivity. Qed.

(** [wrapLines] leaves the whitespace around its text in place. *)
Example wrap_keeps_outer_spaces :
  SampleHost.wrap (js " a ") 800 = [js " a "].
Proof. vm_compute. reflexivity. Qed.

(** The whitespace that opens a segment stays in front of a first word that
    is too wide. *)
Example wrap_wide_first_word :
  SampleHost.wrap (js " wide") 32 = [js " wide"].
Proof. vm_compute. reflexivity. Qed.

(** With a blank line in the input nothing is filtered, so the empty line
    that a trailing space leaves behind stays next to the blank one. *)
Example wrap_blank_line_after_trailing_space :
  SampleHost.wrap [97; 32; 10; 10; 98]%N 14 = [js "a"; []; []; js "b"].
Proof. vm_compute. reflexivity. Qed.

(** A string is cut at pipes, the members of a list are not. *)
Example normalizeLines_pipes :
  normalizeLines (TLString (js " a | b||c ")) = [js "a"; js "b"; js "c"]
  /\ normalizeLines (TLArray [js " a | b "]) = [js "a | b"].
Proof. split; reflexivity. Qed.

(** ** apply *)

Section Apply.

Variable numberToString : Q -> jsstring.
Variable percentEncode : jsstring -> jsstring.
Variable measureText : jsstring -> jsstring -> Q.
Variable getComputedStyle : Element -> ComputedStyle.
Variable getBoundingClientRect : Element -> Box.

Abbreviation run :=
  (apply numberToString percentEncode measureText
         getComputedStyle getBoundingClientRect).
Abbreviation runOptions :=
  (applyOptions numberToString percentEncode measureText
                getComputedStyle getBoundingClientRect).
Abbreviation paint :=
  (paintMask numberToString percentEncode
             getComputedStyle getBoundingClientRect).
Abbreviation build := (buildMask numberToString percentEncode).
Abbreviation metricsOf := (getMetrics getComputedStyle getBoundingClientRect).

Lemma getElementById_store (id : jsstring) (e e' : Element) (doc : Document) :
  getElementById id doc = Some e ->
  getElementById id (storeElement id e' doc) = Some e'.
Proof.
  induction doc as [|[i x] doc IH]; simpl; [discriminate|].
  destruct (strEqb i id) eqn:E; simpl; rewrite E; [reflexivity | exact IH].
Qed.

Lemma lookupText_blank (container content : Element) :
  blankSource (brightText content) ->
  blankSource (brightText container) ->
  trim (textContent content) = [] ->
  trim (lookupText container content) = [].
Proof.
  unfold lookupText, blankSource. intros Hc Hk Ht.
  destruct (brightText content) as [[|c t]|]; [| exact Hc |];
    (destruct (brightText container) as [[|d u]|]; [| exact Hk |]);
    unfold JsString.orElse; destruct (textContent content);
      first [exact Ht | reflexivity].
Qed.

Lemma buildMask_throws (lines : list jsstring) (metrics : Metrics) (e : JsError) :
  build lines metrics = Throw e -> e = URIError.
Proof.
  unfold buildMask, encodeURIComponent.
  destruct (wellFormed _); [discriminate | now intros [= <-]].
Qed.

Lemma paintMask_outcome (id : jsstring) (content : Element)
      (lines : list jsstring) (w : World) :
  fst (paint id content lines w) = Normal tt
  \/ fst (paint id content lines w) = Throw URIError.
Proof.
  unfold paintMask.
  destruct (build lines _) as [image|e] eqn:E; [now left | right].
  now rewrite (buildMask_throws _ _ _ E).
Qed.

Lemma paintMask_world (id : jsstring) (content : Element)
      (lines : list jsstring) (w : World) :
  console (snd (paint id content lines w)) = console w
  /\ measureCanvas (snd (paint id content lines w)) = measureCanvas w.
Proof. unfold paintMask. now destruct (build lines _). Qed.

Lemma apply_defined (options : Argument) (w : World) :
  options <> ArgNull ->
  run options w = runOptions (optionsOf options) w.
Proof. destruct options; [reflexivity | contradiction | reflexivity]. Qed.

Lemma applyOptions_outcome (o : Options) (w : World) :
  fst (runOptions o w) = Normal tt \/ fst (runOptions o w) = Throw URIError.
Proof.
  unfold applyOptions.
  destruct (getElementById _ _) as [container|]; [|now left].
  destruct (getElementById _ _) as [content|]; [|now left].
  destruct (normalizeLines (textLines o)).
  - destruct (trim (lookupText container content)); [now left|].
    apply paintMask_outcome.
  - apply paintMask_outcome.
Qed.

Lemma applyOptions_unresolved (o : Options) (w : World) :
  containerOf o w = None \/ contentOf o w = None ->
  runOptions o w
  = (Normal tt, warn (js "[BrightMode] container or content not found") w).
Proof.
  unfold containerOf, contentOf, applyOptions. intros [H | H]; rewrite H.
  - reflexivity.
  - now destruct (getElementById (orDefault (containerId o) _) _).
Qed.

Lemma applyOptions_no_text (o : Options) (w : World)
      (container content : Element) :
  containerOf o w = Some container ->
  contentOf o w = Some content ->
  normalizeLines (textLines o) = [] ->
  trim (lookupText container content) = [] ->
  runOptions o w = (Normal tt, warn (js "[BrightMode] no text provided") w).
Proof.
  unfold containerOf, contentOf, applyOptions.
  intros -> -> -> ->. reflexivity.
Qed.

Lemma applyOptions_manual (o : Options) (w : World)
      (container content : Element) :
  containerOf o w = Some container ->
  contentOf o w = Some content ->
  normalizeLines (textLines o) <> [] ->
  let id := orDefault (contentId o) (js "bright-content") in
  let lines := normalizeLines (textLines o) in
  let shown := withText content (join newline lines) in
  runOptions o w
  = paint id shown lines
          (setDocument (storeElement id shown (document w)) w).
Proof.
  unfold containerOf, contentOf, applyOptions. intros -> -> H.
  destruct (normalizeLines (textLines o)); [contradiction | reflexivity].
Qed.

End Apply.

(** C4, amended: called with [null], [apply] throws; for every other
    argument it returns, or ends in the URIError that [encodeURIComponent]
    raises on markup with an unpaired surrogate.  If the container or the
    content element is not found, or if no manual line is given and none of
    the three lookup paths holds text that is not blank, it returns, having
    printed one warning and left the document, and so every node and style,
    as it was. *)
Theorem apply_failure_is_silent
        (numberToString : Q -> jsstring)
        (percentEncode : jsstring -> jsstring)
        (measureText : jsstring -> jsstring -> Q)
        (getComputedStyle : Element -> ComputedStyle)
        (getBoundingClientRect : Element -> Box)
        (options : Argument) (w : World) :
  options <> ArgNull ->
  let o := optionsOf options in
  exists (outcome : Completion unit) (w' : World),
    apply numberToString percentEncode measureText
          getComputedStyle getBoundingClientRect options w = (outcome, w')
    /\ (outcome = Normal tt \/ outcome = Throw URIError)
    /\ (containerOf o w = None \/ contentOf o w = None ->
        outcome = Normal tt
        /\ document w' = document w
        /\ measureCanvas w' = measureCanvas w
        /\ console w'
           = console w ++ [js "[BrightMode] container or content not found"])
    /\ (forall container content : Element,
           containerOf o w = Some container ->
           contentOf o w = Some content ->
           normalizeLines (textLines o) = [] ->
           blankSource (brightText content) ->
           blankSource (brightText container) ->
           trim (textContent content) = [] ->
           outcome = Normal tt
           /\ document w' = document w
           /\ measureCanvas w' = measureCanvas w
           /\ console w' = console w ++ [js "[BrightMode] no text provided"]).
Proof.
  intros Hnull o.
  rewrite (apply_defined _ _ _ _ _ options w Hnull). fold o.
  exists (fst (applyOptions numberToString percentEncode measureText
                 getComputedStyle getBoundingClientRect o w)),
         (snd (applyOptions numberToString percentEncode measureText
                 getComputedStyle getBoundingClientRect o w)).
  split; [apply surjective_pairing|].
  split; [apply applyOptions_outcome|]. split.
  - intros H. now rewrite applyOptions_unresolved.
  - intros container content Hk Hc Hm Hbc Hbk Ht.
    rewrite (applyOptions_no_text _ _ _ _ _ o w container content Hk Hc Hm).
    + now repeat split.
    + now apply lookupText_blank.
Qed.

Lemma apply_failure_is_silent_witness :
  exists w' : World,
    SampleHost.run (ArgObject {| containerId := None;
                                 contentId := Some (js "missing");
                                 textLines := TLUndefined |})
                   (SampleHost.page (js "Hello")) = (Normal tt, w')
    /\ document w' = document (SampleHost.page (js "Hello")).
Proof.
  destruct (apply_failure_is_silent
              SampleHost.numberToString SampleHost.percentEncode
              SampleHost.measureText SampleHost.getComputedStyle
              SampleHost.getBoundingClientRect
              (ArgObject {| containerId := None;
                            contentId := Some (js "missing");
                            textLines := TLUndefined |})
              (SampleHost.page (js "Hello")))
    as [outcome [w' [Hrun [_ [Hmissing _]]]]].
  - discriminate.
  - destruct Hmissing as [-> [Hdoc _]]; [right; reflexivity|].
    exists w'. split; [exact Hrun | exact Hdoc].
Defined.

(** C4 as it was stated fails: [apply(null)] reads a property of [null] and
    throws. *)
Lemma apply_failure_is_silent_counterexample :
  ~ (forall (numberToString : Q -> jsstring)
            (percentEncode : jsstring -> jsstring)
            (measureText : jsstring -> jsstring -> Q)
            (getComputedStyle : Element -> ComputedStyle)
            (getBoundingClientRect : Element -> Box)
            (options : Argument) (w : World),
        exists w' : World,
          apply numberToString percentEncode measureText
                getComputedStyle getBoundingClientRect options w
          = (Normal tt, w')).
Proof.
  intros H.
  destruct (H SampleHost.numberToString SampleHost.percentEncode
              SampleHost.measureText SampleHost.getComputedStyle
              SampleHost.getBoundingClientRect
              ArgNull (SampleHost.page (js "Hello"))) as [w' Hw'].
  discriminate Hw'.
Qed.

(** A line with an unpaired surrogate reaches [encodeURIComponent], whose
    URIError leaves [apply] after the text is written and before the mask
    is set. *)
Example apply_unpaired_surrogate :
  exists w' : World,
    SampleHost.run (ArgObject {| containerId := None; contentId := None;
                                 textLines := TLArray [[55296%N]] |})
                   (SampleHost.page (js "Hello")) = (Throw URIError, w')
    /\ option_map textContent
                  (getElementById (js "bright-content") (document w'))
       = Some [55296%N]
    /\ option_map style (getElementById (js "bright-content") (document w'))
       = Some SampleHost.noStyle.
Proof. eexists. repeat split. Qed.

(** C7, amended: a string given as [textLines] is split on newlines and on
    pipes, the members of a list are taken as they are, every piece is trimmed
    and the empty ones are dropped; when at least one line is left, [apply]
    does not wrap (no text is measured and the measuring canvas is not
    touched): the content element shows these lines joined by newlines and,
    [buildMask] returning its image, is masked with the image built from
    exactly these lines.  For the two lines ["Line one"] and ["Line two"] the
    lines are these two. *)
Theorem apply_manual_lines
        (numberToString : Q -> jsstring)
        (percentEncode : jsstring -> jsstring)
        (measureText : jsstring -> jsstring -> Q)
        (getComputedStyle : Element -> ComputedStyle)
        (getBoundingClientRect : Element -> Box)
        (o : Options) (w : World) (container content : Element) :
  containerOf o w = Some container ->
  contentOf o w = Some content ->
  normalizeLines (textLines o) <> [] ->
  let lines := normalizeLines (textLines o) in
  let shown := withText content (join newline lines) in
  let built :=
    buildMask numberToString percentEncode lines
      (maskMetrics (getMetrics getComputedStyle getBoundingClientRect shown)
                   lines) in
  (forall s : jsstring,
      normalizeLines (TLString s)
      = filter JsString.truthy (map trim (splitLinesOrPipe s)))
  /\ (forall l : list jsstring,
         normalizeLines (TLArray l) = filter JsString.truthy (map trim l))
  /\ normalizeLines (TLArray [js "Line one"; js "Line two"])
     = [js "Line one"; js "Line two"]
  /\ exists (outcome : Completion unit) (w' : World),
      apply numberToString percentEncode measureText
            getComputedStyle getBoundingClientRect (ArgObject o) w
      = (outcome, w')
      /\ (exists e : Element,
             contentOf o w' = Some e
             /\ textContent e = join newline lines)
      /\ (forall image : MaskImage,
             built = Normal image ->
             outcome = Normal tt
             /\ contentOf o w'
                = Some (withStyle shown (maskStyle numberToString image)))
      /\ measureCanvas w' = measureCanvas w
      /\ console w' = console w
      /\ forall measureText' : jsstring -> jsstring -> Q,
          apply numberToString percentEncode measureText'
                getComputedStyle getBoundingClientRect (ArgObject o) w
          = (outcome, w').
Proof.
  intros Hk Hc Hlines lines shown built.
  split; [intros [|c s]; reflexivity|].
  split; [reflexivity|]. split; [reflexivity|].
  assert (Hshown : forall doc e,
             getElementById (orDefault (contentId o) (js "bright-content")) doc
             = Some e ->
             forall e', getElementById
                          (orDefault (contentId o) (js "bright-content"))
                          (storeElement
                             (orDefault (contentId o) (js "bright-content"))
                             e' doc) = Some e').
  { intros doc e He e'. now apply getElementById_store with (e := e). }
  assert (Hsame : forall measureText' : jsstring -> jsstring -> Q,
             apply numberToString percentEncode measureText'
                   getComputedStyle getBoundingClientRect (ArgObject o) w
             = apply numberToString percentEncode measureText
                     getComputedStyle getBoundingClientRect (ArgObject o) w).
  { intros measureText'. cbn [apply].
    now rewrite !(applyOptions_manual _ _ _ _ _ o w container content
                    Hk Hc Hlines). }
  cbn [apply] in Hsame |- *.
  rewrite (applyOptions_manual _ _ _ _ _ o w container content Hk Hc Hlines)
    in Hsame |- *.
  fold lines shown in Hsame |- *. unfold paintMask in Hsame |- *.
  fold built in Hsame |- *.
  destruct built as [image|err] eqn:Ebuilt.
  - eexists _, _. split; [reflexivity|].
    split; [|split; [|split; [|split]]].
    + eexists. split.
      * unfold contentOf, setDocument. cbn [document].
        eapply Hshown, Hshown, Hc.
      * reflexivity.
    + intros image' [= <-]. split; [reflexivity|].
      unfold contentOf, setDocument. cbn [document].
      eapply Hshown, Hshown, Hc.
    + reflexivity.
    + reflexivity.
    + exact Hsame.
  - eexists _, _. split; [reflexivity|].
    split; [|split; [|split; [|split]]].
    + eexists. split.
      * unfold contentOf, setDocument. cbn [document]. eapply Hshown, Hc.
      * reflexivity.
    + intros image' [=].
    + reflexivity.
    + reflexivity.
    + exact Hsame.
Qed.

Lemma apply_manual_lines_witness :
  exists w' : World,
    SampleHost.run
      (ArgObject {| containerId := None; contentId := None;
                    textLines := TLArray [js "Line one"; js "Line two"] |})
      (SampleHost.page (js "Hello")) = (Normal tt, w')
    /\ option_map textContent
                  (getElementById (js "bright-content") (document w'))
       = Some (js "Line one" ++ newline ++ js "Line two")
    /\ measureCanvas w' = false.
Proof.
  destruct (apply_manual_lines
              SampleHost.numberToString SampleHost.percentEncode
              SampleHost.measureText SampleHost.getComputedStyle
              SampleHost.getBoundingClientRect
              {| containerId := None; contentId := None;
                 textLines := TLArray [js "Line one"; js "Line two"] |}
              (SampleHost.page (js "Hello"))
              (SampleHost.element 1 None [])
              (SampleHost.element 2 None (js "Hello")))
    as [_ [_ [_ [outcome [w' [Hrun [[e [He Htext]] [Himage [Hcanvas _]]]]]]]]].
  - reflexivity.
  - reflexivity.
  - discriminate.
  - destruct (Himage _ eq_refl) as [-> _].
    exists w'. split; [exact Hrun|]. split; [|exact Hcanvas].
    assert (He' : getElementById (js "bright-content") (document w') = Some e)
      by exact He.
    rewrite He'. cbn [option_map]. rewrite Htext. reflexivity.
Defined.

(** C7 as it was stated fails: a [textLines] that is supplied but blank, here
    the list of one space, normalizes to no line at all, and [apply] falls
    back to the text of the page and wraps it. *)
Lemma apply_manual_lines_counterexample :
  ~ (forall (numberToString : Q -> jsstring)
            (percentEncode : jsstring -> jsstring)
            (measureText : jsstring -> jsstring -> Q)
            (getComputedStyle : Element -> ComputedStyle)
            (getBoundingClientRect : Element -> Box)
            (o : Options) (w : World) (container content : Element),
        containerOf o w = Some container ->
        contentOf o w = Some content ->
        textLines o <> TLUndefined ->
        exists (w' : World) (content' : Element),
          apply numberToString percentEncode measureText
                getComputedStyle getBoundingClientRect (ArgObject o) w
          = (Normal tt, w')
          /\ measureCanvas w' = measureCanvas w
          /\ contentOf o w' = Some content'
          /\ textContent content'
             = join newline (normalizeLines (textLines o))).
Proof.
  intros H.
  destruct (H SampleHost.numberToString SampleHost.percentEncode
              SampleHost.measureText SampleHost.getComputedStyle
              SampleHost.getBoundingClientRect
              {| containerId := None; contentId := None;
                 textLines := TLArray [js " "] |}
              (SampleHost.page (js "Hello"))
              (SampleHost.element 1 None [])
              (SampleHost.element 2 None (js "Hello")))
    as [w' [content' [Hrun [Hcanvas _]]]].
  - reflexivity.
  - reflexivity.
  - discriminate.
  - vm_compute in Hrun. injection Hrun as <-. discriminate Hcanvas.
Qed.

(** * Further properties *)

(** ** The lines of the wrapper *)

Section WrapperLines.

Variable numberToString : Q -> jsstring.
Variable measureText : jsstring -> jsstring -> Q.
Variable metrics : Metrics.

Abbreviation step := (wrapToken numberToString measureText metrics).
Abbreviation wrapSeg := (wrapSegment numberToString measureText metrics).
Abbreviation wide := (tooWide numberToString measureText metrics).

(** A segment always gives a last line, after the lines it committed. *)
Lemma wrapSegment_snoc (rawLine : jsstring) :
  wrapSeg rawLine
  = fst (fold_left step (tokensOf rawLine) ([], []))
    ++ [snd (fold_left step (tokensOf rawLine) ([], []))].
Proof.
  destruct rawLine as [|c s]; [reflexivity|].
  now apply wrapSegment_tokens.
Qed.

Lemma wrapTokens_committed (toks : list jsstring) (r : list jsstring)
      (c : jsstring) :
  Forall (fun l => nonBlank l = true) r ->
  Forall (fun l => nonBlank l = true) (fst (fold_left step toks (r, c))).
Proof.
  revert r c; induction toks as [|t toks IH]; intros r c Hr; [exact Hr|].
  cbn [fold_left]. unfold wrapToken at 2.
  destruct (negb (JsString.truthy t)); [now apply IH|].
  destruct (wide (c ++ t)); cbn [andb]; [|now apply IH].
  destruct (nonBlank c) eqn:E; [|now apply IH].
  apply IH. apply Forall_app. split; [exact Hr | now constructor].
Qed.

Abbreviation bounded := (fitsOrLone numberToString measureText metrics).




(** Once a line that is not empty stands, or a token that is not empty is
    still to come, the segment ends with a line that is not empty. *)
Lemma wrapTokens_some_line (toks : list jsstring) (r : list jsstring)
      (c : jsstring) :
  c <> [] \/ (exists t, In t toks /\ t <> []) ->
  exists l,
    In l (fst (fold_left step toks (r, c)) ++ [snd (fold_left step toks (r, c))])
    /\ l <> [].
Proof.
  revert r c; induction toks as [|t toks IH]; intros r c H.
  - destruct H as [H | [t [[] _]]]. exists c. split; [|exact H].
    apply in_or_app. right. now left.
  - cbn [fold_left]. destruct t as [|d t].
    + apply IH. destruct H as [H | [t' [[<- | Hin] Hne]]];
        [now left | contradiction | right; now exists t'].
    + unfold wrapToken at 2 4. cbn [JsString.truthy negb].
      destruct (wide (c ++ d :: t) && nonBlank c) eqn:E.
      * apply andb_true_iff in E as [_ E].
        rewrite (wrapTokens_frame numberToString measureText metrics
                   toks (r ++ [c])).
        cbn [fst snd]. exists c. split.
        -- rewrite <- !app_assoc. apply in_or_app. right. now left.
        -- intros ->. discriminate E.
      * apply IH. left. now destruct c.
Qed.

Lemma wrapSegment_some_line (rawLine : jsstring) :
  rawLine <> [] -> exists l, In l (wrapSeg rawLine) /\ l <> [].
Proof.
  intros H. rewrite wrapSegment_snoc. apply wrapTokens_some_line.
  right. destruct (tokensOf rawLine) as [|t toks] eqn:E.
  - exfalso. apply H. now rewrite <- (concat_tokensOf rawLine), E.
  - assert (Hc : concat (t :: toks) <> []).
    { rewrite <- E, concat_tokensOf. exact H. }
    clear E. revert Hc. generalize (t :: toks). intros l.
    induction l as [|x l IH]; intros Hc; [contradiction|].
    destruct x as [|d x].
    + destruct (IH Hc) as [u [Hu Hne]]. exists u. split; [now right|exact Hne].
    + exists (d :: x). split; [now left | discriminate].
Qed.

Lemma splitNewlinesFrom_cons (s acc : jsstring) :
  exists seg segs, splitNewlinesFrom acc s = seg :: segs.
Proof.
  revert acc; induction s as [|c s IH]; intros acc; simpl; [now eexists _, _|].
  destruct (c =? 10)%N; [now eexists _, _|].
  destruct (c =? 13)%N; [|apply IH].
  destruct s as [|d s]; [apply IH|].
  destruct (d =? 10)%N; [now eexists _, _ | apply IH].
Qed.

Lemma includesEmpty_false (ls : list jsstring) :
  includesEmpty ls = false -> Forall (fun l => l <> []) ls.
Proof.
  induction ls as [|l ls IH]; [constructor|]. unfold includesEmpty. simpl.
  intros H. apply orb_false_iff in H as [Hl Hls].
  constructor; [now destruct l | now apply IH].
Qed.

End WrapperLines.

(** X1: within a segment only the last line can be blank: every line that the
    loop commits before it shows a character that is not whitespace. *)
Theorem wrapSegment_committed_nonblank
        (numberToString : Q -> jsstring)
        (measureText : jsstring -> jsstring -> Q)
        (metrics : Metrics) (rawLine : jsstring) :
  exists (committed : list jsstring) (lastLine : jsstring),
    wrapSegment numberToString measureText metrics rawLine
    = committed ++ [lastLine]
    /\ Forall (fun line => visible line <> []) committed.
Proof.
  eexists _, _. split; [apply wrapSegment_snoc|].
  eapply Forall_impl;
    [|apply (wrapTokens_committed numberToString measureText metrics
               (tokensOf rawLine) [] []); constructor].
  intros line Hline Hvis. cbv beta in Hline.
  assert (Hblank : forallb isSpace line = true).
  { clear Hline. induction line as [|c l IH]; [reflexivity|].
    simpl in Hvis |- *. destruct (isSpace c); [now apply IH | discriminate]. }
  unfold nonBlank in Hline. unfold trim in Hline.
  rewrite (trimStart_blank line Hblank) in Hline. discriminate Hline.
Qed.



Lemma wrapLines_some_line
      (numberToString : Q -> jsstring)
      (measureText : jsstring -> jsstring -> Q)
      (text : jsstring) (metrics : Metrics) :
  wrapLines numberToString measureText text metrics <> [].
Proof.
  rewrite wrapLines_flat_map. unfold splitNewlines.
  destruct (splitNewlinesFrom_cons text []) as [seg [segs E]].
  rewrite E. destruct (includesEmpty (seg :: segs)) eqn:Ei.
  - rewrite filter_all by (intros x; apply orb_true_r).
    cbn [flat_map]. rewrite wrapSegment_snoc. intros H.
    apply (f_equal (@length jsstring)) in H.
    rewrite !length_app in H. simpl in H. lia.
  - apply includesEmpty_false in Ei. inversion Ei as [|? ? Hseg _]; subst.
    destruct (wrapSegment_some_line numberToString measureText metrics
                seg Hseg) as [l [Hl Hne]].
    intros H.
    assert (Hin : In l (filter (fun line : jsstring =>
                                  (0 <? length line)%nat || false)
                               (flat_map (wrapSegment numberToString
                                            measureText metrics)
                                         (seg :: segs)))).
    { apply filter_In. split.
      - cbn [flat_map]. apply in_or_app. now left.
      - destruct l; [contradiction | reflexivity]. }
    rewrite H in Hin. contradiction.
Qed.

(** X3: [wrapLines] never returns the empty list: whatever the text, the
    measurer and the metrics, there is at least one line; and every segment
    of the text has at least one of its lines in the output. *)
Theorem wrapLines_nonempty
        (numberToString : Q -> jsstring)
        (measureText : jsstring -> jsstring -> Q)
        (text : jsstring) (metrics : Metrics) :
  wrapLines numberToString measureText text metrics <> []
  /\ Forall (fun rawLine =>
               exists line : jsstring,
                 In line (wrapSegment numberToString measureText metrics
                                      rawLine)
                 /\ In line (wrapLines numberToString measureText text
                                       metrics))
            (splitNewlines text).
Proof.
  split; [apply wrapLines_some_line|].
  apply Forall_forall. intros rawLine Hraw.
  assert (Hline : exists line,
             In line (wrapSegment numberToString measureText metrics rawLine)
             /\ (line <> [] \/ rawLine = [])).
  { destruct rawLine as [|c s].
    - exists []. split; [now left | now right].
    - destruct (wrapSegment_some_line numberToString measureText metrics
                  (c :: s)) as [l [Hl Hne]]; [discriminate|].
      exists l. split; [exact Hl | now left]. }
  destruct Hline as [line [Hin Hkeep]]. exists line. split; [exact Hin|].
  rewrite wrapLines_flat_map. apply filter_In. split.
  - apply in_flat_map. now exists rawLine.
  - destruct Hkeep as [Hne | ->].
    + destruct line; [contradiction | reflexivity].
    + apply orb_true_iff. right. unfold includesEmpty.
      apply existsb_exists. now exists [].
Qed.

(** X4: the output holds an empty line exactly when the text holds an empty
    segment: a blank line of the input is kept, and without one no line of
    the output is empty. *)
Theorem wrapLines_empty_line_origin
        (numberToString : Q -> jsstring)
        (measureText : jsstring -> jsstring -> Q)
        (text : jsstring) (metrics : Metrics) :
  In [] (wrapLines numberToString measureText text metrics)
  <-> In [] (splitNewlines text).
Proof.
  split.
  - unfold wrapLines. intros H. apply filter_In in H as [_ H].
    cbn [length Nat.ltb Nat.leb orb] in H.
    unfold includesEmpty in H. apply existsb_exists in H as [l [Hl He]].
    now destruct l.
  - intros H. rewrite wrapLines_flat_map. apply filter_In. split.
    + apply in_flat_map. exists []. split; [exact H | now left].
    + cbn [length Nat.ltb Nat.leb orb]. unfold includesEmpty.
      apply existsb_exists. now exists [].
Qed.

Lemma wrapLines_empty_line_origin_witness :
  In [] (SampleHost.wrap [97; 10; 10; 98]%N 800).
Proof.
  apply (proj2 (wrapLines_empty_line_origin
                  SampleHost.numberToString SampleHost.measureText
                  [97; 10; 10; 98]%N (SampleHost.metricsOfWidth 800))).
  vm_compute. right. now left.
Defined.

(** ** Escaping and normalizing *)

Section Escaping.

Lemma escapeChar_safe (c : N) :
  isMarkupSignificant c = false -> escapeChar c = [c].
Proof.
  unfold isMarkupSignificant, escapeChar. intros H.
  repeat (apply orb_false_iff in H as [H ?]).
  now repeat match goal with E : (_ =? _)%N = false |- _ => rewrite E; clear E end.
Qed.

Lemma escapeChar_grows (c : N) :
  isMarkupSignificant c = true -> (1 < length (escapeChar c))%nat.
Proof.
  unfold isMarkupSignificant, escapeChar.
  destruct (c =? 38)%N; [simpl; lia|].
  destruct (c =? 60)%N; [simpl; lia|].
  destruct (c =? 62)%N; [simpl; lia|].
  destruct (c =? 34)%N; [simpl; lia|].
  destruct (c =? 39)%N; [simpl; lia | discriminate].
Qed.

Lemma escapeChar_length (c : N) : (1 <= length (escapeChar c))%nat.
Proof.
  destruct (isMarkupSignificant c) eqn:E.
  - apply escapeChar_grows in E. lia.
  - rewrite (escapeChar_safe c E). simpl. lia.
Qed.

Lemma escapeXml_length (s : jsstring) : (length s <= length (escapeXml s))%nat.
Proof.
  rewrite escapeXml_flat_map. induction s as [|c s IH]; [simpl; lia|].
  simpl. rewrite length_app. pose proof (escapeChar_length c). lia.
Qed.

(** The entity of a character tells the character, whatever follows. *)
Lemma escapeChar_prefix_free (c d : N) (s t : jsstring) :
  escapeChar c ++ s = escapeChar d ++ t -> c = d /\ s = t.
Proof.
  unfold escapeChar.
  destruct (c =? 38)%N eqn:C38; [apply N.eqb_eq in C38|];
  [|destruct (c =? 60)%N eqn:C60; [apply N.eqb_eq in C60|];
    [|destruct (c =? 62)%N eqn:C62; [apply N.eqb_eq in C62|];
      [|destruct (c =? 34)%N eqn:C34; [apply N.eqb_eq in C34|];
        [|destruct (c =? 39)%N eqn:C39; [apply N.eqb_eq in C39|]]]]];
  (destruct (d =? 38)%N eqn:D38; [apply N.eqb_eq in D38|];
   [|destruct (d =? 60)%N eqn:D60; [apply N.eqb_eq in D60|];
     [|destruct (d =? 62)%N eqn:D62; [apply N.eqb_eq in D62|];
       [|destruct (d =? 34)%N eqn:D34; [apply N.eqb_eq in D34|];
         [|destruct (d =? 39)%N eqn:D39; [apply N.eqb_eq in D39|]]]]]);
  simpl; intros H; try discriminate H; subst;
    try (injection H as H; subst);
    try (split; [reflexivity | assumption]);
    try (split; reflexivity);
    try (rewrite N.eqb_refl in *; discriminate).
Qed.

End Escaping.

(** X7: [escapeXml] loses nothing: two strings with the same escaped text
    are the same string. *)
Theorem escapeXml_injective (s t : jsstring) :
  escapeXml s = escapeXml t -> s = t.
Proof.
  rewrite !escapeXml_flat_map. revert t.
  induction s as [|c s IH]; intros [|d t] H.
  - reflexivity.
  - exfalso. simpl in H. apply (f_equal (@length N)) in H.
    rewrite length_app in H. pose proof (escapeChar_length d). simpl in H. lia.
  - exfalso. simpl in H. apply (f_equal (@length N)) in H.
    rewrite length_app in H. pose proof (escapeChar_length c). simpl in H. lia.
  - simpl in H. apply escapeChar_prefix_free in H as [-> H].
    now rewrite (IH t H).
Qed.

Lemma escapeXml_injective_witness : js "a<b" = js "a<b".
Proof. apply (escapeXml_injective (js "a<b") (js "a<b")). reflexivity. Defined.

(** X8: [escapeXml] returns its argument unchanged exactly when the argument
    holds none of the five characters; otherwise the result is longer. *)
Theorem escapeXml_fixed_iff_safe (s : jsstring) :
  (escapeXml s = s
   <-> forallb (fun c => negb (isMarkupSignificant c)) s = true)
  /\ (length s <= length (escapeXml s))%nat.
Proof.
  split; [|apply escapeXml_length]. split.
  - intros H. induction s as [|c s IH]; [reflexivity|].
    change (c :: s) with ([c] ++ s) in H.
    rewrite escapeXml_app, escapeXml_char in H. simpl forallb.
    destruct (isMarkupSignificant c) eqn:E.
    + exfalso. apply (f_equal (@length N)) in H.
      rewrite !length_app in H. simpl in H.
      pose proof (escapeChar_grows c E). pose proof (escapeXml_length s). lia.
    + rewrite (escapeChar_safe c E) in H. injection H as H. now apply IH.
  - intros H. rewrite escapeXml_flat_map.
    induction s as [|c s IH]; [reflexivity|].
    simpl in H. apply andb_true_iff in H as [Hc Hs].
    apply negb_true_iff in Hc. simpl.
    now rewrite (escapeChar_safe c Hc), (IH Hs).
Qed.

Lemma escapeXml_fixed_iff_safe_witness : escapeXml (js "Line one") = js "Line one".
Proof.
  apply (proj2 (proj1 (escapeXml_fixed_iff_safe (js "Line one")))).
  reflexivity.
Defined.

(** ** Separators *)

Section Separators.

Lemma in_trimStart (c : N) (s : jsstring) : In c (trimStart s) -> In c s.
Proof.
  induction s as [|d s IH]; simpl; [tauto|].
  destruct (isSpace d); [intros H; right; now apply IH | tauto].
Qed.

Lemma in_trim (c : N) (s : jsstring) : In c (trim s) -> In c s.
Proof.
  unfold trim, trimEnd. intros H.
  apply in_trimStart. apply in_rev. apply in_trimStart. now apply in_rev in H.
Qed.

Lemma freeOf_snoc (seps : list N) (s : jsstring) (c : N) :
  freeOf seps s -> ~ In c seps -> freeOf seps (s ++ [c]).
Proof.
  intros Hs Hc d Hd Hin. apply in_app_or in Hin as [Hin | [<- | []]].
  - exact (Hs d Hd Hin).
  - exact (Hc Hd).
Qed.

Lemma splitLinesOrPipe_pieces (n : nat) (s acc : jsstring) :
  (length s <= n)%nat -> freeOf [10; 124]%N acc ->
  Forall (freeOf [10; 124]%N) (splitLinesOrPipeFrom acc s).
Proof.
  revert s acc; induction n as [|n IH]; intros s acc Hlen Hacc.
  - destruct s; [now repeat constructor | simpl in Hlen; lia].
  - destruct s as [|c s]; [now repeat constructor|].
    assert (Hnil : freeOf [10; 124]%N []) by (intros d _ []).
    cbn [splitLinesOrPipeFrom].
    destruct ((c =? 10) || (c =? 124))%N eqn:E.
    { constructor; [exact Hacc|]. apply IH; [simpl in Hlen; lia | exact Hnil]. }
    apply orb_false_iff in E as [E10 E124].
    apply N.eqb_neq in E10, E124.
    assert (Hgo : Forall (freeOf [10; 124]%N)
                         (splitLinesOrPipeFrom (acc ++ [c]) s)).
    { apply IH; [simpl in Hlen; lia|]. apply freeOf_snoc; [exact Hacc|].
      intros [H | [H | []]]; congruence. }
    destruct (c =? 13)%N; [|exact Hgo].
    destruct s as [|d s]; [exact Hgo|].
    destruct (d =? 10)%N; [|exact Hgo].
    constructor; [exact Hacc|]. apply IH; [simpl in Hlen; lia | exact Hnil].
Qed.

(** A piece without separator is read in one go, up to the pipe or the end
    that follows it. *)
Lemma splitLinesOrPipe_piece (s acc rest : jsstring) :
  freeOf [10; 124]%N s ->
  rest = [] \/ (exists r, rest = 124%N :: r) ->
  splitLinesOrPipeFrom acc (s ++ rest) = splitLinesOrPipeFrom (acc ++ s) rest.
Proof.
  revert acc; induction s as [|c s IH]; intros acc Hs Hrest.
  - now rewrite app_nil_r.
  - assert (Hc10 : (c =? 10)%N = false).
    { apply N.eqb_neq. intros ->. apply (Hs 10%N); simpl; tauto. }
    assert (Hc124 : (c =? 124)%N = false).
    { apply N.eqb_neq. intros ->. apply (Hs 124%N); simpl; tauto. }
    assert (Hs' : freeOf [10; 124]%N s).
    { intros d Hd Hin. apply (Hs d Hd). now right. }
    assert (Hgo : splitLinesOrPipeFrom (acc ++ [c]) (s ++ rest)
                  = splitLinesOrPipeFrom (acc ++ c :: s) rest).
    { rewrite (IH (acc ++ [c]) Hs' Hrest), <- app_assoc. reflexivity. }
    cbn [app splitLinesOrPipeFrom]. rewrite Hc10, Hc124. cbn [orb].
    destruct (c =? 13)%N; [|exact Hgo].
    destruct (s ++ rest) as [|d u] eqn:E; [exact Hgo|].
    assert (Hd : (d =? 10)%N = false).
    { apply N.eqb_neq. intros ->. destruct s as [|d' s2].
      - simpl in E. destruct Hrest as [-> | [r ->]]; discriminate.
      - injection E as -> _. apply (Hs' 10%N); simpl; tauto. }
    now rewrite Hd.
Qed.

Lemma splitLinesOrPipe_join (l : jsstring) (ls : list jsstring) (acc : jsstring) :
  Forall (freeOf [10; 124]%N) (l :: ls) ->
  splitLinesOrPipeFrom acc (join (js "|") (l :: ls)) = (acc ++ l) :: ls.
Proof.
  revert l acc; induction ls as [|l' ls IH]; intros l acc H.
  - inversion H as [|? ? Hl _]; subst. cbn [join].
    rewrite <- (app_nil_r l) at 1.
    rewrite (splitLinesOrPipe_piece l acc [] Hl) by now left. reflexivity.
  - inversion H as [|? ? Hl Hls]; subst.
    change (join (js "|") (l :: l' :: ls))
      with (l ++ 124%N :: join (js "|") (l' :: ls)).
    rewrite (splitLinesOrPipe_piece l acc _ Hl) by (right; now eexists).
    cbn [splitLinesOrPipeFrom N.eqb orb Pos.eqb].
    now rewrite (IH l' [] Hls).
Qed.

Lemma splitNewlines_piece (s acc rest : jsstring) :
  ~ In 10%N s ->
  rest = [] \/ (exists r, rest = 10%N :: r /\ last s 0%N <> 13%N) ->
  splitNewlinesFrom acc (s ++ rest) = splitNewlinesFrom (acc ++ s) rest.
Proof.
  revert acc; induction s as [|c s IH]; intros acc Hs Hrest.
  - now rewrite app_nil_r.
  - assert (Hc10 : (c =? 10)%N = false).
    { apply N.eqb_neq. intros ->. apply Hs. now left. }
    assert (Hs' : ~ In 10%N s) by (intros Hin; apply Hs; now right).
    destruct s as [|d s2].
    + cbn [app splitNewlinesFrom]. rewrite Hc10.
      destruct (c =? 13)%N eqn:E13; [|reflexivity].
      apply N.eqb_eq in E13. subst c.
      destruct Hrest as [-> | [r [-> Hlast]]]; [reflexivity|].
      now contradiction Hlast.
    + assert (Hrest' : rest = []
                       \/ (exists r, rest = 10%N :: r
                                     /\ last (d :: s2) 0%N <> 13%N)).
      { destruct Hrest as [-> | [r [-> Hlast]]]; [now left|].
        right. exists r. split; [reflexivity | exact Hlast]. }
      assert (Hgo : splitNewlinesFrom (acc ++ [c]) ((d :: s2) ++ rest)
                    = splitNewlinesFrom (acc ++ c :: d :: s2) rest).
      { rewrite (IH (acc ++ [c]) Hs' Hrest'), <- app_assoc. reflexivity. }
      assert (Hd : (d =? 10)%N = false).
      { apply N.eqb_neq. intros ->. apply Hs'. now left. }
      change ((c :: d :: s2) ++ rest) with (c :: d :: (s2 ++ rest)).
      change ((d :: s2) ++ rest) with (d :: (s2 ++ rest)) in Hgo.
      cbn [splitNewlinesFrom] in Hgo |- *. rewrite Hc10, Hd in *.
      destruct (c =? 13)%N; exact Hgo.
Qed.

End Separators.

(** X9: no line that [normalizeLines] makes of a string holds a line feed or
    a pipe: the separators never reach the lines. *)
Theorem normalizeLines_no_separators (s : jsstring) :
  Forall (fun line => ~ In 10%N line /\ ~ In 124%N line)
         (normalizeLines (TLString s)).
Proof.
  assert (H : Forall (fun line => ~ In 10%N line /\ ~ In 124%N line)
                     (filter JsString.truthy (map trim (splitLinesOrPipe s)))).
  { pose proof (splitLinesOrPipe_pieces (length s) s [] (le_n _)) as Hp.
    unfold splitLinesOrPipe.
    assert (Hnil : freeOf [10; 124]%N []) by (intros d _ []).
    specialize (Hp Hnil). rewrite Forall_forall in Hp |- *.
    intros line Hline. apply filter_In in Hline as [Hline _].
    apply in_map_iff in Hline as [piece [<- Hpiece]].
    specialize (Hp piece Hpiece).
    split; intros Hin; apply in_trim in Hin.
    - apply (Hp 10%N); simpl; tauto.
    - apply (Hp 124%N); simpl; tauto. }
  destruct s; [constructor | exact H].
Qed.

(** X10: a list of lines and the string that joins them with pipes normalize
    to the same lines, provided no member of the list holds a line feed or
    a pipe. *)
Theorem normalizeLines_pipe_join (l : list jsstring) :
  Forall (fun line => ~ In 10%N line /\ ~ In 124%N line) l ->
  normalizeLines (TLString (join (js "|") l)) = normalizeLines (TLArray l).
Proof.
  intros H. destruct l as [|x l]; [reflexivity|].
  assert (Hfree : Forall (freeOf [10; 124]%N) (x :: l)).
  { eapply Forall_impl; [|exact H]. intros line [H10 H124] c [<- | [<- | []]];
      assumption. }
  assert (Hsplit : splitLinesOrPipe (join (js "|") (x :: l)) = x :: l).
  { unfold splitLinesOrPipe. now rewrite (splitLinesOrPipe_join x l [] Hfree). }
  assert (Hstr : forall s, normalizeLines (TLString s)
                           = filter JsString.truthy
                                    (map trim (splitLinesOrPipe s))).
  { intros [|c s]; reflexivity. }
  rewrite Hstr, Hsplit. reflexivity.
Qed.

Lemma normalizeLines_pipe_join_witness :
  normalizeLines (TLString (join (js "|") [js "Line one"; js " Line two "]))
  = normalizeLines (TLArray [js "Line one"; js " Line two "]).
Proof.
  apply (normalizeLines_pipe_join [js "Line one"; js " Line two "]).
  repeat constructor; vm_compute; intuition discriminate.
Defined.

(** X11: joining lines with newlines and splitting the result gives the lines
    back, provided there is at least one line, no line holds a line feed and
    no line ends with a carriage return (which the split would swallow). *)
Theorem splitNewlines_join (l : list jsstring) :
  l <> [] ->
  Forall (fun line => ~ In 10%N line /\ last line 0%N <> 13%N) l ->
  splitNewlines (join newline l) = l.
Proof.
  intros Hne H. destruct l as [|x l]; [contradiction|]. clear Hne.
  unfold splitNewlines. change x with ([] ++ x) at 2. generalize (@nil N).
  revert x H; induction l as [|x' l IH]; intros x H acc.
  - inversion H as [|? ? [Hx _] _]; subst. cbn [join].
    rewrite <- (app_nil_r x) at 1.
    rewrite (splitNewlines_piece x acc [] Hx) by now left. reflexivity.
  - inversion H as [|? ? [Hx Hlast] Hl]; subst.
    change (join newline (x :: x' :: l))
      with (x ++ 10%N :: join newline (x' :: l)).
    rewrite (splitNewlines_piece x acc _ Hx) by (right; now eexists).
    cbn [splitNewlinesFrom N.eqb Pos.eqb].
    now rewrite (IH x' Hl []).
Qed.

Lemma splitNewlines_join_witness :
  splitNewlines (join newline [js "Line one"; []; js "Line two"])
  = [js "Line one"; []; js "Line two"].
Proof.
  apply (splitNewlines_join [js "Line one"; []; js "Line two"]).
  - discriminate.
  - repeat constructor; vm_compute; intuition discriminate.
Defined.

(** ** Metrics and baselines *)

Section Geometry.

Open Scope Q_scope.

Lemma orElse_truthy (a b : Q) :
  JsNum.truthy b = true -> JsNum.truthy (JsNum.orElse a b) = true.
Proof.
  intros H. unfold JsNum.orElse. now destruct (JsNum.truthy a) eqn:E.
Qed.

Lemma orElseOpt_truthy (a : option Q) (b : Q) :
  JsNum.truthy b = true -> JsNum.truthy (JsNum.orElseOpt a b) = true.
Proof. destruct a; [apply orElse_truthy | easy]. Qed.

Lemma strOrElse_truthy (a b : jsstring) : b <> [] -> JsString.orElse a b <> [].
Proof.
  intros H. unfold JsString.orElse. destruct a; [exact H | discriminate].
Qed.

Lemma in_mapIndexFrom {A B : Type} (f : A -> nat -> B) (l : list A)
      (start : nat) (y : B) :
  In y (mapIndexFrom f start l) ->
  exists x i, y = f x (start + i)%nat /\ (i < length l)%nat.
Proof.
  revert start; induction l as [|x l IH]; intros start H; [contradiction|].
  destruct H as [<- | H].
  - exists x, 0%nat. rewrite Nat.add_0_r. split; [reflexivity | simpl; lia].
  - destruct (IH _ H) as [x' [i [-> Hi]]]. exists x', (S i).
    split; [f_equal; lia | simpl; lia].
Qed.

Lemma ofNat_le (i n : nat) : (i <= n)%nat -> JsNum.ofNat i <= JsNum.ofNat n.
Proof. intros H. unfold JsNum.ofNat. rewrite <- Zle_Qle. lia. Qed.

Lemma ofNat_S (n : nat) : JsNum.ofNat (S n) == JsNum.ofNat n + 1.
Proof.
  unfold JsNum.ofNat. rewrite Nat2Z.inj_succ. unfold Z.succ.
  now rewrite inject_Z_plus.
Qed.

End Geometry.

(** X12: [getMetrics] never hands out a zero font size, a zero width, an empty
    font family or an empty font weight, and always gives a height: what the
    browser leaves out is filled in with 16, 800, Arial Black and 600. *)
Theorem getMetrics_defaults
        (getComputedStyle : Element -> ComputedStyle)
        (getBoundingClientRect : Element -> Box)
        (element : Element) :
  let metrics := getMetrics getComputedStyle getBoundingClientRect element in
  JsNum.truthy (fontSize metrics) = true
  /\ JsNum.truthy (width metrics) = true
  /\ fontFamily metrics <> []
  /\ fontWeight metrics <> []
  /\ height metrics <> None
  /\ (1 <= maxWidthOf metrics)%Q.
Proof.
  cbv zeta. unfold getMetrics. cbn [fontSize width fontFamily fontWeight height].
  repeat split.
  - now apply orElseOpt_truthy.
  - now apply orElse_truthy, orElse_truthy.
  - now apply strOrElse_truthy.
  - now apply strOrElse_truthy.
  - discriminate.
  - apply max_ge_right.
Qed.

(** X13: without a truthy explicit height, with a positive line height and at
    least one line, the first baseline is at exactly 60% of a line height
    (the centering term is the smaller one), and every baseline lies inside
    the image: at least 60% of a line height from its top and short of its
    height. *)
Theorem buildMask_baselines (lines : list jsstring) (metrics : Metrics) :
  JsNum.truthyOpt (height metrics) = false ->
  (0 < lineHeightOf metrics)%Q ->
  lines <> [] ->
  startYOf lines metrics = (lineHeightOf metrics * 0.6)%Q
  /\ Forall (fun t => (lineHeightOf metrics * 0.6 <= tspanY t
                       /\ tspanY t < maskHeightOf lines metrics)%Q)
            (tspanLayout lines metrics).
Proof.
  intros Hfalsy Hlh Hne.
  set (lh := lineHeightOf metrics) in *.
  set (n := JsNum.ofNat (length lines)).
  assert (Hn : (1 <= n)%Q).
  { subst n. destruct lines as [|x l]; [contradiction|].
    change 1%Q with (JsNum.ofNat 1). apply ofNat_le. simpl. lia. }
  assert (Hprod : (lh <= lh * n)%Q).
  { rewrite <- (Qmult_1_r lh) at 1.
    apply Qmult_le_l; [exact Hlh | exact Hn]. }
  assert (Hheight : (maskHeightOf lines metrics == lh * n)%Q).
  { unfold maskHeightOf. rewrite orElseOpt_falsy by exact Hfalsy.
    fold lh n. unfold JsNum.max. destruct (Qle_bool (lh * n) lh) eqn:E.
    - apply Qle_bool_iff in E. now apply Qle_antisym.
    - reflexivity. }
  assert (Hstart : startYOf lines metrics = (lh * 0.6)%Q).
  { unfold startYOf. fold lh n. apply max_right.
    rewrite Hheight. clearbody lh n.
    setoid_replace ((lh * n - lh * (n - 1)) / 2) with (lh / 2) by field.
    apply Qle_shift_div_r; [reflexivity | lra]. }
  split; [exact Hstart|].
  rewrite Forall_forall. intros t Ht. unfold tspanLayout, mapIndex in Ht.
  apply in_mapIndexFrom in Ht as [line [i [-> Hi]]]. cbn [tspanY].
  rewrite Hstart. fold lh. cbn [Nat.add].
  assert (H0 : (0 <= JsNum.ofNat i * lh)%Q).
  { apply Qmult_le_0_compat; [|now apply Qlt_le_weak].
    change 0%Q with (JsNum.ofNat 0). apply ofNat_le. lia. }
  split.
  - setoid_replace (lh * 0.6)%Q with (lh * 0.6 + 0)%Q at 1 by ring.
    now apply Qplus_le_r.
  - rewrite Hheight.
    assert (Hi' : (JsNum.ofNat i + 1 <= n)%Q).
    { rewrite <- ofNat_S. subst n. apply ofNat_le. lia. }
    apply Qlt_le_trans with ((JsNum.ofNat i + 1) * lh)%Q.
    + setoid_replace ((JsNum.ofNat i + 1) * lh)%Q
        with (lh * 1 + JsNum.ofNat i * lh)%Q by ring.
      apply Qplus_lt_le_compat; [|apply Qle_refl].
      apply Qmult_lt_l; [exact Hlh | reflexivity].
    + rewrite (Qmult_comm lh n).
      apply Qmult_le_compat_r; [exact Hi' | now apply Qlt_le_weak].
Qed.

Lemma buildMask_baselines_witness :
  startYOf [js "Line one"; js "Line two"] (SampleHost.metricsOfWidth 800)
  = (28 * 0.6)%Q.
Proof.
  apply (buildMask_baselines [js "Line one"; js "Line two"]
                             (SampleHost.metricsOfWidth 800)).
  - reflexivity.
  - reflexivity.
  - discriminate.
Defined.

(** ** The store *)

Section Store.

Lemma strEqb_eq (a b : jsstring) : strEqb a b = true <-> a = b.
Proof.
  revert b; induction a as [|c a IH]; intros [|d b]; simpl;
    try (split; [discriminate | discriminate]); [tauto|].
  rewrite andb_true_iff, N.eqb_eq, IH. split.
  - now intros [-> ->].
  - intros [= -> ->]. now split.
Qed.

Lemma getElementById_store_any (id : jsstring) (e : Element) (doc : Document) :
  getElementById id (storeElement id e doc)
  = match getElementById id doc with Some _ => Some e | None => None end.
Proof.
  induction doc as [|[i x] doc IH]; [reflexivity|]. simpl.
  destruct (strEqb i id) eqn:E; simpl; rewrite E; [reflexivity | exact IH].
Qed.

End Store.

(** ** The effects of apply *)

Section ApplyEffects.

Variable numberToString : Q -> jsstring.
Variable percentEncode : jsstring -> jsstring.
Variable measureText : jsstring -> jsstring -> Q.
Variable getComputedStyle : Element -> ComputedStyle.
Variable getBoundingClientRect : Element -> Box.

Abbreviation run :=
  (apply numberToString percentEncode measureText
         getComputedStyle getBoundingClientRect).
Abbreviation runOptions :=
  (applyOptions numberToString percentEncode measureText
                getComputedStyle getBoundingClientRect).
Abbreviation paint :=
  (paintMask numberToString percentEncode
             getComputedStyle getBoundingClientRect).

Lemma paintMask_touched (id : jsstring) (content : Element)
      (text : jsstring) (lines : list jsstring) (w : World) (canvas : bool) :
  getElementById id (document w) = Some content ->
  canvas = measureCanvas w \/ canvas = true ->
  touched id w
    (snd (paint id (withText content text) lines
                {| document := storeElement id (withText content text)
                                            (document w);
                   console := console w;
                   measureCanvas := canvas |})).
Proof.
  intros Hc Hcanvas. right. exists content, text.
  unfold paintMask. destruct (buildMask _ _ _ _) as [image|e]; cbn.
  - repeat split; try assumption. right. now eexists.
  - repeat split; try assumption. now left.
Qed.

Lemma applyOptions_touched (o : Options) (w : World) :
  touched (orDefault (contentId o) (js "bright-content")) w
          (snd (runOptions o w)).
Proof.
  unfold applyOptions.
  destruct (getElementById (orDefault (containerId o) _) _) as [container|];
    [|left; now eexists].
  destruct (getElementById (orDefault (contentId o) _) _) as [content|] eqn:Ec;
    [|left; now eexists].
  destruct (normalizeLines (textLines o)) as [|l ls].
  - destruct (trim (lookupText container content)); [left; now eexists|].
    unfold writeText, setDocument, measureContext. cbn [document console].
    apply paintMask_touched; [exact Ec | now right].
  - unfold writeText, setDocument.
    apply paintMask_touched; [exact Ec | now left].
Qed.

End ApplyEffects.

Lemma touched_frame (id : jsstring) (w w' : World) :
  touched id w w' ->
  (forall e', getElementById id (document w') = Some e' ->
     exists e, getElementById id (document w) = Some e
               /\ nodeKey e' = nodeKey e /\ brightText e' = brightText e)
  /\ (measureCanvas w = true -> measureCanvas w' = true)
  /\ (exists msgs, console w' = console w ++ msgs /\ (length msgs <= 1)%nat).
Proof.
  intros [[msg ->] | [content [text [Hc [Hconsole [Hcanvas Hdoc]]]]]].
  - cbn. split; [|split].
    + intros e' He'. now exists e'.
    + tauto.
    + exists [msg]. split; [reflexivity | simpl; lia].
  - split; [|split].
    + intros e' He'. exists content. split; [exact Hc|].
      destruct Hdoc as [Hdoc | [sty Hdoc]]; rewrite Hdoc in He';
        rewrite !getElementById_store_any, Hc in He';
        injection He' as <-; now split.
    + intros Hw. destruct Hcanvas as [-> | ->]; [exact Hw | reflexivity].
    + exists []. rewrite app_nil_r. split; [exact Hconsole | simpl; lia].
Qed.

(** X14: whatever the argument and however it ends, [apply] keeps the
    identity and the data attribute of the content element; the measuring
    canvas, once made, stays, and the console gets one line at most. *)
Theorem apply_frame
        (numberToString : Q -> jsstring)
        (percentEncode : jsstring -> jsstring)
        (measureText : jsstring -> jsstring -> Q)
        (getComputedStyle : Element -> ComputedStyle)
        (getBoundingClientRect : Element -> Box)
        (options : Argument) (w : World) :
  let id := orDefault (contentId (optionsOf options)) (js "bright-content") in
  let w' := snd (apply numberToString percentEncode measureText
                       getComputedStyle getBoundingClientRect options w) in
  (forall e', getElementById id (document w') = Some e' ->
     exists e, getElementById id (document w) = Some e
               /\ nodeKey e' = nodeKey e /\ brightText e' = brightText e)
  /\ (measureCanvas w = true -> measureCanvas w' = true)
  /\ (exists msgs, console w' = console w ++ msgs /\ (length msgs <= 1)%nat).
Proof.
  intros id w'. subst id w'. destruct options as [| |o]; cbn [apply optionsOf snd].
  - apply touched_frame, applyOptions_touched.
  - split; [|split].
    + intros e' He'. now exists e'.
    + tauto.
    + exists []. rewrite app_nil_r. split; [reflexivity | simpl; lia].
  - apply touched_frame, applyOptions_touched.
Qed.

Lemma apply_frame_witness :
  measureCanvas
    (snd (SampleHost.run ArgUndefined
            {| document := document (SampleHost.page (js "Hello"));
               console := []; measureCanvas := true |}))
  = true.
Proof.
  apply (proj1 (proj2 (apply_frame
                  SampleHost.numberToString SampleHost.percentEncode
                  SampleHost.measureText SampleHost.getComputedStyle
                  SampleHost.getBoundingClientRect
                  ArgUndefined
                  {| document := document (SampleHost.page (js "Hello"));
                     console := []; measureCanvas := true |}))).
  reflexivity.
Defined.

(** X15: on the lookup path (no manual line, a source text that is not blank)
    [apply] makes the measuring canvas, wraps the trimmed source text with
    the metrics of the content element, and shows the wrapped lines joined by
    newlines; these same lines go to [buildMask], and when it returns its
    image that image becomes the mask.  There is always a line to show. *)
Theorem apply_wrapped_text
        (numberToString : Q -> jsstring)
        (percentEncode : jsstring -> jsstring)
        (measureText : jsstring -> jsstring -> Q)
        (getComputedStyle : Element -> ComputedStyle)
        (getBoundingClientRect : Element -> Box)
        (o : Options) (w : World) (container content : Element) :
  containerOf o w = Some container ->
  contentOf o w = Some content ->
  normalizeLines (textLines o) = [] ->
  trim (lookupText container content) <> [] ->
  let lines :=
    wrapLines numberToString measureText
              (trim (lookupText container content))
              (getMetrics getComputedStyle getBoundingClientRect content) in
  let shown := withText content (join newline lines) in
  let built :=
    buildMask numberToString percentEncode lines
      (maskMetrics (getMetrics getComputedStyle getBoundingClientRect shown)
                   lines) in
  lines <> []
  /\ exists (outcome : Completion unit) (w' : World),
      apply numberToString percentEncode measureText
            getComputedStyle getBoundingClientRect (ArgObject o) w
      = (outcome, w')
      /\ measureCanvas w' = true
      /\ console w' = console w
      /\ (exists e : Element,
             contentOf o w' = Some e /\ textContent e = join newline lines)
      /\ forall image : MaskImage,
          built = Normal image ->
          outcome = Normal tt
          /\ contentOf o w'
             = Some (withStyle shown (maskStyle numberToString image)).
Proof.
  intros Hk Hc Hm Ht lines shown built.
  split; [apply wrapLines_some_line|].
  cbn [apply]. unfold applyOptions.
  unfold containerOf, contentOf in *. rewrite Hk, Hc, Hm.
  destruct (trim (lookupText container content)) as [|c t] eqn:Et;
    [contradiction|].
  fold lines. unfold writeText. fold shown. unfold paintMask. fold built.
  unfold setDocument, measureContext. cbn [document console measureCanvas].
  destruct built as [image|err].
  - eexists _, _. split; [reflexivity|]. cbn [document console measureCanvas].
    split; [reflexivity|]. split; [reflexivity|]. split.
    + eexists. split; [now rewrite !getElementById_store_any, Hc|].
      reflexivity.
    + intros image' [= <-]. split; [reflexivity|].
      now rewrite !getElementById_store_any, Hc.
  - eexists _, _. split; [reflexivity|]. cbn [document console measureCanvas].
    split; [reflexivity|]. split; [reflexivity|]. split.
    + eexists. split; [now rewrite !getElementById_store_any, Hc|].
      reflexivity.
    + intros image' [=].
Qed.

Lemma apply_wrapped_text_witness :
  exists w' : World,
    SampleHost.run ArgUndefined (SampleHost.page (js " Hello World "))
    = (Normal tt, w')
    /\ option_map textContent
                  (getElementById (js "bright-content") (document w'))
       = Some (js "Hello World")
    /\ measureCanvas w' = true.
Proof.
  destruct (apply_wrapped_text
              SampleHost.numberToString SampleHost.percentEncode
              SampleHost.measureText SampleHost.getComputedStyle
              SampleHost.getBoundingClientRect
              {| containerId := None; contentId := None;
                 textLines := TLUndefined |}
              (SampleHost.page (js " Hello World "))
              (SampleHost.element 1 None [])
              (SampleHost.element 2 None (js " Hello World ")))
    as [_ [outcome [w' [Hrun [Hcanvas [_ [[e [He Htext]] Himage]]]]]]].
  - reflexivity.
  - reflexivity.
  - reflexivity.
  - vm_compute. discriminate.
  - destruct (Himage _ eq_refl) as [-> _].
    exists w'. split; [exact Hrun|]. split; [|exact Hcanvas].
    assert (He' : getElementById (js "bright-content") (document w') = Some e)
      by exact He.
    rewrite He'. cbn [option_map]. rewrite Htext. vm_compute. reflexivity.
Defined.

(** X16: when [textLines] gives no manual line, a data attribute on the
    content element that is not empty but blank hides the two other sources:
    [apply] warns that no text was provided and touches nothing, whatever
    the data attribute of the container and the text of the content element
    hold. *)
Theorem apply_blank_data_attribute
        (numberToString : Q -> jsstring)
        (percentEncode : jsstring -> jsstring)
        (measureText : jsstring -> jsstring -> Q)
        (getComputedStyle : Element -> ComputedStyle)
        (getBoundingClientRect : Element -> Box)
        (o : Options) (w : World) (container content : Element)
        (data : jsstring) :
  containerOf o w = Some container ->
  contentOf o w = Some content ->
  normalizeLines (textLines o) = [] ->
  brightText content = Some data ->
  data <> [] ->
  trim data = [] ->
  apply numberToString percentEncode measureText
        getComputedStyle getBoundingClientRect (ArgObject o) w
  = (Normal tt, warn (js "[BrightMode] no text provided") w).
Proof.
  intros Hk Hc Hm Hdata Hne Hblank. cbn [apply].
  apply (applyOptions_no_text _ _ _ _ _ o w container content Hk Hc Hm).
  unfold lookupText. rewrite Hdata. destruct data; [contradiction | exact Hblank].
Qed.

Lemma apply_blank_data_attribute_witness :
  SampleHost.run
    ArgUndefined
    {| document := [(js "bright-container",
                     SampleHost.element 1 (Some (js "Container text")) []);
                    (js "bright-content",
                     SampleHost.element 2 (Some (js " ")) (js "Hello"))];
       console := []; measureCanvas := false |}
  = (Normal tt,
     warn (js "[BrightMode] no text provided")
          {| document := [(js "bright-container",
                           SampleHost.element 1 (Some (js "Container text")) []);
                          (js "bright-content",
                           SampleHost.element 2 (Some (js " ")) (js "Hello"))];
             console := []; measureCanvas := false |}).
Proof.
  apply (apply_blank_data_attribute
           SampleHost.numberToString SampleHost.percentEncode
           SampleHost.measureText SampleHost.getComputedStyle
           SampleHost.getBoundingClientRect
           {| containerId := None; contentId := None;
              textLines := TLUndefined |}
           _
           (SampleHost.element 1 (Some (js "Container text")) [])
           (SampleHost.element 2 (Some (js " ")) (js "Hello"))
           (js " ")).
  - reflexivity.
  - reflexivity.
  - reflexivity.
  - reflexivity.
  - discriminate.
  - reflexivity.
Defined.

(** X17: the listener of [bright.js] leaves a page that lacks one of the two
    default elements exactly as it is, without a warning; on any page it ends
    without a TypeError, and the only line it can log is that no text was
    provided. *)
Theorem brightOnLoad_quiet
        (numberToString : Q -> jsstring)
        (percentEncode : jsstring -> jsstring)
        (measureText : jsstring -> jsstring -> Q)
        (getComputedStyle : Element -> ComputedStyle)
        (getBoundingClientRect : Element -> Box)
        (w : World) :
  let result := brightOnLoad numberToString percentEncode measureText
                             getComputedStyle getBoundingClientRect w in
  (getElementById (js "bright-container") (document w) = None
   \/ getElementById (js "bright-content") (document w) = None ->
   result = (Normal tt, w))
  /\ (fst result = Normal tt \/ fst result = Throw URIError)
  /\ (console (snd result) = console w
      \/ console (snd result)
         = console w ++ [js "[BrightMode] no text provided"]).
Proof.
  cbv zeta. unfold brightOnLoad.
  destruct (getElementById (js "bright-container") (document w))
    as [container|] eqn:Ek;
    [|repeat split; [now left | now left]].
  destruct (getElementById (js "bright-content") (document w))
    as [content|] eqn:Ec;
    [|repeat split; [now left | now left]].
  split; [intros [H | H]; discriminate H|]. cbn [apply].
  split; [apply applyOptions_outcome|].
  unfold applyOptions. cbn [orDefault containerId contentId textLines].
  rewrite Ek, Ec. cbn [normalizeLines].
  destruct (trim (lookupText container content)); [now right|].
  left. unfold writeText.
  match goal with |- context [paintMask ?a ?b ?c ?d ?i ?e ?l ?x] =>
    destruct (paintMask_world a b c d i e l x) as [-> _] end.
  reflexivity.
Qed.

Lemma brightOnLoad_quiet_witness :
  brightOnLoad SampleHost.numberToString SampleHost.percentEncode
               SampleHost.measureText SampleHost.getComputedStyle
               SampleHost.getBoundingClientRect
               {| document := [(js "bright-container",
                                SampleHost.element 1 None (js "Hello"))];
                  console := []; measureCanvas := false |}
  = (Normal tt,
     {| document := [(js "bright-container",
                      SampleHost.element 1 None (js "Hello"))];
        console := []; measureCanvas := false |}).
Proof.
  apply (proj1 (brightOnLoad_quiet
                  SampleHost.numberToString SampleHost.percentEncode
                  SampleHost.measureText SampleHost.getComputedStyle
                  SampleHost.getBoundingClientRect
                  {| document := [(js "bright-container",
                                   SampleHost.element 1 None (js "Hello"))];
                     console := []; measureCanvas := false |})).
  right. reflexivity.
Defined.

(** ** encrypt.js *)

(** *** The tree *)

Section DomFacts.

Lemma Node_induction (P : Dom.Node -> Prop) :
  (forall data, P (Dom.Text data)) ->
  (forall i children, Forall P children -> P (Dom.Element i children)) ->
  forall n, P n.
Proof.
  intros HText HElement. fix IH 1. intros [data|i children].
  - apply HText.
  - apply HElement. induction children as [|c cs IHcs]; constructor.
    + apply IH.
    + exact IHcs.
Qed.

Lemma findFirst_cons {A B : Type} (f : A -> option B) (x : A) (l : list A) :
  Dom.findFirst f (x :: l)
  = match f x with Some y => Some y | None => Dom.findFirst f l end.
Proof. reflexivity. Qed.

Lemma updateFirst_cons {A : Type} (f : A -> option A) (x : A) (l : list A) :
  Dom.updateFirst f (x :: l)
  = match f x with
    | Some x' => Some (x' :: l)
    | None => option_map (cons x) (Dom.updateFirst f l)
    end.
Proof. reflexivity. Qed.

Lemma findFirst_None {A B : Type} (f : A -> option B) (l : list A) :
  Dom.findFirst f l = None <-> Forall (fun x => f x = None) l.
Proof.
  induction l as [|a l IH]; [split; [constructor | reflexivity]|].
  rewrite findFirst_cons. split.
  - destruct (f a) eqn:E; [discriminate|]. intros H. constructor; tauto.
  - intros H. inversion H as [|? ? Ha Hl]. subst. rewrite Ha. tauto.
Qed.

Lemma findFirst_Some {A B : Type} (f : A -> option B) (l : list A) (y : B) :
  Dom.findFirst f l = Some y -> exists x, In x l /\ f x = Some y.
Proof.
  induction l as [|a l IH]; [discriminate|].
  rewrite findFirst_cons. destruct (f a) as [b|] eqn:E.
  - intros [= <-]. exists a. split; [now left | exact E].
  - intros H. destruct (IH H) as (x & Hx & Hy).
    exists x. split; [now right | exact Hy].
Qed.

Lemma updateFirst_None {A : Type} (f : A -> option A) (l : list A) :
  Dom.updateFirst f l = None <-> Forall (fun x => f x = None) l.
Proof.
  induction l as [|a l IH]; [split; [constructor | reflexivity]|].
  rewrite updateFirst_cons. split.
  - destruct (f a) eqn:E; [discriminate|].
    destruct (Dom.updateFirst f l); [discriminate|].
    intros _. constructor; tauto.
  - intros H. inversion H as [|? ? Ha Hl]. subst. rewrite Ha.
    apply IH in Hl. now rewrite Hl.
Qed.

Lemma updateFirst_Some {A : Type} (f : A -> option A) (l l' : list A) :
  Dom.updateFirst f l = Some l' ->
  exists pre x x' post,
    l = pre ++ x :: post /\ l' = pre ++ x' :: post /\ f x = Some x'
    /\ Forall (fun y => f y = None) pre.
Proof.
  revert l'. induction l as [|a l IH]; intros l'; [discriminate|].
  rewrite updateFirst_cons. destruct (f a) as [a'|] eqn:E.
  - intros [= <-]. exists [], a, a', l.
    split; [reflexivity|]. split; [reflexivity|]. split; [exact E|].
    constructor.
  - destruct (Dom.updateFirst f l) as [m|] eqn:Em; [|discriminate].
    simpl. intros [= <-].
    destruct (IH m eq_refl) as (pre & x & x' & post & -> & -> & Hx & Hpre).
    exists (a :: pre), x, x', post.
    split; [reflexivity|]. split; [reflexivity|]. split; [exact Hx|].
    now constructor.
Qed.

Lemma hasId_same (i k id : jsstring) :
  Dom.hasId i k = true -> Dom.hasId i id = true -> k = id.
Proof.
  unfold Dom.hasId. intros H1 H2.
  apply andb_true_iff in H1 as [_ H1]. apply andb_true_iff in H2 as [_ H2].
  apply strEqb_eq in H1, H2. congruence.
Qed.

Lemma setTextIn_Element (id s i : jsstring) (children : list Dom.Node) :
  Dom.setTextIn id s (Dom.Element i children)
  = if Dom.hasId i id then Some (Dom.Element i (Dom.textChildren s))
    else option_map (Dom.Element i)
                    (Dom.updateFirst (Dom.setTextIn id s) children).
Proof. reflexivity. Qed.

Lemma findIn_Element (id i : jsstring) (children : list Dom.Node) :
  Dom.findIn id (Dom.Element i children)
  = if Dom.hasId i id then Some (Dom.Element i children)
    else Dom.findFirst (Dom.findIn id) children.
Proof. reflexivity. Qed.

Lemma countId_Element (id i : jsstring) (children : list Dom.Node) :
  Dom.countId id (Dom.Element i children)
  = ((if Dom.hasId i id then 1 else 0) + Dom.countIn id children)%nat.
Proof. reflexivity. Qed.

Lemma countIn_cons (id : jsstring) (n : Dom.Node) (l : list Dom.Node) :
  Dom.countIn id (n :: l) = (Dom.countId id n + Dom.countIn id l)%nat.
Proof. reflexivity. Qed.

Lemma countIn_app (id : jsstring) (a b : list Dom.Node) :
  Dom.countIn id (a ++ b) = (Dom.countIn id a + Dom.countIn id b)%nat.
Proof. unfold Dom.countIn. now rewrite map_app, list_sum_app. Qed.

Lemma countIn_zero (id : jsstring) (l : list Dom.Node) :
  Dom.countIn id l = 0%nat <-> Forall (fun n => Dom.countId id n = 0%nat) l.
Proof.
  induction l as [|n l IH]; [split; [constructor | reflexivity]|].
  rewrite countIn_cons. split.
  - intros H. constructor; [lia | apply IH; lia].
  - intros H. inversion H as [|? ? Hn Hl]. subst. apply IH in Hl. lia.
Qed.

Lemma countIn_textChildren (id t : jsstring) :
  Dom.countIn id (Dom.textChildren t) = 0%nat.
Proof. now destruct t. Qed.

Lemma updateFirst_textChildren (id s t : jsstring) :
  Dom.updateFirst (Dom.setTextIn id s) (Dom.textChildren t) = None.
Proof. now destruct t. Qed.

Lemma textContent_textChildren (i s : jsstring) :
  Dom.textContent (Dom.Element i (Dom.textChildren s)) = s.
Proof. destruct s; [reflexivity|]. simpl. now rewrite app_nil_r. Qed.

Lemma settled_Element (id s i : jsstring) (children : list Dom.Node) :
  Dom.settled id s (Dom.Element i children)
  <-> (Dom.hasId i id = true -> children = Dom.textChildren s)
      /\ Forall (Dom.settled id s) children.
Proof.
  split.
  - intros H. inversion H. now split.
  - intros [H1 H2]. now constructor.
Qed.

Lemma settled_textChildren (id s t : jsstring) :
  Forall (Dom.settled id s) (Dom.textChildren t).
Proof. destruct t; repeat constructor. Qed.

(** No element with the ID: nothing to find and nothing to set. *)
Lemma findIn_None (id : jsstring) (n : Dom.Node) :
  Dom.findIn id n = None <-> Dom.countId id n = 0%nat.
Proof.
  induction n as [data|i children IH] using Node_induction; [now split|].
  rewrite findIn_Element, countId_Element.
  destruct (Dom.hasId i id); [split; [discriminate | lia]|].
  rewrite Nat.add_0_l, findFirst_None, countIn_zero.
  rewrite Forall_forall in IH. rewrite !Forall_forall.
  split; intros H c Hc; apply (IH c Hc), H, Hc.
Qed.

Lemma setTextIn_None (id s : jsstring) (n : Dom.Node) :
  Dom.setTextIn id s n = None <-> Dom.countId id n = 0%nat.
Proof.
  induction n as [data|i children IH] using Node_induction; [now split|].
  rewrite setTextIn_Element, countId_Element.
  destruct (Dom.hasId i id); [split; [discriminate | lia]|].
  transitivity (Dom.updateFirst (Dom.setTextIn id s) children = None).
  { destruct (Dom.updateFirst _ children); simpl; split; congruence. }
  rewrite Nat.add_0_l, updateFirst_None, countIn_zero.
  rewrite Forall_forall in IH. rewrite !Forall_forall.
  split; intros H c Hc; apply (IH c Hc), H, Hc.
Qed.

Lemma absent_settled (id s : jsstring) (n : Dom.Node) :
  Dom.countId id n = 0%nat -> Dom.settled id s n.
Proof.
  induction n as [data|i children IH] using Node_induction; [constructor|].
  rewrite countId_Element. intros H. apply settled_Element.
  destruct (Dom.hasId i id); [lia|]. split; [discriminate|].
  assert (Hc : Dom.countIn id children = 0%nat) by lia.
  apply countIn_zero in Hc. rewrite Forall_forall in *.
  intros c Hin. apply (IH c Hin), Hc, Hin.
Qed.

(** An assignment creates no element. *)
Lemma setTextIn_count (k s id : jsstring) (n n' : Dom.Node) :
  Dom.setTextIn k s n = Some n' ->
  (Dom.countId id n' <= Dom.countId id n)%nat.
Proof.
  revert n'.
  induction n as [data|i children IH] using Node_induction; [discriminate|].
  intros n'. rewrite setTextIn_Element. destruct (Dom.hasId i k).
  - intros [= <-]. rewrite !countId_Element, countIn_textChildren. lia.
  - destruct (Dom.updateFirst _ children) as [children'|] eqn:E;
      [|discriminate].
    intros [= <-]. rewrite !countId_Element.
    apply updateFirst_Some in E
      as (pre & x & x' & post & -> & -> & Hx & _).
    apply Forall_app in IH as [_ IH]. inversion IH as [|? ? IHx _]. subst.
    specialize (IHx x' Hx).
    rewrite !countIn_app, !countIn_cons. lia.
Qed.

(** An assignment to another ID leaves the elements with the ID as they
    are, or removes them. *)
Lemma setTextIn_settled_other (k s' id s : jsstring) (n n' : Dom.Node) :
  k <> id ->
  Dom.setTextIn k s' n = Some n' ->
  Dom.settled id s n -> Dom.settled id s n'.
Proof.
  intros Hne. revert n'.
  induction n as [data|i children IH] using Node_induction; [discriminate|].
  intros n'. rewrite setTextIn_Element. destruct (Dom.hasId i k) eqn:Hk.
  - intros [= <-] _. apply settled_Element. split.
    + intros Hid. now destruct (Hne (hasId_same _ _ _ Hk Hid)).
    + apply settled_textChildren.
  - destruct (Dom.updateFirst _ children) as [children'|] eqn:E;
      [|discriminate].
    intros [= <-] Hn. apply settled_Element in Hn as [Hown Hchildren].
    apply settled_Element. split.
    + intros Hid. rewrite (Hown Hid), updateFirst_textChildren in E.
      discriminate.
    + apply updateFirst_Some in E
        as (pre & x & x' & post & -> & -> & Hx & _).
      apply Forall_app in IH as [_ IH]. inversion IH as [|? ? IHx _]. subst.
      apply Forall_app in Hchildren as [Hpre Hrest].
      inversion Hrest as [|? ? Hsx Hpost]. subst.
      apply Forall_app. split; [exact Hpre|].
      constructor; [now apply IHx | exact Hpost].
Qed.

(** An assignment to the one element with the ID settles the ID. *)
Lemma setTextIn_settles (id s : jsstring) (n n' : Dom.Node) :
  Dom.setTextIn id s n = Some n' ->
  (Dom.countId id n <= 1)%nat ->
  Dom.settled id s n'.
Proof.
  revert n'.
  induction n as [data|i children IH] using Node_induction; [discriminate|].
  intros n'. rewrite setTextIn_Element, countId_Element.
  destruct (Dom.hasId i id) eqn:Hi.
  - intros [= <-] _. apply settled_Element.
    split; [reflexivity | apply settled_textChildren].
  - destruct (Dom.updateFirst _ children) as [children'|] eqn:E;
      [|discriminate].
    intros [= <-] Hcount. apply settled_Element.
    split; [rewrite Hi; discriminate|].
    apply updateFirst_Some in E
      as (pre & x & x' & post & -> & -> & Hx & Hpre).
    apply Forall_app in IH as [_ IH]. inversion IH as [|? ? IHx _]. subst.
    rewrite countIn_app, countIn_cons in Hcount.
    assert (Hpos : Dom.countId id x <> 0%nat).
    { intros H0. apply (setTextIn_None id s) in H0. congruence. }
    apply Forall_app. split.
    + rewrite Forall_forall in *. intros c Hc.
      apply absent_settled, (setTextIn_None id s), Hpre, Hc.
    + constructor; [apply IHx; [exact Hx | lia]|].
      assert (Hpost : Dom.countIn id post = 0%nat) by lia.
      apply countIn_zero in Hpost. rewrite Forall_forall in *.
      intros c Hc. apply absent_settled, Hpost, Hc.
Qed.

(** On a settled tree the assignment changes nothing. *)
Lemma settled_setTextIn (id s : jsstring) (n n' : Dom.Node) :
  Dom.settled id s n -> Dom.setTextIn id s n = Some n' -> n' = n.
Proof.
  revert n'.
  induction n as [data|i children IH] using Node_induction; [discriminate|].
  intros n' Hn. apply settled_Element in Hn as [Hown Hchildren].
  rewrite setTextIn_Element. destruct (Dom.hasId i id).
  - intros [= <-]. now rewrite Hown.
  - destruct (Dom.updateFirst _ children) as [children'|] eqn:E;
      [|discriminate].
    intros [= <-]. f_equal.
    apply updateFirst_Some in E
      as (pre & x & x' & post & -> & -> & Hx & _).
    apply Forall_app in IH as [_ IH]. inversion IH as [|? ? IHx _]. subst.
    apply Forall_app in Hchildren as [_ Hrest].
    inversion Hrest as [|? ? Hsx _]. subst.
    now rewrite (IHx x' Hsx Hx).
Qed.

(** In a settled tree the element found holds the text. *)
Lemma settled_findIn (id s : jsstring) (n el : Dom.Node) :
  Dom.settled id s n -> Dom.findIn id n = Some el ->
  exists i, el = Dom.Element i (Dom.textChildren s) /\ Dom.hasId i id = true.
Proof.
  induction n as [data|i children IH] using Node_induction; [discriminate|].
  intros Hn. apply settled_Element in Hn as [Hown Hchildren].
  rewrite findIn_Element. destruct (Dom.hasId i id) eqn:Hi.
  - intros [= <-]. exists i. now rewrite Hown.
  - intros H. apply findFirst_Some in H as (c & Hc & Hfound).
    rewrite Forall_forall in *. exact (IH c Hc (Hchildren c Hc) Hfound).
Qed.

Lemma Rewritten_refl (keys : list jsstring) (n : Dom.Node) :
  Dom.Rewritten keys n n.
Proof.
  induction n as [data|i children IH] using Node_induction; constructor.
  induction IH; now constructor.
Qed.

Lemma Rewritten_text (keys : list jsstring) (s : jsstring)
      (children : list Dom.Node) :
  Forall2 (Dom.Rewritten keys) (Dom.textChildren s) children ->
  children = Dom.textChildren s.
Proof.
  destruct s as [|c s]; simpl; intros H.
  - now inversion H.
  - inversion H as [|? ? ? ? Hx Hl]. subst. inversion Hl. subst.
    now inversion Hx.
Qed.

Lemma Rewritten_trans (keys : list jsstring) (a b c : Dom.Node) :
  Dom.Rewritten keys a b -> Dom.Rewritten keys b c -> Dom.Rewritten keys a c.
Proof.
  revert b c.
  induction a as [data|i children IH] using Node_induction; intros b c Hab Hbc.
  - inversion Hab. subst. exact Hbc.
  - inversion Hab as [|? ? children' Hchildren|? ? s k Hk Hi]; subst.
    + inversion Hbc as [|? ? children'' Hchildren'|? ? s k Hk Hi]; subst.
      * constructor. clear Hab Hbc.
        revert children'' Hchildren'.
        induction Hchildren as [|x y l l' Hxy Hl IHl]; intros m Hm.
        -- inversion Hm. constructor.
        -- inversion Hm as [|? z ? m' Hyz Hm']. subst.
           inversion IH as [|? ? IHx IHrest]. subst.
           constructor; [exact (IHx y z Hxy Hyz) | now apply IHl].
      * now apply (Dom.RewSet keys i children s k).
    + inversion Hbc as [|? ? children'' Hchildren'|? ? s' k' Hk' Hi']; subst.
      * apply Rewritten_text in Hchildren'. subst.
        now apply (Dom.RewSet keys i children s k).
      * now apply (Dom.RewSet keys i children s' k').
Qed.

Lemma Rewritten_all_trans (keys : list jsstring) (a b c : list Dom.Node) :
  Forall2 (Dom.Rewritten keys) a b -> Forall2 (Dom.Rewritten keys) b c ->
  Forall2 (Dom.Rewritten keys) a c.
Proof.
  intros Hab. revert c. induction Hab as [|x y l l' Hxy Hl IH]; intros c Hbc.
  - inversion Hbc. constructor.
  - inversion Hbc as [|? z ? m Hyz Hm]. subst.
    constructor; [exact (Rewritten_trans _ _ _ _ Hxy Hyz) | now apply IH].
Qed.

Lemma Rewritten_all_refl (keys : list jsstring) (l : list Dom.Node) :
  Forall2 (Dom.Rewritten keys) l l.
Proof. induction l; constructor; [apply Rewritten_refl | assumption]. Qed.

Lemma setTextIn_rewritten (keys : list jsstring) (k s : jsstring)
      (n n' : Dom.Node) :
  In k keys -> Dom.setTextIn k s n = Some n' -> Dom.Rewritten keys n n'.
Proof.
  intros Hk. revert n'.
  induction n as [data|i children IH] using Node_induction; [discriminate|].
  intros n'. rewrite setTextIn_Element. destruct (Dom.hasId i k) eqn:Hi.
  - intros [= <-]. now apply (Dom.RewSet keys i children s k).
  - destruct (Dom.updateFirst _ children) as [children'|] eqn:E;
      [|discriminate].
    intros [= <-]. constructor.
    apply updateFirst_Some in E
      as (pre & x & x' & post & -> & -> & Hx & _).
    apply Forall_app in IH as [_ IH]. inversion IH as [|? ? IHx _]. subst.
    apply Forall2_app; [apply Rewritten_all_refl|].
    constructor; [now apply IHx | apply Rewritten_all_refl].
Qed.

(** A tree in which none of the IDs occurs can only stay as it is. *)
Lemma Rewritten_absent (keys : list jsstring) (n n' : Dom.Node) :
  Dom.Rewritten keys n n' ->
  (forall k, In k keys -> Dom.countId k n = 0%nat) ->
  n' = n.
Proof.
  revert n'.
  induction n as [data|i children IH] using Node_induction; intros n' Hn Hfree.
  - now inversion Hn.
  - inversion Hn as [|? ? children' Hchildren|? ? s k Hk Hi]; subst.
    + f_equal.
      assert (Hbelow : forall k, In k keys -> Dom.countIn k children = 0%nat).
      { intros k Hk. specialize (Hfree k Hk).
        rewrite countId_Element in Hfree. lia. }
      clear Hn Hfree.
      induction Hchildren as [|x y l l' Hxy Hl IHl]; [reflexivity|].
      inversion IH as [|? ? IHx IHrest]. subst.
      rewrite (IHx y Hxy), (IHl IHrest); [reflexivity| |].
      * intros k Hk. specialize (Hbelow k Hk).
        rewrite countIn_cons in Hbelow. lia.
      * intros k Hk. specialize (Hbelow k Hk).
        rewrite countIn_cons in Hbelow. lia.
    + specialize (Hfree k Hk). rewrite countId_Element, Hi in Hfree. lia.
Qed.

(** *** The page *)

Lemma getElementById_None (id : jsstring) (body : list Dom.Node) :
  Dom.getElementById id body = None <-> Dom.countIn id body = 0%nat.
Proof.
  unfold Dom.getElementById. rewrite findFirst_None, countIn_zero.
  rewrite !Forall_forall. split; intros H n Hn; apply findIn_None, H, Hn.
Qed.

Lemma setTextContent_cases (k s : jsstring) (body : list Dom.Node) :
  Dom.setTextContent k s body = body
  \/ exists pre x x' post,
      body = pre ++ x :: post
      /\ Dom.setTextContent k s body = pre ++ x' :: post
      /\ Dom.setTextIn k s x = Some x'
      /\ Forall (fun y => Dom.setTextIn k s y = None) pre.
Proof.
  unfold Dom.setTextContent.
  destruct (Dom.updateFirst _ body) as [body'|] eqn:E; [|now left].
  right. apply updateFirst_Some in E
    as (pre & x & x' & post & -> & -> & Hx & Hpre).
  now exists pre, x, x', post.
Qed.

Lemma setTextContent_count (k s id : jsstring) (body : list Dom.Node) :
  (Dom.countIn id (Dom.setTextContent k s body) <= Dom.countIn id body)%nat.
Proof.
  destruct (setTextContent_cases k s body)
    as [-> | (pre & x & x' & post & Hbody & -> & Hx & _)]; [lia|].
  rewrite Hbody, !countIn_app, !countIn_cons.
  pose proof (setTextIn_count k s id x x' Hx). lia.
Qed.

Lemma setTextContent_settled_other (k s' id s : jsstring)
      (body : list Dom.Node) :
  k <> id ->
  Forall (Dom.settled id s) body ->
  Forall (Dom.settled id s) (Dom.setTextContent k s' body).
Proof.
  intros Hne Hbody.
  destruct (setTextContent_cases k s' body)
    as [-> | (pre & x & x' & post & Heq & -> & Hx & _)]; [exact Hbody|].
  rewrite Heq in Hbody. apply Forall_app in Hbody as [Hpre Hrest].
  inversion Hrest as [|? ? Hsx Hpost]. subst.
  apply Forall_app. split; [exact Hpre|].
  constructor; [exact (setTextIn_settled_other _ _ _ _ _ _ Hne Hx Hsx)|].
  exact Hpost.
Qed.

Lemma setTextContent_settles (id s : jsstring) (body : list Dom.Node) :
  (Dom.countIn id body <= 1)%nat ->
  Forall (Dom.settled id s) (Dom.setTextContent id s body).
Proof.
  intros Hcount. unfold Dom.setTextContent.
  destruct (Dom.updateFirst _ body) as [body'|] eqn:E.
  - apply updateFirst_Some in E
      as (pre & x & x' & post & -> & -> & Hx & Hpre).
    rewrite countIn_app, countIn_cons in Hcount.
    assert (Hpos : Dom.countId id x <> 0%nat).
    { intros H0. apply (setTextIn_None id s) in H0. congruence. }
    apply Forall_app. split.
    + rewrite Forall_forall in *. intros c Hc.
      apply absent_settled, (setTextIn_None id s), Hpre, Hc.
    + constructor; [apply (setTextIn_settles _ _ _ _ Hx); lia|].
      assert (Hpost : Dom.countIn id post = 0%nat) by lia.
      apply countIn_zero in Hpost. rewrite Forall_forall in *.
      intros c Hc. apply absent_settled, Hpost, Hc.
  - apply updateFirst_None in E. rewrite Forall_forall in *.
    intros c Hc. apply absent_settled, (setTextIn_None id s), E, Hc.
Qed.

Lemma settled_setTextContent (id s : jsstring) (body : list Dom.Node) :
  Forall (Dom.settled id s) body -> Dom.setTextContent id s body = body.
Proof.
  intros Hbody.
  destruct (setTextContent_cases id s body)
    as [-> | (pre & x & x' & post & Heq & -> & Hx & _)]; [reflexivity|].
  rewrite Heq in *. apply Forall_app in Hbody as [_ Hrest].
  inversion Hrest as [|? ? Hsx _]. subst.
  now rewrite (settled_setTextIn _ _ _ _ Hsx Hx).
Qed.

Lemma settled_getElementById (id s : jsstring) (body : list Dom.Node)
      (el : Dom.Node) :
  Forall (Dom.settled id s) body ->
  Dom.getElementById id body = Some el ->
  exists i, el = Dom.Element i (Dom.textChildren s) /\ Dom.hasId i id = true.
Proof.
  intros Hbody H. apply findFirst_Some in H as (n & Hn & Hfound).
  rewrite Forall_forall in Hbody.
  exact (settled_findIn _ _ _ _ (Hbody n Hn) Hfound).
Qed.

Lemma setTextContent_rewritten (keys : list jsstring) (k s : jsstring)
      (body : list Dom.Node) :
  In k keys ->
  Forall2 (Dom.Rewritten keys) body (Dom.setTextContent k s body).
Proof.
  intros Hk.
  destruct (setTextContent_cases k s body)
    as [-> | (pre & x & x' & post & Heq & -> & Hx & _)];
    [apply Rewritten_all_refl|].
  rewrite Heq. apply Forall2_app; [apply Rewritten_all_refl|].
  constructor; [exact (setTextIn_rewritten _ _ _ _ _ Hk Hx)|].
  apply Rewritten_all_refl.
Qed.

End DomFacts.

(** *** One entry, then all of them *)

Section EncryptFacts.

Variable atob : jsstring -> option jsstring.

Lemma applyEntry_cases (p : Page) (id encoded : jsstring) :
  (Dom.getElementById id (body p) = None
   /\ applyEntry atob p (id, encoded) = p)
  \/ (Dom.getElementById id (body p) <> None
      /\ body (applyEntry atob p (id, encoded))
         = Dom.setTextContent id (decodedOf atob encoded) (body p)
      /\ errorLog (applyEntry atob p (id, encoded))
         = errorLog p
             ++ (if undecodable atob (id, encoded)
                 then [js "Failed to decode text:"] else [])).
Proof.
  unfold applyEntry, decodeText, decodedOf, undecodable. cbn [snd].
  destruct (Dom.getElementById id (body p)) as [el|]; [right | now left].
  split; [discriminate|].
  destruct (atob encoded); cbn [body errorLog];
    [now rewrite app_nil_r | now split].
Qed.

Lemma applyEntry_count (p : Page) (entry : jsstring * jsstring)
      (id : jsstring) :
  (Dom.countIn id (body (applyEntry atob p entry))
   <= Dom.countIn id (body p))%nat.
Proof.
  destruct entry as [k encoded].
  destruct (applyEntry_cases p k encoded) as [[_ ->] | (_ & -> & _)];
    [lia | apply setTextContent_count].
Qed.

Lemma applyEntry_settled_other (p : Page) (k encoded id s : jsstring) :
  k <> id ->
  Forall (Dom.settled id s) (body p) ->
  Forall (Dom.settled id s) (body (applyEntry atob p (k, encoded))).
Proof.
  intros Hne Hp.
  destruct (applyEntry_cases p k encoded) as [[_ ->] | (_ & -> & _)];
    [exact Hp | now apply setTextContent_settled_other].
Qed.

Lemma applyEntry_settles (p : Page) (id encoded : jsstring) :
  (Dom.countIn id (body p) <= 1)%nat ->
  Forall (Dom.settled id (decodedOf atob encoded))
         (body (applyEntry atob p (id, encoded))).
Proof.
  intros Hcount.
  destruct (applyEntry_cases p id encoded) as [[Hnone ->] | (_ & -> & _)].
  - apply getElementById_None, countIn_zero in Hnone.
    rewrite Forall_forall in *. intros n Hn. apply absent_settled, Hnone, Hn.
  - now apply setTextContent_settles.
Qed.

Lemma applyEntry_settled_same (p : Page) (id encoded : jsstring) :
  Forall (Dom.settled id (decodedOf atob encoded)) (body p) ->
  body (applyEntry atob p (id, encoded)) = body p.
Proof.
  intros Hp.
  destruct (applyEntry_cases p id encoded) as [[_ ->] | (_ & -> & _)];
    [reflexivity | now apply settled_setTextContent].
Qed.

Lemma applyEntry_rewritten (keys : list jsstring) (p : Page)
      (id encoded : jsstring) :
  In id keys ->
  Forall2 (Dom.Rewritten keys) (body p)
          (body (applyEntry atob p (id, encoded))).
Proof.
  intros Hid.
  destruct (applyEntry_cases p id encoded) as [[_ ->] | (_ & -> & _)];
    [apply Rewritten_all_refl | now apply setTextContent_rewritten].
Qed.

Lemma applyEntries_count (entries : list (jsstring * jsstring)) (p : Page)
      (id : jsstring) :
  (Dom.countIn id (body (fold_left (applyEntry atob) entries p))
   <= Dom.countIn id (body p))%nat.
Proof.
  revert p. induction entries as [|entry entries IH]; intros p; cbn [fold_left]; [lia|].
  specialize (IH (applyEntry atob p entry)).
  pose proof (applyEntry_count p entry id). lia.
Qed.

Lemma applyEntries_settled_other (entries : list (jsstring * jsstring))
      (p : Page) (id s : jsstring) :
  ~ In id (map fst entries) ->
  Forall (Dom.settled id s) (body p) ->
  Forall (Dom.settled id s) (body (fold_left (applyEntry atob) entries p)).
Proof.
  revert p. induction entries as [|[k encoded] entries IH]; intros p Hid Hp;
    cbn [fold_left]; [exact Hp|].
  simpl in Hid. apply IH; [tauto|].
  apply applyEntry_settled_other; [tauto | exact Hp].
Qed.

Lemma applyEntries_settles (entries : list (jsstring * jsstring)) (p : Page)
      (id encoded : jsstring) :
  NoDup (map fst entries) ->
  In (id, encoded) entries ->
  (Dom.countIn id (body p) <= 1)%nat ->
  Forall (Dom.settled id (decodedOf atob encoded))
         (body (fold_left (applyEntry atob) entries p)).
Proof.
  revert p. induction entries as [|[k e] entries IH]; intros p Hkeys Hin Hcount;
    [contradiction|].
  simpl in Hkeys. inversion Hkeys as [|? ? Hfresh Hrest]. subst.
  cbn [fold_left]. destruct Hin as [[= -> ->] | Hin].
  - apply applyEntries_settled_other; [exact Hfresh|].
    now apply applyEntry_settles.
  - apply IH; [exact Hrest | exact Hin|].
    eapply Nat.le_trans; [apply (applyEntry_count p (k, e) id) | exact Hcount].
Qed.

Lemma applyEntries_rewritten (keys : list jsstring)
      (entries : list (jsstring * jsstring)) (p : Page) :
  incl (map fst entries) keys ->
  Forall2 (Dom.Rewritten keys) (body p)
          (body (fold_left (applyEntry atob) entries p)).
Proof.
  revert p. induction entries as [|[k e] entries IH]; intros p Hincl; cbn [fold_left];
    [apply Rewritten_all_refl|].
  apply (Rewritten_all_trans _ _ (body (applyEntry atob p (k, e)))).
  - apply applyEntry_rewritten, Hincl. now left.
  - apply IH. intros x Hx. apply Hincl. now right.
Qed.

Lemma applyEntries_fixed (entries : list (jsstring * jsstring)) (p : Page) :
  (forall id encoded, In (id, encoded) entries ->
                      Forall (Dom.settled id (decodedOf atob encoded)) (body p)) ->
  body (fold_left (applyEntry atob) entries p) = body p.
Proof.
  revert p. induction entries as [|[k e] entries IH]; intros p Hp; cbn [fold_left];
    [reflexivity|].
  assert (Hstep : body (applyEntry atob p (k, e)) = body p)
    by (apply applyEntry_settled_same, Hp; now left).
  rewrite IH; [exact Hstep|].
  intros id encoded Hin. rewrite Hstep. apply Hp. now right.
Qed.

Lemma applyEntries_untouched (entries : list (jsstring * jsstring)) (p : Page) :
  (forall k, In k (map fst entries) -> Dom.getElementById k (body p) = None) ->
  fold_left (applyEntry atob) entries p = p.
Proof.
  induction entries as [|[k e] entries IH]; intros Hp; cbn [fold_left]; [reflexivity|].
  destruct (applyEntry_cases p k e) as [[_ ->] | [Hsome _]].
  - apply IH. intros k' Hk'. apply Hp. now right.
  - destruct Hsome. apply Hp. now left.
Qed.

Lemma applyEntries_log (entries : list (jsstring * jsstring)) (p : Page) :
  exists m : nat,
    errorLog (fold_left (applyEntry atob) entries p)
    = errorLog p ++ repeat (js "Failed to decode text:") m
    /\ (m <= length (filter (undecodable atob) entries))%nat.
Proof.
  revert p. induction entries as [|[k e] entries IH]; intros p; cbn [fold_left filter].
  - exists 0%nat. now rewrite app_nil_r.
  - destruct (IH (applyEntry atob p (k, e))) as (m & -> & Hm).
    destruct (applyEntry_cases p k e) as [[_ ->] | (_ & _ & ->)].
    + exists m. split; [reflexivity|].
      destruct (undecodable atob (k, e)); cbn [length]; lia.
    + destruct (undecodable atob (k, e)).
      * exists (S m). rewrite <- app_assoc. split; [reflexivity | cbn [length repeat]; lia].
      * exists m. rewrite app_nil_r. split; [reflexivity | lia].
Qed.

(** Keyed elements that lie apart. *)
Lemma apart_Element (keys : list jsstring) (i : jsstring)
      (children : list Dom.Node) :
  Dom.apart keys (Dom.Element i children)
  <-> ((exists k, In k keys /\ Dom.hasId i k = true) ->
       forall k', In k' keys -> Dom.countIn k' children = 0%nat)
      /\ Forall (Dom.apart keys) children.
Proof.
  split.
  - intros H. inversion H. now split.
  - intros [H1 H2]. now constructor.
Qed.

Lemma apart_textChildren (keys : list jsstring) (t : jsstring) :
  Forall (Dom.apart keys) (Dom.textChildren t).
Proof. destruct t; repeat constructor. Qed.

Lemma setTextIn_apart (keys : list jsstring) (k s : jsstring)
      (n n' : Dom.Node) :
  In k keys ->
  Dom.setTextIn k s n = Some n' ->
  Dom.apart keys n ->
  Dom.apart keys n'
  /\ forall id, In id keys -> Dom.countId id n' = Dom.countId id n.
Proof.
  intros Hk. revert n'.
  induction n as [data|i children IH] using Node_induction; [discriminate|].
  intros n'. rewrite setTextIn_Element. destruct (Dom.hasId i k) eqn:Hi.
  - intros [= <-] Hn. apply apart_Element in Hn as [Hown _]. split.
    + apply apart_Element. split; [|apply apart_textChildren].
      intros _ k' _. apply countIn_textChildren.
    + intros id Hid. rewrite !countId_Element, countIn_textChildren.
      now rewrite (Hown (ex_intro _ k (conj Hk Hi)) id Hid).
  - destruct (Dom.updateFirst _ children) as [children'|] eqn:E;
      [|discriminate].
    intros [= <-] Hn. apply apart_Element in Hn as [Hown Hchildren].
    apply updateFirst_Some in E
      as (pre & x & x' & post & -> & -> & Hx & _).
    apply Forall_app in IH as [_ IH]. inversion IH as [|? ? IHx _]. subst.
    apply Forall_app in Hchildren as [Hpre Hrest].
    inversion Hrest as [|? ? Hax Hpost]. subst.
    destruct (IHx x' Hx Hax) as [Hax' Hcount].
    assert (Hsame : forall id, In id keys ->
               Dom.countIn id (pre ++ x' :: post)
               = Dom.countIn id (pre ++ x :: post)).
    { intros id Hid. rewrite !countIn_app, !countIn_cons.
      now rewrite (Hcount id Hid). }
    split.
    + apply apart_Element. split.
      * intros Hkeyed k' Hk'. rewrite (Hsame k' Hk'). now apply Hown.
      * apply Forall_app. split; [exact Hpre|]. now constructor.
    + intros id Hid. rewrite !countId_Element. now rewrite (Hsame id Hid).
Qed.

Lemma applyEntry_apart (keys : list jsstring) (p : Page)
      (k encoded : jsstring) :
  In k keys ->
  Forall (Dom.apart keys) (body p) ->
  Forall (Dom.apart keys) (body (applyEntry atob p (k, encoded)))
  /\ forall id, In id keys ->
       Dom.countIn id (body (applyEntry atob p (k, encoded)))
       = Dom.countIn id (body p).
Proof.
  intros Hk Hp.
  destruct (applyEntry_cases p k encoded) as [[_ ->] | (_ & -> & _)];
    [now split|].
  destruct (setTextContent_cases k (decodedOf atob encoded) (body p))
    as [-> | (pre & x & x' & post & Heq & -> & Hx & _)]; [now split|].
  rewrite Heq in *. apply Forall_app in Hp as [Hpre Hrest].
  inversion Hrest as [|? ? Hax Hpost]. subst.
  destruct (setTextIn_apart keys _ _ _ _ Hk Hx Hax) as [Hax' Hcount].
  split.
  - apply Forall_app. split; [exact Hpre|]. now constructor.
  - intros id Hid. rewrite !countIn_app, !countIn_cons.
    now rewrite (Hcount id Hid).
Qed.

Lemma applyEntries_apart (keys : list jsstring)
      (entries : list (jsstring * jsstring)) (p : Page) :
  incl (map fst entries) keys ->
  Forall (Dom.apart keys) (body p) ->
  forall id, In id keys ->
    Dom.countIn id (body (fold_left (applyEntry atob) entries p))
    = Dom.countIn id (body p).
Proof.
  revert p. induction entries as [|[k e] entries IH]; intros p Hincl Hp id Hid;
    cbn [fold_left]; [reflexivity|].
  assert (Hk : In k keys) by (apply Hincl; now left).
  destruct (applyEntry_apart keys p k e Hk Hp) as [Hp' Hcount].
  rewrite IH; [now apply Hcount | | exact Hp' | exact Hid].
  intros x Hx. apply Hincl. now right.
Qed.

Lemma failsOn_count (a b : list Dom.Node) (entry : jsstring * jsstring) :
  Dom.countIn (fst entry) a = Dom.countIn (fst entry) b ->
  failsOn atob a entry = failsOn atob b entry.
Proof.
  intros H. unfold failsOn.
  destruct (Dom.getElementById (fst entry) a) eqn:Ea;
    destruct (Dom.getElementById (fst entry) b) eqn:Eb; try reflexivity.
  - apply getElementById_None in Eb. rewrite <- H in Eb.
    apply getElementById_None in Eb. congruence.
  - apply getElementById_None in Ea. rewrite H in Ea.
    apply getElementById_None in Ea. congruence.
Qed.

Lemma applyEntries_log_apart (keys : list jsstring)
      (entries : list (jsstring * jsstring)) (p : Page) :
  incl (map fst entries) keys ->
  Forall (Dom.apart keys) (body p) ->
  errorLog (fold_left (applyEntry atob) entries p)
  = errorLog p
      ++ repeat (js "Failed to decode text:")
                (length (filter (failsOn atob (body p)) entries)).
Proof.
  revert p. induction entries as [|[k e] entries IH]; intros p Hincl Hp;
    cbn [fold_left filter length repeat]; [now rewrite app_nil_r|].
  assert (Hk : In k keys) by (apply Hincl; now left).
  assert (Hincl' : incl (map fst entries) keys)
    by (intros x Hx; apply Hincl; now right).
  destruct (applyEntry_apart keys p k e Hk Hp) as [Hp' Hcount].
  rewrite (IH _ Hincl' Hp').
  rewrite (filter_ext_in (failsOn atob (body (applyEntry atob p (k, e))))
                         (failsOn atob (body p))).
  2:{ intros entry Hentry. apply failsOn_count, Hcount, Hincl'.
      now apply in_map. }
  destruct (failsOn atob (body p) (k, e)) eqn:Hf;
    unfold failsOn in Hf; cbn [fst snd] in Hf;
    destruct (applyEntry_cases p k e) as [[Hnone ->] | (Hsome & _ & ->)];
    unfold undecodable; cbn [snd length repeat].
  - now rewrite Hnone in Hf.
  - destruct (Dom.getElementById k (body p)); [|contradiction].
    destruct (atob e); [discriminate|].
    now rewrite <- app_assoc.
  - reflexivity.
  - destruct (Dom.getElementById k (body p)); [|contradiction].
    destruct (atob e); [|discriminate].
    now rewrite app_nil_r.
Qed.

End EncryptFacts.

Lemma hasId_eq (i id : jsstring) : Dom.hasId i id = true -> i = id.
Proof.
  unfold Dom.hasId. intros H. apply andb_true_iff in H as [_ H].
  now apply strEqb_eq.
Qed.

Lemma Forall2_nth_error_left {A B : Type} (R : A -> B -> Prop)
      (l : list A) (l' : list B) (j : nat) (x : A) :
  Forall2 R l l' -> nth_error l j = Some x ->
  exists y, nth_error l' j = Some y /\ R x y.
Proof.
  intros H. revert j. induction H as [|a b l l' Hab _ IH]; intros j.
  - destruct j; discriminate.
  - destruct j as [|j]; simpl.
    + intros [= <-]. now exists b.
    + apply IH.
Qed.

(** X18: with distinct keys, as the entries of an object have them, and an ID
    that at most one element of the page has, the element that
    [getElementById] finds for the ID after [applyEncryptedText] holds the
    decoded text of its entry (the empty text when the value does not
    decode) as its only child.  When no keyed element lies inside another,
    an element that was there for the ID before the run is there after it. *)
Theorem applyEncryptedText_sets_text
        (atob : jsstring -> option jsstring)
        (entries : list (jsstring * jsstring)) (p : Page)
        (id encoded : jsstring) :
  NoDup (map fst entries) ->
  In (id, encoded) entries ->
  (Dom.countIn id (body p) <= 1)%nat ->
  let p' := applyEncryptedText atob (Some entries) p in
  (forall el : Dom.Node,
      Dom.getElementById id (body p') = Some el ->
      el = Dom.Element id (Dom.textChildren (decodedOf atob encoded))
      /\ Dom.textContent el = decodedOf atob encoded)
  /\ (Forall (Dom.apart (map fst entries)) (body p) ->
      Dom.getElementById id (body p) <> None ->
      Dom.getElementById id (body p') <> None).
Proof.
  intros Hkeys Hin Hcount p'. subst p'. unfold applyEncryptedText. split.
  - intros el Hel.
    destruct (settled_getElementById _ _ _ _
                (applyEntries_settles atob entries p id encoded
                   Hkeys Hin Hcount) Hel) as (i & -> & Hi).
    apply hasId_eq in Hi. subst i.
    split; [reflexivity | apply textContent_textChildren].
  - intros Hapart Hbefore Hafter. apply Hbefore.
    apply getElementById_None. apply getElementById_None in Hafter.
    rewrite <- Hafter. symmetry.
    apply (applyEntries_apart atob (map fst entries));
      [apply incl_refl | exact Hapart|].
    apply (in_map fst _ _ Hin).
Qed.

Lemma applyEncryptedText_sets_text_witness :
  option_map Dom.textContent
    (Dom.getElementById (js "a")
       (body (applyEncryptedText Base64.atob
                (Some [(js "a", js "SGk="); (js "b", js "!")])
                {| body := [Dom.Element (js "main")
                              [Dom.Text (js "see ");
                               Dom.Element (js "a")
                                 [Dom.Element [] [Dom.Text (js "...")]]]];
                   errorLog := [] |})))
  = Some (js "Hi").
Proof.
  destruct (applyEncryptedText_sets_text
              Base64.atob [(js "a", js "SGk="); (js "b", js "!")]
              {| body := [Dom.Element (js "main")
                            [Dom.Text (js "see ");
                             Dom.Element (js "a")
                               [Dom.Element [] [Dom.Text (js "...")]]]];
                 errorLog := [] |}
              (js "a") (js "SGk=")) as [Hfound _].
  - repeat (constructor; [cbn; intuition discriminate|]). constructor.
  - now left.
  - apply Nat.leb_le. reflexivity.
  - destruct (Hfound (Dom.Element (js "a") [Dom.Text (js "Hi")]) eq_refl)
      as [_ Htext].
    change (Some (Dom.textContent (Dom.Element (js "a") [Dom.Text (js "Hi")]))
            = Some (js "Hi")).
    rewrite Htext. reflexivity.
Defined.

(** X19: [applyEncryptedText] only replaces what lies inside elements whose
    ID is a key of the map: every tree of the page is rewritten in place,
    each element keeping its id attribute and, unless its ID is a key or it
    lies inside such an element, its children up to such replacements; no
    element is created; a tree of the page in which no key occurs stays as
    it is; and on a page without any keyed element nothing changes. *)
Theorem applyEncryptedText_frame
        (atob : jsstring -> option jsstring)
        (entries : list (jsstring * jsstring)) (p : Page) :
  let p' := applyEncryptedText atob (Some entries) p in
  let keys := map fst entries in
  Forall2 (Dom.Rewritten keys) (body p) (body p')
  /\ (forall id : jsstring,
         (Dom.countIn id (body p') <= Dom.countIn id (body p))%nat)
  /\ (forall (j : nat) (n : Dom.Node),
         nth_error (body p) j = Some n ->
         (forall k, In k keys -> Dom.countId k n = 0%nat) ->
         nth_error (body p') j = Some n)
  /\ ((forall k, In k keys -> Dom.getElementById k (body p) = None) ->
      p' = p).
Proof.
  intros p' keys. subst p' keys. unfold applyEncryptedText.
  assert (Hrew : Forall2 (Dom.Rewritten (map fst entries)) (body p)
                         (body (fold_left (applyEntry atob) entries p)))
    by apply applyEntries_rewritten, incl_refl.
  split; [exact Hrew|]. split; [intros id; apply applyEntries_count|].
  split; [|apply applyEntries_untouched].
  intros j n Hn Hfree.
  destruct (Forall2_nth_error_left _ _ _ _ _ Hrew Hn) as (n' & Hn' & Hnn').
  now rewrite Hn', (Rewritten_absent _ _ _ Hnn' Hfree).
Qed.

Lemma applyEncryptedText_frame_witness :
  nth_error
    (body (applyEncryptedText Base64.atob (Some [(js "a", js "SGk=")])
             {| body := [Dom.Element (js "a") [Dom.Text (js "...")];
                         Dom.Element (js "note") [Dom.Text (js "kept")]];
                errorLog := [] |}))
    1
  = Some (Dom.Element (js "note") [Dom.Text (js "kept")]).
Proof.
  apply (proj1 (proj2 (proj2 (applyEncryptedText_frame
                  Base64.atob [(js "a", js "SGk=")]
                  {| body := [Dom.Element (js "a") [Dom.Text (js "...")];
                              Dom.Element (js "note") [Dom.Text (js "kept")]];
                     errorLog := [] |})))).
  - reflexivity.
  - intros k [<- | []]. reflexivity.
Defined.

(** X20: [applyEncryptedText] only appends to what [console.error] printed,
    one line for an entry whose element is there at its turn and whose value
    does not decode: never more lines than the map has values that do not
    decode, none when every value decodes, and, when no keyed element lies
    inside another, exactly one line for each entry whose element is on the
    page and whose value does not decode. *)
Theorem applyEncryptedText_errors
        (atob : jsstring -> option jsstring)
        (entries : list (jsstring * jsstring)) (p : Page) :
  let p' := applyEncryptedText atob (Some entries) p in
  let line := js "Failed to decode text:" in
  (exists m : nat,
      errorLog p' = errorLog p ++ repeat line m
      /\ (m <= length (filter (undecodable atob) entries))%nat)
  /\ ((forall entry, In entry entries -> undecodable atob entry = false) ->
      errorLog p' = errorLog p)
  /\ (Forall (Dom.apart (map fst entries)) (body p) ->
      errorLog p'
      = errorLog p
          ++ repeat line (length (filter (failsOn atob (body p)) entries))).
Proof.
  intros p' line. subst p' line. unfold applyEncryptedText.
  split; [apply applyEntries_log|]. split.
  - intros Hall.
    destruct (applyEntries_log atob entries p) as (m & -> & Hm).
    rewrite (filter_ext_in _ (fun _ => false) _ Hall) in Hm.
    assert (Hnil : filter (fun _ : jsstring * jsstring => false) entries = [])
      by (clear; induction entries; [reflexivity | assumption]).
    rewrite Hnil in Hm. simpl in Hm.
    assert (m = 0%nat) as -> by lia. apply app_nil_r.
  - intros Hapart. now apply (applyEntries_log_apart atob (map fst entries)).
Qed.

Lemma applyEncryptedText_errors_witness :
  errorLog (applyEncryptedText Base64.atob
              (Some [(js "a", js "!"); (js "b", js "SGk="); (js "c", js "!")])
              {| body := [Dom.Element (js "a") []; Dom.Element (js "b") []];
                 errorLog := [] |})
  = [js "Failed to decode text:"].
Proof.
  apply (proj2 (proj2 (applyEncryptedText_errors
                  Base64.atob
                  [(js "a", js "!"); (js "b", js "SGk="); (js "c", js "!")]
                  {| body := [Dom.Element (js "a") [];
                              Dom.Element (js "b") []];
                     errorLog := [] |}))).
  repeat constructor; intros _ k' _; reflexivity.
Defined.

(** X21: with distinct keys and IDs that at most one element each has,
    running [applyEncryptedText] a second time with the same map leaves the
    tree as the first run left it. *)
Theorem applyEncryptedText_idempotent
        (atob : jsstring -> option jsstring)
        (entries : list (jsstring * jsstring)) (p : Page) :
  NoDup (map fst entries) ->
  (forall k, In k (map fst entries) -> (Dom.countIn k (body p) <= 1)%nat) ->
  let once := applyEncryptedText atob (Some entries) p in
  body (applyEncryptedText atob (Some entries) once) = body once.
Proof.
  intros Hkeys Hunique once. subst once. unfold applyEncryptedText.
  apply applyEntries_fixed. intros id encoded Hin.
  apply applyEntries_settles; [exact Hkeys | exact Hin|].
  apply Hunique, (in_map fst _ _ Hin).
Qed.

Lemma applyEncryptedText_idempotent_witness :
  body (applyEncryptedText Base64.atob
          (Some [(js "a", js "SGk="); (js "b", js "!")])
          (applyEncryptedText Base64.atob
             (Some [(js "a", js "SGk="); (js "b", js "!")])
             {| body := [Dom.Element (js "b")
                           [Dom.Element (js "a") [Dom.Text (js "x")]];
                         Dom.Element (js "c") [Dom.Text (js "y")]];
                errorLog := [] |}))
  = body (applyEncryptedText Base64.atob
            (Some [(js "a", js "SGk="); (js "b", js "!")])
            {| body := [Dom.Element (js "b")
                          [Dom.Element (js "a") [Dom.Text (js "x")]];
                        Dom.Element (js "c") [Dom.Text (js "y")]];
               errorLog := [] |}).
Proof.
  apply (applyEncryptedText_idempotent
           Base64.atob [(js "a", js "SGk="); (js "b", js "!")]).
  - repeat (constructor; [cbn; intuition discriminate|]). constructor.
  - intros k [<- | [<- | []]]; apply Nat.leb_le; reflexivity.
Defined.

Lemma encodedTextMap_keys : NoDup (map fst encodedTextMap).
Proof.
  repeat (constructor; [cbn; intuition discriminate|]). constructor.
Qed.

Lemma encodedTextMap_values :
  forallb (fun entry =>
             match Base64.atob (snd entry) with
             | Some t =>
                 JsString.truthy t
                 && forallb (fun c => (32 <=? c) && (c <=? 126))%N t
             | None => false
             end)
          encodedTextMap = true.
Proof. vm_compute. reflexivity. Qed.

(** X22: the table that [encrypt.js] ships is sound: its keys are distinct and
    [atob] decodes every value to printable ASCII text that is not empty; so
    the listener of [encrypt.js] logs nothing, whatever the page, and for a
    key whose ID at most one element has, the element found for it after
    the listener ran shows the decoded text of its entry. *)
Theorem encryptOnLoad_shipped_table (p : Page) :
  let p' := encryptOnLoad Base64.atob p in
  NoDup (map fst encodedTextMap)
  /\ errorLog p' = errorLog p
  /\ forall id encoded : jsstring,
      In (id, encoded) encodedTextMap ->
      exists text : jsstring,
        Base64.atob encoded = Some text
        /\ text <> []
        /\ forallb (fun c => (32 <=? c) && (c <=? 126))%N text = true
        /\ ((Dom.countIn id (body p) <= 1)%nat ->
            forall el : Dom.Node,
              Dom.getElementById id (body p') = Some el ->
              el = Dom.Element id [Dom.Text text]
              /\ Dom.textContent el = text).
Proof.
  cbv zeta. unfold encryptOnLoad, applyEncryptedText.
  pose proof encodedTextMap_values as Hvalues.
  rewrite forallb_forall in Hvalues.
  split; [exact encodedTextMap_keys|]. split.
  - destruct (applyEntries_log Base64.atob encodedTextMap p) as (m & -> & Hm).
    assert (Hnone : filter (undecodable Base64.atob) encodedTextMap = [])
      by (vm_compute; reflexivity).
    rewrite Hnone in Hm. simpl in Hm.
    assert (m = 0%nat) as -> by lia. apply app_nil_r.
  - intros id encoded Hin. specialize (Hvalues (id, encoded) Hin).
    cbn [snd] in Hvalues.
    destruct (Base64.atob encoded) as [text|] eqn:E; [|discriminate].
    apply andb_true_iff in Hvalues as [Hne Hascii].
    exists text. split; [reflexivity|].
    split; [intros ->; discriminate Hne|]. split; [exact Hascii|].
    intros Hcount el Hel.
    destruct (settled_getElementById _ _ _ _
                (applyEntries_settles Base64.atob encodedTextMap p id encoded
                   encodedTextMap_keys Hin Hcount) Hel) as (i & -> & Hi).
    apply hasId_eq in Hi. subst i. unfold decodedOf. rewrite E.
    destruct text as [|c text]; [discriminate Hne|].
    split; [reflexivity|]. simpl. now rewrite app_nil_r.
Qed.

Lemma encryptOnLoad_shipped_table_witness :
  option_map Dom.textContent
    (Dom.getElementById (js "text-1")
       (body (encryptOnLoad Base64.atob
                {| body := [Dom.Element (js "text-1") []];
                   errorLog := [] |})))
  = Some (js "Confirm Purchase").
Proof.
  destruct (proj2 (proj2 (encryptOnLoad_shipped_table
                            {| body := [Dom.Element (js "text-1") []];
                               errorLog := [] |}))
              (js "text-1") (js "Q29uZmlybSBQdXJjaGFzZQ=="))
    as (text & Htext & _ & _ & Hfound).
  - now left.
  - vm_compute in Htext. injection Htext as <-.
    destruct (Hfound (le_n 1)
                (Dom.Element (js "text-1") [Dom.Text (js "Confirm Purchase")])
                eq_refl) as [_ Hshown].
    change (Some (Dom.textContent
                    (Dom.Element (js "text-1")
                                 [Dom.Text (js "Confirm Purchase")]))
            = Some (js "Confirm Purchase")).
    now rewrite Hshown.
Defined.

(** An element with a key inside another one: the outer entry, which comes
    first, removes it before its own entry is read. *)
Example encryptOnLoad_nested :
  body (encryptOnLoad Base64.atob
          {| body := [Dom.Element (js "text-1")
                        [Dom.Element (js "text-11") [Dom.Text (js "...")]]];
             errorLog := [] |})
  = [Dom.Element (js "text-1") [Dom.Text (js "Confirm Purchase")]].
Proof. vm_compute. reflexivity. Qed.

(** Two elements with one ID: the first is set and then removed with the
    element around it, the second is never set, and a second run sets it. *)
Example applyEncryptedText_duplicate_ids :
  let map := Some [(js "a", js "SGk="); (js "b", js "SGk=")] in
  let page := {| body := [Dom.Element (js "b")
                            [Dom.Element (js "a") [Dom.Text (js "x")]];
                          Dom.Element (js "a") [Dom.Text (js "y")]];
                 errorLog := [] |} in
  body (applyEncryptedText Base64.atob map page)
  = [Dom.Element (js "b") [Dom.Text (js "Hi")];
     Dom.Element (js "a") [Dom.Text (js "y")]]
  /\ body (applyEncryptedText Base64.atob map
             (applyEncryptedText Base64.atob map page))
     = [Dom.Element (js "b") [Dom.Text (js "Hi")];
        Dom.Element (js "a") [Dom.Text (js "Hi")]].
Proof. vm_compute. split; reflexivity. Qed.

Section Found.

Lemma findFirst_split {A B : Type} (f : A -> option B) (l : list A) (y : B) :
  Dom.findFirst f l = Some y ->
  exists pre x post,
    l = pre ++ x :: post /\ f x = Some y
    /\ Forall (fun z => f z = None) pre.
Proof.
  induction l as [|a l IH]; [discriminate|].
  rewrite findFirst_cons. destruct (f a) as [b|] eqn:E.
  - intros [= <-]. exists [], a, l.
    split; [reflexivity|]. split; [exact E | constructor].
  - intros H. destruct (IH H) as (pre & x & post & -> & Hx & Hpre).
    exists (a :: pre), x, post.
    split; [reflexivity|]. split; [exact Hx | now constructor].
Qed.

Lemma findFirst_skip {A B : Type} (f : A -> option B) (pre l : list A) :
  Forall (fun z => f z = None) pre ->
  Dom.findFirst f (pre ++ l) = Dom.findFirst f l.
Proof.
  induction 1 as [|a pre Ha _ IH]; [reflexivity|].
  change ((a :: pre) ++ l) with (a :: (pre ++ l)).
  now rewrite findFirst_cons, Ha.
Qed.

Lemma updateFirst_skip {A : Type} (f : A -> option A) (pre l : list A) :
  Forall (fun z => f z = None) pre ->
  Dom.updateFirst f (pre ++ l)
  = option_map (app pre) (Dom.updateFirst f l).
Proof.
  induction 1 as [|a pre Ha _ IH].
  - simpl. now destruct (Dom.updateFirst f l).
  - change ((a :: pre) ++ l) with (a :: (pre ++ l)).
    rewrite updateFirst_cons, Ha, IH.
    now destruct (Dom.updateFirst f l).
Qed.

(** The element that the assignment changes is the one that the lookup
    finds, and the lookup finds it again, with its new text. *)
Lemma setTextIn_found (id s : jsstring) (n el : Dom.Node) :
  Dom.findIn id n = Some el ->
  exists n',
    Dom.setTextIn id s n = Some n'
    /\ Dom.findIn id n' = Some (Dom.Element id (Dom.textChildren s)).
Proof.
  induction n as [data|i children IH] using Node_induction; [discriminate|].
  rewrite findIn_Element, setTextIn_Element.
  destruct (Dom.hasId i id) eqn:Hi.
  - intros _. eexists. split; [reflexivity|].
    rewrite findIn_Element, Hi. now rewrite (hasId_eq _ _ Hi).
  - intros H. apply findFirst_split in H
      as (pre & x & post & -> & Hx & Hpre).
    apply Forall_app in IH as [_ IH]. inversion IH as [|? ? IHx _]. subst.
    destruct (IHx Hx) as (x' & Hset & Hfound).
    assert (Hpre' : Forall (fun z => Dom.setTextIn id s z = None) pre).
    { rewrite Forall_forall in *. intros z Hz.
      apply setTextIn_None, findIn_None, Hpre, Hz. }
    rewrite (updateFirst_skip _ _ _ Hpre'), updateFirst_cons, Hset.
    eexists. split; [reflexivity|].
    rewrite findIn_Element, Hi, (findFirst_skip _ _ _ Hpre).
    now rewrite findFirst_cons, Hfound.
Qed.

Lemma setTextContent_found (id s : jsstring) (body : list Dom.Node)
      (el : Dom.Node) :
  Dom.getElementById id body = Some el ->
  Dom.getElementById id (Dom.setTextContent id s body)
  = Some (Dom.Element id (Dom.textChildren s)).
Proof.
  unfold Dom.getElementById, Dom.setTextContent. intros H.
  apply findFirst_split in H as (pre & x & post & -> & Hx & Hpre).
  destruct (setTextIn_found id s x el Hx) as (x' & Hset & Hfound).
  assert (Hpre' : Forall (fun z => Dom.setTextIn id s z = None) pre).
  { rewrite Forall_forall in *. intros z Hz.
    apply setTextIn_None, findIn_None, Hpre, Hz. }
  rewrite (updateFirst_skip _ _ _ Hpre'), updateFirst_cons, Hset.
  cbn [option_map].
  now rewrite (findFirst_skip _ _ _ Hpre), findFirst_cons, Hfound.
Qed.

End Found.

(** X23: whatever the page, one entry alone sets the element that
    [getElementById] finds for its key, the first in tree order also when
    several elements have the ID: after [applyEncryptedText] with a map of
    this one entry the lookup finds the element again, with the decoded text
    as its only child; the value is decoded, and a failure logged, only when
    there is such an element. *)
Theorem applyEncryptedText_single_entry
        (atob : jsstring -> option jsstring)
        (id encoded : jsstring) (p : Page) :
  let p' := applyEncryptedText atob (Some [(id, encoded)]) p in
  (Dom.getElementById id (body p) = None -> p' = p)
  /\ (Dom.getElementById id (body p) <> None ->
      Dom.getElementById id (body p')
      = Some (Dom.Element id (Dom.textChildren (decodedOf atob encoded)))
      /\ errorLog p'
         = errorLog p
             ++ (if undecodable atob (id, encoded)
                 then [js "Failed to decode text:"] else [])).
Proof.
  cbv zeta. unfold applyEncryptedText. cbn [fold_left].
  destruct (applyEntry_cases atob p id encoded)
    as [[Hnone ->] | (Hsome & -> & ->)].
  - split; [reflexivity | intros H; now destruct H].
  - split; [intros H; now destruct Hsome|]. intros _.
    split; [|reflexivity].
    destruct (Dom.getElementById id (body p)) as [el|] eqn:E;
      [|now destruct Hsome].
    exact (setTextContent_found _ _ _ _ E).
Qed.

Lemma applyEncryptedText_single_entry_witness :
  Dom.getElementById (js "a")
    (body (applyEncryptedText Base64.atob (Some [(js "a", js "SGk=")])
             {| body := [Dom.Element (js "a") [Dom.Text (js "x")];
                         Dom.Element (js "a") [Dom.Text (js "y")]];
                errorLog := [] |}))
  = Some (Dom.Element (js "a") [Dom.Text (js "Hi")]).
Proof.
  apply (proj2 (applyEncryptedText_single_entry
                  Base64.atob (js "a") (js "SGk=")
                  {| body := [Dom.Element (js "a") [Dom.Text (js "x")];
                              Dom.Element (js "a") [Dom.Text (js "y")]];
                     errorLog := [] |})).
  discriminate.
Defined.

(** ** Tokens and the start of a line *)

Section TokenShape.

Lemma hasSpace_snoc (s : jsstring) (c : N) :
  hasSpace s = false -> isSpace c = false -> hasSpace (s ++ [c]) = false.
Proof.
  unfold hasSpace. intros Hs Hc. rewrite existsb_app, Hs. simpl. now rewrite Hc.
Qed.

Lemma blank_snoc (s : jsstring) (c : N) :
  forallb isSpace s = true -> isSpace c = true ->
  forallb isSpace (s ++ [c]) = true.
Proof. intros Hs Hc. rewrite forallb_app, Hs. simpl. now rewrite Hc. Qed.

Lemma word_not_blank (t : jsstring) :
  t <> [] -> hasSpace t = false -> forallb isSpace t = true -> False.
Proof.
  destruct t as [|c t]; [contradiction|]. unfold hasSpace. simpl.
  destruct (isSpace c); discriminate.
Qed.

(** The pieces that [split(/(\s+)/)] returns: in a run, the run, a word and
    the rest; otherwise a word and the rest. *)
Lemma splitKeepSpaces_shape (s : jsstring) :
  (forall acc : jsstring,
      acc <> [] -> forallb isSpace acc = true ->
      exists run word rest,
        splitKeepSpacesFrom true acc s = run :: word :: rest
        /\ run <> [] /\ forallb isSpace run = true
        /\ nextIsWord (word :: rest)
        /\ tokenShape (word :: rest))
  /\ (forall acc : jsstring,
         hasSpace acc = false ->
         exists word rest,
           splitKeepSpacesFrom false acc s = word :: rest
           /\ hasSpace word = false
           /\ (acc <> [] -> word <> [])
           /\ tokenShape (word :: rest)).
Proof.
  induction s as [|c s [IHrun IHword]].
  - split.
    + intros acc Hne Hblank. exists acc, [], []. cbn [splitKeepSpacesFrom].
      split; [reflexivity|]. split; [exact Hne|]. split; [exact Hblank|].
      split; [now split|]. cbn. split; [now right|]. split; [|exact I].
      intros H. now contradiction H.
    + intros acc Hacc. exists acc, []. cbn [splitKeepSpacesFrom].
      split; [reflexivity|]. split; [exact Hacc|]. split; [tauto|].
      cbn. split; [now right|]. split; [|exact I]. intros _ _. exact I.
  - split.
    + intros acc Hne Hblank. cbn [splitKeepSpacesFrom].
      destruct (isSpace c) eqn:Ec.
      * apply IHrun; [now destruct acc | now apply blank_snoc].
      * destruct (IHword [c]) as [word [rest [E [Hword [Hwne Hshape]]]]].
        { unfold hasSpace. simpl. now rewrite Ec. }
        exists acc, word, rest. rewrite E.
        split; [reflexivity|]. split; [exact Hne|]. split; [exact Hblank|].
        split; [|exact Hshape]. split; [exact Hword|].
        intros ->. exfalso. now apply Hwne.
    + intros acc Hacc. cbn [splitKeepSpacesFrom].
      destruct (isSpace c) eqn:Ec.
      * destruct (IHrun [c])
          as [run [word [rest [E [Hrne [Hrun [Hnext Hshape]]]]]]].
        { discriminate. }
        { simpl. now rewrite Ec. }
        exists acc, (run :: word :: rest). rewrite E.
        split; [reflexivity|]. split; [exact Hacc|]. split; [tauto|].
        split; [now right|]. split.
        -- intros Hne Hblank. exfalso.
           exact (word_not_blank acc Hne Hacc Hblank).
        -- split; [now left|]. split; [|exact Hshape].
           intros _ _. exact Hnext.
      * destruct (IHword (acc ++ [c]))
          as [word [rest [E [Hword [Hwne Hshape]]]]].
        { now apply hasSpace_snoc. }
        exists word, rest. rewrite E.
        split; [reflexivity|]. split; [exact Hword|]. split; [|exact Hshape].
        intros _. apply Hwne. now destruct acc.
Qed.

Lemma words_shape (toks : list jsstring) :
  Forall (fun t => t <> [] /\ hasSpace t = false) toks -> tokenShape toks.
Proof.
  induction 1 as [|t toks [Hne Hword] _ IH]; [exact I|]. cbn.
  repeat split; [now right | | exact IH].
  intros _ Hblank. exfalso. exact (word_not_blank t Hne Hword Hblank).
Qed.

Lemma arrayFrom_words (n : nat) (s : jsstring) :
  (length s <= n)%nat -> hasSpace s = false ->
  Forall (fun t => t <> [] /\ hasSpace t = false) (arrayFrom s).
Proof.
  revert s; induction n as [|n IH]; intros s Hlen Hs.
  - destruct s; [constructor | simpl in Hlen; lia].
  - destruct s as [|c [|d s]]; [constructor | |].
    + repeat constructor; [discriminate | exact Hs].
    + unfold hasSpace in Hs. simpl in Hs.
      apply orb_false_iff in Hs as [Hc Hs].
      apply orb_false_iff in Hs as [Hd Hs].
      change (arrayFrom (c :: d :: s))
        with (if isHighSurrogate c && isLowSurrogate d
              then [c; d] :: arrayFrom s else [c] :: arrayFrom (d :: s)).
      destruct (isHighSurrogate c && isLowSurrogate d).
      * constructor.
        -- split; [discriminate|]. unfold hasSpace. simpl. now rewrite Hc, Hd.
        -- apply IH; [simpl in Hlen; lia | exact Hs].
      * constructor.
        -- split; [discriminate|]. unfold hasSpace. simpl. now rewrite Hc.
        -- apply IH; [simpl in Hlen |- *; lia|].
           unfold hasSpace. simpl. now rewrite Hd, Hs.
Qed.

Lemma tokensOf_shape (rawLine : jsstring) : tokenShape (tokensOf rawLine).
Proof.
  unfold tokensOf. destruct (hasSpace rawLine) eqn:E.
  - destruct (proj2 (splitKeepSpaces_shape rawLine) [] eq_refl)
      as [word [rest [Heq [_ [_ Hshape]]]]].
    unfold splitKeepSpaces. now rewrite Heq.
  - apply words_shape, (arrayFrom_words (length rawLine)); [lia | exact E].
Qed.

Lemma tokenShape_pure (toks : list jsstring) :
  tokenShape toks -> Forall pureToken toks.
Proof.
  induction toks as [|t toks IH]; [constructor|].
  intros [Hp [_ Hs]]. constructor; [exact Hp | now apply IH].
Qed.

End TokenShape.

Section LineStarts.

Variable numberToString : Q -> jsstring.
Variable measureText : jsstring -> jsstring -> Q.
Variable metrics : Metrics.

Abbreviation step := (wrapToken numberToString measureText metrics).
Abbreviation wide := (tooWide numberToString measureText metrics).

Lemma trimStart_fixed_app (c t : jsstring) :
  c <> [] -> trimStart c = c -> trimStart (c ++ t) = c ++ t.
Proof.
  destruct c as [|d c]; [contradiction|]. intros _. simpl.
  destruct (isSpace d) eqn:E; [|reflexivity].
  intros H. exfalso. apply (f_equal (@length N)) in H. simpl in H.
  assert (Hle : forall s : jsstring, (length (trimStart s) <= length s)%nat).
  { induction s as [|x s IH]; simpl; [lia|]. destruct (isSpace x); simpl; lia. }
  specialize (Hle c). lia.
Qed.

(** After the first break, every line starts as [trimStart] leaves it. *)
Lemma wrapTokens_starts (toks : list jsstring) (r : list jsstring)
      (c : jsstring) :
  tokenShape toks ->
  trimStart c = c ->
  (c = [] -> nextIsWord toks) ->
  Forall (fun l => trimStart l = l) r ->
  Forall (fun l => trimStart l = l) (fst (fold_left step toks (r, c)))
  /\ trimStart (snd (fold_left step toks (r, c)))
     = snd (fold_left step toks (r, c)).
Proof.
  revert r c; induction toks as [|t toks IH];
    intros r c Hshape Hc Hnext Hr; [now split|].
  destruct Hshape as [Hpure [Hrun Hshape]].
  cbn [fold_left]. destruct t as [|d t].
  - change (step (r, c) []) with (r, c). apply IH; auto.
    intros Hnil. destruct (Hnext Hnil) as [_ Hlast].
    now rewrite (Hlast eq_refl).
  - change (step (r, c) (d :: t))
      with (if wide (c ++ d :: t) && nonBlank c
            then (r ++ [c], trimStart (d :: t)) else (r, c ++ d :: t)).
    destruct (wide (c ++ d :: t) && nonBlank c).
    + apply IH; auto.
      * apply trimStart_idempotent.
      * intros Hnil. apply Hrun; [discriminate|].
        now apply trimStart_nil_blank.
      * apply Forall_app. split; [exact Hr | now constructor].
    + apply IH; auto.
      * destruct c as [|x c].
        -- cbn [app]. destruct (Hnext eq_refl) as [Hword _].
           now apply trimStart_word.
        -- apply trimStart_fixed_app; [discriminate | exact Hc].
      * intros Hnil. now destruct c.
Qed.

Lemma wrapTokens_first_line (toks : list jsstring) (c : jsstring) :
  tokenShape toks ->
  exists first rest,
    fst (fold_left step toks ([], c)) ++ [snd (fold_left step toks ([], c))]
    = first :: rest
    /\ Forall (fun l => trimStart l = l) rest.
Proof.
  revert c; induction toks as [|t toks IH]; intros c Hshape.
  - exists c, []. split; [reflexivity | constructor].
  - destruct Hshape as [Hpure [Hrun Hshape]].
    cbn [fold_left]. destruct t as [|d t].
    + change (step ([], c) []) with (@nil jsstring, c). now apply IH.
    + change (step ([], c) (d :: t))
        with (if wide (c ++ d :: t) && nonBlank c
              then ([] ++ [c], trimStart (d :: t))
              else (@nil jsstring, c ++ d :: t)).
      destruct (wide (c ++ d :: t) && nonBlank c); [|now apply IH].
      cbn [app].
      rewrite (wrapTokens_frame numberToString measureText metrics toks [c]).
      cbn [fst snd].
      destruct (wrapTokens_starts toks [] (trimStart (d :: t))) as [Hr Hlast].
      * exact Hshape.
      * apply trimStart_idempotent.
      * intros Hnil. apply Hrun; [discriminate|].
        now apply trimStart_nil_blank.
      * constructor.
      * eexists c, _. split; [reflexivity|].
        apply Forall_app. split; [exact Hr | now constructor].
Qed.

End LineStarts.

(** X6: the tokens of a segment spell the segment, and each of them is either
    a run of whitespace or free of whitespace: a word never carries the
    whitespace around it. *)
Theorem tokensOf_spell (rawLine : jsstring) :
  concat (tokensOf rawLine) = rawLine
  /\ Forall pureToken (tokensOf rawLine).
Proof.
  split; [apply concat_tokensOf | apply tokenShape_pure, tokensOf_shape].
Qed.

(** X5: within a segment only the first line can start with whitespace: every
    later line is empty or starts with a character that is not whitespace,
    the whitespace at a break being stripped. *)
Theorem wrapSegment_line_starts
        (numberToString : Q -> jsstring)
        (measureText : jsstring -> jsstring -> Q)
        (metrics : Metrics) (rawLine : jsstring) :
  exists (first : jsstring) (rest : list jsstring),
    wrapSegment numberToString measureText metrics rawLine = first :: rest
    /\ Forall (fun line => trimStart line = line) rest.
Proof.
  rewrite wrapSegment_snoc.
  apply wrapTokens_first_line, tokensOf_shape.
Qed.
